(** * Certificate maker: a shallow embedding of [Server.js]

    The server has two endpoints.  [GET /fonts] proxies a web-font catalogue;
    [POST /generate-certificates] draws every participant name on a copy of
    an uploaded template, zips the generated images, streams the archive and
    removes its working files.  The repository carries two variants of the
    file: they differ in how the draw position is computed and in what the
    cleanup removes.  Both are embedded here, selected by a [variant].

    JavaScript strings are sequences of UTF-16 code units, the file system is
    a finite map from absolute paths to nodes, and the handler runs in a
    state-and-exception monad over that file system and the response. *)

From Stdlib Require Import QArith.
From stdpp Require Import gmap strings list fin_maps.

Set Default Proof Using "Type".

(** ** JavaScript strings and values *)

(** A string is its list of UTF-16 code units. *)
Abbreviation jsstring := (list N).

(** A literal, for code units below U+0100. *)
Definition js (s : string) : jsstring :=
  map Ascii.N_of_ascii (String.list_ascii_of_string s).

Definition SPACE : N := 32.
Definition NEWLINE : N := 10.
Definition SLASH : N := 47.
Definition BACKSLASH : N := 92.
Definition NUL : N := 0.

(** The code units removed by [String.prototype.trim] and skipped by
    [parseInt]: ECMAScript's WhiteSpace and LineTerminator. *)
Definition isWhiteSpace (c : N) : bool :=
  (((9 <=? c) && (c <=? 13)) || (c =? 32) || (c =? 160) || (c =? 5760)
   || ((8192 <=? c) && (c <=? 8202)) || (c =? 8232) || (c =? 8233)
   || (c =? 8239) || (c =? 8287) || (c =? 12288) || (c =? 65279))%N.

Fixpoint trimStart (s : jsstring) : jsstring :=
  match s with
  | [] => []
  | c :: r => if isWhiteSpace c then trimStart r else s
  end.

Fixpoint trimEnd (s : jsstring) : jsstring :=
  match s with
  | [] => []
  | c :: r =>
      match trimEnd r with
      | [] => if isWhiteSpace c then [] else [c]
      | r' => c :: r'
      end
  end.

(** [s.trim()] *)
Definition trim (s : jsstring) : jsstring := trimEnd (trimStart s).

(** [s.split(sep)] for a separator of one code unit.  The empty string
    splits into one empty piece. *)
Fixpoint split (sep : N) (s : jsstring) : list jsstring :=
  match s with
  | [] => [[]]
  | c :: r =>
      if (c =? sep)%N then [] :: split sep r
      else match split sep r with
           | w :: ws => (c :: w) :: ws
           | [] => [[c]]
           end
  end.

(** [pieces.join(sep)] for a separator of one code unit. *)
Fixpoint join (sep : N) (pieces : list jsstring) : jsstring :=
  match pieces with
  | [] => []
  | [w] => w
  | w :: ws => w ++ sep :: join sep ws
  end.

(** [s.charAt(i)]: a string of one code unit, or the empty string. *)
Definition charAt (s : jsstring) (i : nat) : jsstring :=
  match s !! i with
  | Some c => [c]
  | None => []
  end.

(** [s.slice(i)] for [0 <= i]. *)
Definition slice (s : jsstring) (i : nat) : jsstring := drop i s.

(** [s.endsWith(suffix)] *)
Definition endsWith (s suffix : jsstring) : bool :=
  bool_decide (drop (length s - length suffix) s = suffix).

(** [lines.filter(Boolean)]: the empty string is the only falsy string. *)
Definition filterBoolean (lines : list jsstring) : list jsstring :=
  filter (λ line, line ≠ []) lines.

(** The values a draw position can take: NaN, an infinity, a finite
    number (held as the rational it denotes; the two zeros are one value,
    both are falsy and both draw at 0), or a string. *)
Inductive jsval :=
  | VNaN
  | VInf (negative : bool)
  | VNum (q : Q)
  | VStr (s : jsstring).

(** ToBoolean *)
Definition truthy (v : jsval) : bool :=
  match v with
  | VNaN => false
  | VInf _ => true
  | VNum q => negb (Qeq_bool q 0)
  | VStr s => negb (bool_decide (s = []))
  end.

(** [a || b] *)
Definition jsOr (a b : jsval) : jsval := if truthy a then a else b.

Definition isDigit (c : N) : bool := ((48 <=? c) && (c <=? 57))%N.

Definition digitsValue (ds : jsstring) : Z :=
  foldl (λ acc c, acc * 10 + (Z.of_N c - 48))%Z 0%Z ds.

Fixpoint takeDigits (s : jsstring) : jsstring :=
  match s with
  | c :: r => if isDigit c then c :: takeDigits r else []
  | [] => []
  end.

(** The double nearest to a natural number [n]: below 2^53 the number
    itself; above, [n] rounded to 53 significant bits, a tie going to the
    even significand.  The result 2^1024 stands for an overflow. *)
Definition nearestDouble (n : Z) : Z :=
  if (n <? 2 ^ 53)%Z then n
  else
    let e := (Z.log2 n - 52)%Z in
    let q := (n / 2 ^ e)%Z in
    let r := (n mod 2 ^ e)%Z in
    let half := (2 ^ (e - 1))%Z in
    let q' := if (r <? half)%Z then q
              else if (half <? r)%Z then (q + 1)%Z
              else if Z.even q then q else (q + 1)%Z in
    (q' * 2 ^ e)%Z.

(** The Number value for an integer: the nearest double, or an infinity
    when that double would be 2^1024 or more. *)
Definition numberFor (z : Z) : jsval :=
  let m := nearestDouble (Z.abs z) in
  if (2 ^ 1024 <=? m)%Z then VInf (z <? 0)%Z
  else VNum (inject_Z (Z.sgn z * m)).

(** [parseInt(s, 10)] on a string: leading white space is skipped, one sign
    is read, then the longest run of decimal digits; no digit gives NaN, and
    the digits give the Number value for the integer they write (V8 rounds
    the exact integer; ECMAScript would also allow the digits after the
    twentieth to be read as zeros). *)
Definition parseIntString (s : jsstring) : jsval :=
  let t := trimStart s in
  let '(sign, t) :=
    match t with
    | 45%N :: r => ((-1)%Z, r)
    | 43%N :: r => (1%Z, r)
    | _ => (1%Z, t)
    end in
  match takeDigits t with
  | [] => VNaN
  | ds => numberFor (sign * digitsValue ds)
  end.

(** [parseInt(v, 10)].  A number is first printed.  The handler passes a
    number only as the default 0 of an absent field; for the other numbers
    this is [parseInt] where they print in plain decimal notation (a
    magnitude from 1e-6 up to 1e21): the integer part.  An infinity prints
    as a word without digits. *)
Definition parseInt (v : jsval) : jsval :=
  match v with
  | VNaN => VNaN
  | VInf _ => VNaN
  | VNum q => VNum (inject_Z (Z.quot (Qnum q) (Z.pos (Qden q))))
  | VStr s => parseIntString s
  end.

(** The values the catalogue's answer is parsed to and our replies are
    built from.  A number is a finite double or an infinity (what
    [JSON.parse] makes of a number beyond the doubles).  An object is its
    list of properties; where a key comes twice, the last value counts. *)
#[warnings="-register-all"]
Inductive json :=
  | JUndefined
  | JNull
  | JBool (b : bool)
  | JNumber (q : Q)
  | JInfinity (negative : bool)
  | JString (s : jsstring)
  | JArray (items : list json)
  | JObject (fields : list (jsstring * json)).

(** ** Images, canvases, files *)

(** A decoded raster image ([loadImage]). *)
Record Image := { width : Z; height : Z; pixels : jsstring }.

(** The calls made on a canvas's 2d context, in program order. *)
Inductive drawOp :=
  | DrawImage (img : Image) (dx dy dw dh : Z)
  | SetFont (font : jsstring)
  | SetFillStyle (style : jsstring)
  | FillText (text : jsstring) (x y : jsval).

Record Canvas := { canvasWidth : Z; canvasHeight : Z; ops : list drawOp }.

(** What a file holds.  An uploaded file is known by its two readings, as
    UTF-8 text and as an image (if it decodes as one); a generated file by
    the canvas or by the archive entries it was encoded from. *)
#[warnings="-register-all"]
Inductive content :=
  | Raw (text : jsstring) (image : option Image)
  | Png (c : Canvas)
  | Zip (entries : list (jsstring * content)).

(** An absolute, normalized path: its segments from the root. *)
Abbreviation Path := (list jsstring).

Inductive node :=
  | Dir
  | File (data : content).

(** What the platform provides and the repository does not define. *)
Class Runtime := {
  (** [String.prototype.toUpperCase] *)
  toUpperCase : jsstring → jsstring;
  (** [ctx.measureText(text).width] under the font [font] *)
  measureTextWidth : jsstring → jsstring → Q;
  (** the UTF-8 reading of an encoded PNG or ZIP *)
  binaryText : content → jsstring;
  (** [__dirname] *)
  dirname : Path;
}.

(** [toUpperCase] as Unicode defines it on code units below U+0100, and
    the identity above. *)
Definition upperLatin1 (c : N) : jsstring :=
  (if (97 <=? c) && (c <=? 122) then [c - 32]
   else if c =? 181 then [924]
   else if c =? 223 then [83; 83]
   else if (224 <=? c) && (c <=? 254) && negb (c =? 247) then [c - 32]
   else if c =? 255 then [376]
   else [c])%N.

Definition toUpperCaseLatin1 (s : jsstring) : jsstring :=
  flat_map upperLatin1 s.

(** ** Paths ([path.join] on POSIX) *)

(** One segment of a joined path: an empty segment and [.] are dropped,
    [..] removes the last segment, except at the root. *)
Definition joinSegment (p : Path) (seg : jsstring) : Path :=
  if bool_decide (seg = [] ∨ seg = js ".") then p
  else if bool_decide (seg = js "..") then removelast p
  else p ++ [seg].

(** [path.join(base, rel)] for an absolute [base]. *)
Definition path_join (base : Path) (rel : jsstring) : Path :=
  foldl joinSegment base (split SLASH rel).

(** ** The file system ([fs], [fs-extra]) *)

Inductive exn :=
  | ENOENT | EEXIST | EISDIR | ENOTDIR | EINVAL
  | ImageError | HeadersSent | TypeError
  | Rejection (detail : json).   (* a rejected promise, with its reason *)

Inductive result (A : Type) :=
  | Ok (a : A)
  | Throw (e : exn).
Arguments Ok {A} a.
Arguments Throw {A} e.

#[global] Instance result_ret : MRet result := λ A a, Ok a.

#[global] Instance result_bind : MBind result := λ A B f r,
  match r with
  | Ok a => f a
  | Throw e => Throw e
  end.

Abbreviation FileSystem := (gmap Path node).

Definition lookupNode (m : FileSystem) (p : Path) : option node :=
  match p with
  | [] => Some Dir
  | _ => m !! p
  end.

Definition fs_existsSync (m : FileSystem) (p : Path) : bool :=
  match lookupNode m p with
  | Some _ => true
  | None => false
  end.

Definition fs_mkdirSync (m : FileSystem) (p : Path) : result FileSystem :=
  match lookupNode m p with
  | Some _ => Throw EEXIST
  | None =>
      match lookupNode m (removelast p) with
      | Some Dir => Ok (<[p := Dir]> m)
      | Some (File _) => Throw ENOTDIR
      | None => Throw ENOENT
      end
  end.

(** [mkdirsSync]: the directories of [segs] below [pre], created as needed. *)
Fixpoint mkdirsFrom (pre : Path) (segs : list jsstring) (m : FileSystem)
  : result FileSystem :=
  match segs with
  | [] => Ok m
  | s :: r =>
      let p := pre ++ [s] in
      match m !! p with
      | Some Dir => mkdirsFrom p r m
      | Some (File _) => Throw ENOTDIR
      | None => mkdirsFrom p r (<[p := Dir]> m)
      end
  end.

Definition fs_mkdirsSync (m : FileSystem) (p : Path) : result FileSystem :=
  mkdirsFrom [] p m.

(** A path with a NUL code unit is refused before the file system is
    reached. *)
Definition hasNul (p : Path) : bool :=
  bool_decide (Exists (λ seg, NUL ∈ seg) p).

Definition fs_writeFileSync (m : FileSystem) (p : Path) (data : content)
  : result FileSystem :=
  if hasNul p then Throw EINVAL
  else match lookupNode m p with
       | Some Dir => Throw EISDIR
       | _ =>
           match lookupNode m (removelast p) with
           | Some Dir => Ok (<[p := File data]> m)
           | Some (File _) => Throw ENOTDIR
           | None => Throw ENOENT
           end
       end.

Definition fs_readFile (m : FileSystem) (p : Path) : result content :=
  match lookupNode m p with
  | Some (File data) => Ok data
  | Some Dir => Throw EISDIR
  | None => Throw ENOENT
  end.

(** The entries of a directory, in the order the map lists them (the order
    of [readdirSync] is the platform's). *)
Definition children (m : FileSystem) (d : Path) : list jsstring :=
  (λ p, default [] (last p))
    <$> filter (λ p, p ≠ [] ∧ removelast p = d) (map_to_list m).*1.

Definition fs_readdirSync (m : FileSystem) (d : Path) : result (list jsstring) :=
  match lookupNode m d with
  | Some Dir => Ok (children m d)
  | Some (File _) => Throw ENOTDIR
  | None => Throw ENOENT
  end.

(** [fs.removeSync]: the path and everything below it; nothing if absent. *)
Definition fs_removeSync (m : FileSystem) (p : Path) : FileSystem :=
  filter (λ kv : Path * node, ¬ p `prefix_of` kv.1) m.

(** [fs.emptyDirSync]: every item of the directory is removed; a directory
    that cannot be listed is created instead. *)
Definition fs_emptyDirSync (m : FileSystem) (d : Path) : result FileSystem :=
  match lookupNode m d with
  | Some Dir =>
      Ok (filter (λ kv : Path * node, ¬ (d `prefix_of` kv.1 ∧ kv.1 ≠ d)) m)
  | Some (File _) => Throw EEXIST
  | None => fs_mkdirsSync m d
  end.

(** ** Responses and the handler monad *)

Inductive Sent :=
  | SentJson (j : json)                              (* res.json / res.send *)
  | SentText (s : jsstring)                          (* res.send of a string *)
  | SentFile (filename : jsstring) (data : content)  (* a completed download *)
  | SentPartial (filename : jsstring).               (* a download cut short *)

(** A response: the property [res.statusCode], which [res.status] sets at
    any time; whether the headers went out, and the status that went out
    with them; the body. *)
Record Response := {
  statusCode : Z;
  headersSent : bool;
  sent : option Sent;
  statusLine : option Z;
}.

Definition freshResponse : Response :=
  {| statusCode := 200; headersSent := false; sent := None;
     statusLine := None |}.

(** The state a request runs in: the file system, the fonts registered in
    the process, and the response being built.  Console output is not part
    of it. *)
Record World := {
  fs : FileSystem;
  fonts : list (Path * jsstring);
  res : Response;
}.

Definition M (A : Type) : Type := World → result A * World.

#[global] Instance M_ret : MRet M := λ A a w, (Ok a, w).

#[global] Instance M_bind : MBind M := λ A B f m w,
  match m w with
  | (Ok a, w') => f a w'
  | (Throw e, w') => (Throw e, w')
  end.

Definition throw {A} (e : exn) : M A := λ w, (Throw e, w).

(** [try { m } catch (e) { h e }] *)
Definition tryCatch {A} (m : M A) (h : exn → M A) : M A := λ w,
  match m w with
  | (Ok a, w') => (Ok a, w')
  | (Throw e, w') => h e w'
  end.

Fixpoint forEach {A} (f : A → M unit) (l : list A) : M unit :=
  match l with
  | [] => mret tt
  | a :: r => f a ;; forEach f r
  end.

Definition readFs {A} (f : FileSystem → result A) : M A := λ w, (f (fs w), w).

Definition writeFs (f : FileSystem → result FileSystem) : M unit := λ w,
  match f (fs w) with
  | Ok m => (Ok tt, {| fs := m; fonts := fonts w; res := res w |})
  | Throw e => (Throw e, w)
  end.

Definition existsSync (p : Path) : M bool :=
  readFs (λ m, Ok (fs_existsSync m p)).
Definition mkdirSync (p : Path) : M unit :=
  writeFs (λ m, fs_mkdirSync m p).
Definition writeFileSync (p : Path) (data : content) : M unit :=
  writeFs (λ m, fs_writeFileSync m p data).
Definition readdirSync (d : Path) : M (list jsstring) :=
  readFs (λ m, fs_readdirSync m d).
Definition removeSync (p : Path) : M unit :=
  writeFs (λ m, Ok (fs_removeSync m p)).
Definition emptyDirSync (d : Path) : M unit :=
  writeFs (λ m, fs_emptyDirSync m d).

(** [res.status(code)]: the property is set, whether or not the headers
    are out already; what went out stays as it is. *)
Definition status (code : Z) : M unit := λ w,
  (Ok tt,
   {| fs := fs w; fonts := fonts w;
      res := {| statusCode := code;
                headersSent := headersSent (res w);
                sent := sent (res w);
                statusLine := statusLine (res w) |} |}).

(** [res.send(body)]: once the headers are out, setting them again throws;
    otherwise the headers go out with the status the response has now,
    followed by the body. *)
Definition send (b : Sent) : M unit := λ w,
  if headersSent (res w) then (Throw HeadersSent, w)
  else (Ok tt,
        {| fs := fs w; fonts := fonts w;
           res := {| statusCode := statusCode (res w);
                     headersSent := true;
                     sent := Some b;
                     statusLine := Some (statusCode (res w)) |} |}).

(** The body of [res.json({ error: message })]: an object with one string
    under one key is written as it is. *)
Definition errorBody (message : string) : Sent :=
  SentJson (JObject [(js "error", JString (js message))]).

Definition getHeadersSent : M bool := λ w, (Ok (headersSent (res w)), w).

(** [registerFont(fontPath, { family })] *)
Definition registerFont (fontPath : Path) (family : jsstring) : M unit := λ w,
  (Ok tt,
   {| fs := fs w; fonts := fonts w ++ [(fontPath, family)]; res := res w |}).

Definition liftResult {A} (r : result A) : M A := λ w, (r, w).

(** ** The server *)

Inductive variant :=
  | V1    (* the first file: positions are parsed, uploads are emptied *)
  | V2.   (* the second file: centred fallback, uploads are kept *)

(** [req.files] as multer leaves it for the two fields (one stored file
    each, known by its resolved path) and the text fields of [req.body]. *)
Record Request := {
  files_template : option Path;
  files_participants : option Path;
  body_fontFamily : option jsstring;
  body_fontSize : option jsstring;
  body_fontColor : option jsstring;
  body_xPosition : option jsstring;
  body_yPosition : option jsstring;
}.

(** How the stream of [res.download] ends: the file was sent, the transfer
    failed before any header went out, or it broke off after the headers. *)
Inductive StreamOutcome :=
  | Delivered
  | FailedBeforeHeaders
  | Aborted.

(** What [axios.get] settles to. *)
Inductive AxiosOutcome :=
  | Resolved (data : json)
  | Rejected (reason : json).

(** The value of a key of an object; a later occurrence of the key wins. *)
Fixpoint lookupField (key : jsstring) (fields : list (jsstring * json))
  : option json :=
  match fields with
  | [] => None
  | (k, v) :: r =>
      match lookupField key r with
      | Some v' => Some v'
      | None => if bool_decide (k = key) then Some v else None
      end
  end.

(** [v[key]]: reading a property of null or undefined throws; a key that is
    not there reads as undefined. *)
Definition getProp (v : json) (key : string) : result json :=
  match v with
  | JUndefined | JNull => Throw TypeError
  | JObject fields => Ok (default JUndefined (lookupField (js key) fields))
  | _ => Ok JUndefined
  end.

(** [v.map(f)]: only an array has [map]. *)
Definition jsMap (f : json → result json) (v : json) : result json :=
  match v with
  | JArray items => items' ← mapM f items; Ok (JArray items')
  | _ => Throw TypeError
  end.

(** The properties of an object, one for each key: a key stands where it
    comes first and has the value that comes last. *)
Fixpoint properties (fields : list (jsstring * json))
  : list (jsstring * json) :=
  match fields with
  | [] => []
  | (k, v) :: r =>
      (k, default v (lookupField k r))
      :: filter (λ kv : jsstring * json, kv.1 ≠ k) (properties r)
  end.

Definition isUndefined (v : json) : bool :=
  match v with
  | JUndefined => true
  | _ => false
  end.

(** What [JSON.stringify] writes of a value, as the reader of the text
    gets it back: a property whose value is undefined is left out, an
    undefined item of an array and a number that is not finite are written
    as null.  (At the top an undefined value has no text at all.) *)
Fixpoint serialized (v : json) : json :=
  match v with
  | JInfinity _ => JNull
  | JArray items =>
      JArray (map (λ item,
                     let item' := serialized item in
                     if isUndefined item' then JNull else item') items)
  | JObject fields =>
      JObject (filter (λ kv : jsstring * json, isUndefined kv.2 = false)
                 (properties
                    (map (λ kv : jsstring * json,
                            let '(k, x) := kv in (k, serialized x))
                         fields)))
  | _ => v
  end.

(** [res.json(body)]: the body is written by [JSON.stringify]; [SentJson]
    holds the value of the text that goes out. *)
Definition sendJson (body : json) : M unit :=
  send (SentJson (serialized body)).

Section Server.
Context {rt : Runtime}.

(** [word.charAt(0).toUpperCase() + word.slice(1)] *)
Definition capitalize (word : jsstring) : jsstring :=
  toUpperCase (charAt word 0) ++ slice word 1.

(** [name.trim().split(' ').map(capitalize).join(' ')] *)
Definition normalizeName (name : jsstring) : jsstring :=
  join SPACE (map capitalize (split SPACE (trim name))).

(** [path.basename(file, path.extname(file))] for a file name that ends in
    [.ttf] or [.otf]: the name without its last four code units, unless the
    name is the extension alone (a leading dot starts no extension). *)
Definition fontFamilyOf (file : jsstring) : jsstring :=
  if bool_decide (length file = 4) then file
  else take (length file - 4) file.

Definition loadAndRegisterFonts : M unit :=
  let fontsDir := path_join dirname (js "fonts") in
  present ← existsSync fontsDir;
  if negb present then mret tt
  else
    fontFiles ← readdirSync fontsDir;
    forEach (λ file,
      if endsWith file (js ".ttf") || endsWith file (js ".otf") then
        let fontPath := path_join fontsDir file in
        let fontFamily := fontFamilyOf file in
        registerFont fontPath fontFamily
      else mret tt) fontFiles.

(** A file read as an image: an upload that decodes, or a generated PNG
    (whose pixels are known only through its bytes). *)
Definition imageOf (data : content) : option Image :=
  match data with
  | Raw _ image => image
  | Png c =>
      Some {| width := canvasWidth c; height := canvasHeight c;
              pixels := binaryText data |}
  | Zip _ => None
  end.

(** A file read as UTF-8 text. *)
Definition textOf (data : content) : jsstring :=
  match data with
  | Raw text _ => text
  | _ => binaryText data
  end.

(** [await loadImage(path)] *)
Definition loadImage (p : Path) : M Image :=
  data ← readFs (λ m, fs_readFile m p);
  match imageOf data with
  | Some img => mret img
  | None => throw ImageError
  end.

(** [fs.readFileSync(path, 'utf-8')] *)
Definition readFileSync (p : Path) : M jsstring :=
  data ← readFs (λ m, fs_readFile m p);
  mret (textOf data).

(** The style read from [req.body], with the defaults of the destructuring
    pattern.  The size only ever appears printed inside the font string. *)
Record Style := {
  fontFamily : jsstring;
  fontSize : jsstring;
  fontColor : jsstring;
  xPosition : jsval;
  yPosition : jsval;
}.

Definition styleOf (req : Request) : Style :=
  {| fontFamily := default (js "Lato") (body_fontFamily req);
     fontSize := default (js "80") (body_fontSize req);
     fontColor := default (js "gold") (body_fontColor req);
     xPosition := default (VNum 0) (VStr <$> body_xPosition req);
     yPosition := default (VNum 0) (VStr <$> body_yPosition req) |}.

(** [`${fontSize}px ${fontFamily}`] *)
Definition fontOf (st : Style) : jsstring :=
  fontSize st ++ js "px " ++ fontFamily st.

Definition adjustedXPosition (v : variant) (st : Style) (template : Image)
    (textWidth : Q) : jsval :=
  match v with
  | V1 => parseInt (xPosition st)
  | V2 => jsOr (parseInt (xPosition st))
               (VNum ((inject_Z (width template) - textWidth) / 2))
  end.

Definition adjustedYPosition (v : variant) (st : Style) : jsval :=
  match v with
  | V1 => parseInt (yPosition st)
  | V2 => jsOr (parseInt (yPosition st)) (yPosition st)
  end.

(** The body of the loop up to [canvas.toBuffer]: the canvas on which the
    (normalized) name has been drawn. *)
Definition drawCertificate (v : variant) (st : Style) (template : Image)
    (name : jsstring) : Canvas :=
  let textWidth := measureTextWidth (fontOf st) name in
  {| canvasWidth := width template;
     canvasHeight := height template;
     ops := [ DrawImage template 0 0 (width template) (height template);
              SetFont (fontOf st);
              SetFillStyle (fontColor st);
              FillText name (adjustedXPosition v st template textWidth)
                            (adjustedYPosition v st) ] |}.

Definition certificatesDir : Path := path_join dirname (js "certificates/").
Definition zipPath : Path := path_join dirname (js "certificates.zip").
Definition uploadsDir : Path := path_join dirname (js "uploads").

(** One turn of the loop over [participantNames]. *)
Definition generateOne (v : variant) (st : Style) (template : Image)
    (name : jsstring) : M unit :=
  let name := normalizeName name in
  let canvas := drawCertificate v st template name in
  let certPath := path_join certificatesDir (name ++ js ".png") in
  let buffer := Png canvas in
  writeFileSync certPath buffer.

(** [path.win32.basename(path.win32.normalize(p))], by which adm-zip names
    the entry of a local file: both [/] and [\] separate segments, empty
    segments and [.] are dropped, [..] removes the segment before it, and
    the name is the last segment left.  For a file whose name has no
    backslash this is the file's name. *)
Definition win32Basename (p : Path) : jsstring :=
  default [] (last (foldl joinSegment [] (flat_map (split BACKSLASH) p))).

(** [zip.addFile(name, data)]: a new entry, or new data for the entry that
    has this name already. *)
Definition addFile (zip : list (jsstring * content)) (name : jsstring)
    (data : content) : list (jsstring * content) :=
  if bool_decide (name ∈ zip.*1)
  then map (λ entry : jsstring * content,
              if bool_decide (entry.1 = name) then (name, data) else entry) zip
  else zip ++ [(name, data)].

(** [fs.statSync(path)] *)
Definition statSync (p : Path) : M node :=
  readFs (λ m, match lookupNode m p with
               | Some n => Ok n
               | None => Throw ENOENT
               end).

(** [zip.addLocalFile(localPath)]: a file's bytes under its base name; a
    directory gives an entry without bytes whose name ends in a slash. *)
Definition addLocalFile (zip : list (jsstring * content)) (localPath : Path)
  : M (list (jsstring * content)) :=
  present ← existsSync localPath;
  if negb present then throw ENOENT
  else
    let p := win32Basename localPath in
    attr ← statSync localPath;
    match attr with
    | File data => mret (addFile zip p data)
    | Dir => mret (addFile zip (p ++ [SLASH]) (Raw [] None))
    end.

Fixpoint addLocalFiles (zip : list (jsstring * content)) (dir : Path)
    (files : list jsstring) : M (list (jsstring * content)) :=
  match files with
  | [] => mret zip
  | file :: r =>
      zip' ← addLocalFile zip (path_join dir file);
      addLocalFiles zip' dir r
  end.

(** [zip.writeZip(path)]: the archive replaces a file at [path]; missing
    parent directories are made; a directory at [path] is left alone. *)
Definition writeZip (p : Path) (zip : list (jsstring * content)) : M unit :=
  writeFs (λ m,
    match lookupNode m p with
    | Some Dir => Ok m
    | _ =>
        m' ← fs_mkdirsSync m (removelast p);
        Ok (<[p := File (Zip zip)]> m')
    end).

(** [return res.status(400).json({ error })]: the handler stops short of
    the download. *)
Definition reject (message : string) : M bool :=
  status 400;; send (errorBody message);; mret false.

(** The second half of the [try] block: from the certificates directory to
    [zip.writeZip]. *)
Definition buildArchive (v : variant) (st : Style) (template : Image)
    (participantNames : list jsstring) : M bool :=
  dirExists ← existsSync certificatesDir;
  (if negb dirExists then mkdirSync certificatesDir else mret tt);;
  forEach (generateOne v st template) participantNames;;
  files ← readdirSync certificatesDir;
  zip ← addLocalFiles [] certificatesDir files;
  writeZip zipPath zip;;
  mret true.

(** The [try] block of the handler, up to the call of [res.download]; the
    result tells whether that call was reached. *)
Definition generateBody (v : variant) (req : Request) : M bool :=
  match files_template req, files_participants req with
  | Some templatePath, Some participantsPath =>
      templateExists ← existsSync templatePath;
      if negb templateExists then reject "Template file does not exist."
      else
      participantsExist ← existsSync participantsPath;
      if negb participantsExist then reject "Participants file does not exist."
      else
      let st := styleOf req in
      loadAndRegisterFonts;;
      template ← loadImage templatePath;
      text ← readFileSync participantsPath;
      let participantNames := filterBoolean (split NEWLINE text) in
      if bool_decide (length participantNames = 0)
      then reject "The participants list is empty."
      else buildArchive v st template participantNames
  | _, _ => reject "Please upload both the template and participants files."
  end.

(** The handler's [try]/[catch]. *)
Definition generateTry (v : variant) (req : Request) : M bool :=
  tryCatch (generateBody v req)
    (λ error,
       alreadySent ← getHeadersSent;
       (if negb alreadySent
        then status 500;;
             send (SentText (js "An error occurred while generating certificates."))
        else mret tt);;
       mret false).

(** The [try]/[catch] at the end of the download callback. *)
Definition cleanup (v : variant) : M unit :=
  tryCatch
    ((match v with
      | V1 => emptyDirSync uploadsDir
      | V2 => mret tt
      end);;
     removeSync certificatesDir;;
     removeSync zipPath)
    (λ cleanupError, mret tt).

(** The callback given to [res.download]. *)
Definition downloadCallback (v : variant) (err : bool) : M unit :=
  (if err
   then status 500;;
        send (SentText (js "An error occurred while downloading the ZIP file."))
   else mret tt);;
  cleanup v.

(** [res.download(path, filename, callback)], for a request without range
    or conditional headers: the transfer ends as the [outcome] says (a file
    that cannot be read fails before the headers), then the callback runs. *)
Definition download (p : Path) (filename : jsstring) (outcome : StreamOutcome)
    (callback : bool → M unit) : M unit := λ w,
  let respond b :=
    {| fs := fs w; fonts := fonts w;
       res := {| statusCode := statusCode (res w);
                 headersSent := true;
                 sent := Some b;
                 statusLine := Some (statusCode (res w)) |} |} in
  match outcome, fs_readFile (fs w) p with
  | Delivered, Ok data => callback false (respond (SentFile filename data))
  | Aborted, Ok data => callback true (respond (SentPartial filename))
  | _, _ => callback true w
  end.

(** [POST /generate-certificates] *)
Definition generateCertificates (v : variant) (req : Request)
    (outcome : StreamOutcome) : M unit :=
  reached ← generateTry v req;
  if (reached : bool)
  then download zipPath (js "certificates.zip") outcome (downloadCallback v)
  else mret tt.

(** A request served from a file system and a set of registered fonts: the
    world it leaves behind.  An exception that escapes the download callback
    ends the run where it was thrown. *)
Definition serve (v : variant) (req : Request) (outcome : StreamOutcome)
    (m : FileSystem) (registered : list (Path * jsstring)) : World :=
  (generateCertificates v req outcome
     {| fs := m; fonts := registered; res := freshResponse |}).2.

(** One entry of the reply of [GET /fonts]. *)
Definition fontEntry (font : json) : result json :=
  family ← getProp font "family";
  variants ← getProp font "variants";
  Ok (JObject [(js "family", family); (js "variants", variants)]).

(** [GET /fonts], with the environment's [APIKEY] and the catalogue's
    behaviour as arguments. *)
Definition fontsHandler (apiKey : option jsstring)
    (axiosGet : jsstring → AxiosOutcome) : M unit :=
  tryCatch
    (let apiUrl :=
       js "https://www.googleapis.com/webfonts/v1/webfonts?key="
       ++ default (js "undefined") apiKey in
     data ← match axiosGet apiUrl with
            | Resolved data => mret data
            | Rejected reason => throw (Rejection reason)
            end;
     fonts ← liftResult (items ← getProp data "items"; jsMap fontEntry items);
     sendJson fonts)
    (λ error,
       status 500;; send (errorBody "Failed to fetch fonts.")).

Definition serveFonts (apiKey : option jsstring)
    (axiosGet : jsstring → AxiosOutcome) : Response :=
  res (fontsHandler apiKey axiosGet
         {| fs := ∅; fonts := []; res := freshResponse |}).2.

End Server.

(** ** The properties, as definitions *)

(** A trimmed string is empty, or starts and ends with a unit that is not
    white space. *)
Definition isTrimmed (s : jsstring) : Prop :=
  match s with
  | [] => True
  | c :: _ => isWhiteSpace c = false
  end ∧ trimEnd s = s.

Section Properties.
Context {rt : Runtime}.

(** Title-casing as one pass over the code units: a unit that starts a word
    (the first one, or one that follows a space) is replaced by its upper
    case; every other unit, spaces included, is kept. *)
Fixpoint titleScan (atStart : bool) (s : jsstring) : jsstring :=
  match s with
  | [] => []
  | c :: r =>
      (if atStart && negb (c =? SPACE)%N then toUpperCase [c] else [c])
      ++ titleScan (c =? SPACE)%N r
  end.

(** Nothing at [p] nor below it. *)
Definition absent (m : FileSystem) (p : Path) : Prop :=
  ∀ q, p `prefix_of` q → m !! q = None.

(** Nothing below [d]. *)
Definition emptied (m : FileSystem) (d : Path) : Prop :=
  ∀ q, d `prefix_of` q → q ≠ d → m !! q = None.

(** The working files are gone. *)
Definition cleanedUp (m : FileSystem) : Prop :=
  emptied m uploadsDir ∧ absent m certificatesDir ∧ absent m zipPath.

(** The length of a string written in UTF-8: four bytes for a surrogate
    pair, from one to three for any other code unit. *)
Fixpoint utf8Length (s : jsstring) : nat :=
  match s with
  | [] => 0
  | c :: r =>
      if (c <? 128)%N then S (utf8Length r)
      else if (c <? 2048)%N then 2 + utf8Length r
      else match r with
           | d :: r' =>
               if ((55296 <=? c) && (c <? 56320)
                   && (56320 <=? d) && (d <? 57344))%N
               then 4 + utf8Length r'
               else 3 + utf8Length r
           | [] => 3
           end
  end.

(** A name that, once [.png] is appended, is one path segment for the file
    system and for the archive alike, within the 255 bytes that the usual
    file systems allow a name (the model's file system has no such limit):
    no slash, no backslash, no NUL. *)
Definition safeName (name : jsstring) : Prop :=
  (SLASH ∉ name) ∧ (NUL ∉ name) ∧ (BACKSLASH ∉ name) ∧
  utf8Length (name ++ js ".png") ≤ 255.

Definition certificateFile (name : jsstring) : jsstring :=
  normalizeName name ++ js ".png".

(** A segment that [path.join] appends as it is. *)
Definition plainSegment (seg : jsstring) : Prop :=
  (SLASH ∉ seg) ∧ seg ≠ [] ∧ seg ≠ js "." ∧ seg ≠ js "..".

(** A directory that is not there yet, or is there with nothing in it. *)
Definition freshDir (m : FileSystem) (d : Path) : Prop :=
  emptied m d ∧ ∀ data, lookupNode m d ≠ Some (File data).

(** The file system after the loop has written the certificates of
    [names], one after the other, into the certificates directory. *)
Definition withCertificates (v : variant) (st : Style) (template : Image)
    (m : FileSystem) (names : list jsstring) : FileSystem :=
  foldl (λ m name,
           <[certificatesDir ++ [certificateFile name] :=
               File (Png (drawCertificate v st template (normalizeName name)))]> m)
        m names.

(** The entries are, without repetition, the certificate files of the
    names. *)
Definition oneEntryPerName (names : list jsstring)
    (entries : list (jsstring * content)) : Prop :=
  NoDup (entries.*1) ∧
  ∀ file, file ∈ entries.*1 ↔ ∃ name, name ∈ names ∧ file = certificateFile name.

(** The archive a response delivered. *)
Definition archiveOf (r : Response) : option (list (jsstring * content)) :=
  match sent r with
  | Some (SentFile _ (Zip entries)) => Some entries
  | _ => None
  end.

(** The lines of a participants file that the handler keeps. *)
Definition participantNamesOf (text : jsstring) : list jsstring :=
  filterBoolean (split NEWLINE text).

Definition nullish (v : json) : bool :=
  match v with
  | JNull | JUndefined => true
  | _ => false
  end.

Definition catalogueUrl (apiKey : option jsstring) : jsstring :=
  js "https://www.googleapis.com/webfonts/v1/webfonts?key="
  ++ default (js "undefined") apiKey.

Definition fontsFailure : Response :=
  {| statusCode := 500; headersSent := true;
     sent := Some (errorBody "Failed to fetch fonts.");
     statusLine := Some 500%Z |}.

(** The properties [fields] give [v] for [key]: [v] stands with the last
    occurrence of the key. *)
Inductive lastBinding (key : jsstring)
  : list (jsstring * json) → json → Prop :=
  | lastBinding_here v rest :
      key ∉ rest.*1 → lastBinding key ((key, v) :: rest) v
  | lastBinding_later kv rest v :
      lastBinding key rest v → lastBinding key (kv :: rest) v.

(** Reading [item[key]] gives [v]: the value an object has for the key, and
    undefined where there is no such key or the item is no object.  Null and
    undefined cannot be read. *)
Definition reads (item : json) (key : string) (v : json) : Prop :=
  match item with
  | JNull | JUndefined => False
  | JObject fields =>
      lastBinding (js key) fields v ∨ ((js key ∉ fields.*1) ∧ v = JUndefined)
  | _ => v = JUndefined
  end.

(** What the reply holds under [key] for a value read from an item: nothing
    for undefined. *)
Definition written (key : string) (v : json) : list (jsstring * json) :=
  match v with
  | JUndefined => []
  | _ => [(js key, serialized v)]
  end.

(** An element of the reply against the item it was made from. *)
Definition reshaped (item element : json) : Prop :=
  ∃ family variants,
    reads item "family" family ∧ reads item "variants" variants ∧
    element = JObject (written "family" family ++ written "variants" variants).

(** Reading a property of a value that is neither null nor undefined, as
    a function. *)
Definition propOf (v : json) (key : string) : json :=
  match v with
  | JObject fields => default JUndefined (lookupField (js key) fields)
  | _ => JUndefined
  end.

(** The element of the reply made from an item, as a function. *)
Definition fontElement (item : json) : json :=
  JObject (written "family" (propOf item "family")
           ++ written "variants" (propOf item "variants")).

(** The item list of a catalogue answer that can be reshaped, as a
    function: the answer is an object whose [items] is an array without
    null or undefined. *)
Definition catalogueItems (data : json) : option (list json) :=
  match data with
  | JObject fields =>
      match lookupField (js "items") fields with
      | Some (JArray items) =>
          if forallb (λ item, negb (nullish item)) items then Some items
          else None
      | _ => None
      end
  | _ => None
  end.

(** The answer of the catalogue is an object whose [items] is the array of
    [items]. *)
Definition itemList (data : json) (items : list json) : Prop :=
  ∃ fields, data = JObject fields ∧
            lastBinding (js "items") fields (JArray items).

(** A value as [JSON.parse] gives it for a text that repeats no key and
    writes no number beyond the doubles. *)
Fixpoint plainJson (v : json) : bool :=
  match v with
  | JUndefined | JInfinity _ => false
  | JArray items => forallb plainJson items
  | JObject fields =>
      bool_decide (NoDup fields.*1)
      && forallb (λ kv : jsstring * json, plainJson kv.2) fields
  | _ => true
  end.

(** A computation that leaves the response as it found it. *)
Definition keepsResponse {A} (m : M A) : Prop :=
  ∀ w r w', m w = (r, w') → res w' = res w.

(** A computation that, when it answers [true], has left the response as
    it found it. *)
Definition keepsResponseIfTrue (m : M bool) : Prop :=
  ∀ w w', m w = (Ok true, w') → res w' = res w.

(** The fonts directory can be listed, or is not there. *)
Definition fontsDirOk (m : FileSystem) : Prop :=
  ∀ data, lookupNode m (path_join dirname (js "fonts")) ≠ Some (File data).

(** The server's directory and the directories above it are directories. *)
Definition serverDirOk (m : FileSystem) : Prop :=
  hasNul dirname = false ∧
  ∀ p, p `prefix_of` dirname → lookupNode m p = Some Dir.

(** The horizontal centre used by the second variant. *)
Definition centred (template : Image) (textWidth : Q) : jsval :=
  VNum ((inject_Z (width template) - textWidth) / 2).

(** Where the text of a certificate was drawn: the coordinates given to
    [fillText]. *)
Definition drawnAt (c : Canvas) : option (jsval * jsval) :=
  match last (ops c) with
  | Some (FillText _ x y) => Some (x, y)
  | _ => None
  end.

(** What [parseInt] can give: NaN, an infinity or an integer. *)
Definition parsed (v : jsval) : Prop :=
  v = VNaN ∨ (∃ negative, v = VInf negative) ∨ ∃ z, v = VNum (inject_Z z).

(** The fallbacks the specification names for a position that is not a
    number: zero, or the horizontal centre. *)
Definition zeroOrCentred (template : Image) (textWidth : Q) (x : jsval)
  : Prop :=
  (∃ q, x = VNum q ∧ (q == 0)%Q) ∨ x = centred template textWidth.

End Properties.

(** ** A sample platform and sample requests

    Used for the worked examples only: upper-casing as Unicode has it below
    U+0100, ten pixels per code unit of text, and a server living in
    [/srv/app]. *)

Definition sampleRuntime : Runtime :=
  {| toUpperCase := toUpperCaseLatin1;
     measureTextWidth := λ font text, inject_Z (10 * Z.of_nat (length text));
     binaryText := λ _, [];
     dirname := [js "srv"; js "app"] |}.

Definition sampleTemplate : Image :=
  {| width := 800; height := 600; pixels := [] |}.

Definition sampleUploads : Path := [js "srv"; js "app"; js "uploads"].

(** The server's directory with the two uploads in place; the participants
    file holds [participants]. *)
Definition sampleFs (participants : jsstring) : FileSystem :=
  list_to_map
    [ ([js "srv"], Dir);
      ([js "srv"; js "app"], Dir);
      (sampleUploads, Dir);
      (sampleUploads ++ [js "t1"], File (Raw [] (Some sampleTemplate)));
      (sampleUploads ++ [js "p1"], File (Raw participants None)) ].

Definition sampleRequest : Request :=
  {| files_template := Some (sampleUploads ++ [js "t1"]);
     files_participants := Some (sampleUploads ++ [js "p1"]);
     body_fontFamily := None; body_fontSize := None; body_fontColor := None;
     body_xPosition := None; body_yPosition := None |}.

(** The same request with the position fields set. *)
Definition sampleRequestAt (x y : option jsstring) : Request :=
  {| files_template := files_template sampleRequest;
     files_participants := files_participants sampleRequest;
     body_fontFamily := None; body_fontSize := None; body_fontColor := None;
     body_xPosition := x; body_yPosition := y |}.

(** A request that came without its template. *)
Definition sampleRequestNoTemplate : Request :=
  {| files_template := None;
     files_participants := files_participants sampleRequest;
     body_fontFamily := None; body_fontSize := None; body_fontColor := None;
     body_xPosition := None; body_yPosition := None |}.

(** A later request to the same server, whose participants file is stored
    as [p2]. *)
Definition sampleSecondRequest : Request :=
  {| files_template := files_template sampleRequest;
     files_participants := Some (sampleUploads ++ [js "p2"]);
     body_fontFamily := None; body_fontSize := None; body_fontColor := None;
     body_xPosition := None; body_yPosition := None |}.

(** The sample file system after an earlier request left [Old.png] in the
    certificates directory. *)
Definition sampleStaleFs (participants : jsstring) : FileSystem :=
  <[[js "srv"; js "app"; js "certificates"; js "Old.png"] :=
      File (Raw (js "old") None)]>
    (<[[js "srv"; js "app"; js "certificates"] := Dir]>
       (sampleFs participants)).

(** Lines of a participants file, each ended by a newline. *)
Definition lines (l : list string) : jsstring :=
  flat_map (λ s, js s ++ [NEWLINE]) l.

(** ** Further properties, as definitions *)

Section FurtherProperties.
Context {rt : Runtime}.

(** The files [loadAndRegisterFonts] takes for fonts. *)
Definition isFontFile (file : jsstring) : bool :=
  endsWith file (js ".ttf") || endsWith file (js ".otf").

(** The registrations made for a listing of the fonts directory. *)
Definition fontRegistrations (fontsDir : Path) (files : list jsstring)
  : list (Path * jsstring) :=
  map (λ file, (path_join fontsDir file, fontFamilyOf file))
      (filter (λ file, isFontFile file = true) files).

(** The three replies of the handler that are not a download. *)
Definition reply400 (message : string) : Response :=
  {| statusCode := 400; headersSent := true;
     sent := Some (errorBody message);
     statusLine := Some 400%Z |}.

Definition generationFailure : Response :=
  {| statusCode := 500; headersSent := true;
     sent := Some (SentText
                     (js "An error occurred while generating certificates."));
     statusLine := Some 500%Z |}.

Definition downloadFailure : Response :=
  {| statusCode := 500; headersSent := true;
     sent := Some (SentText
                     (js "An error occurred while downloading the ZIP file."));
     statusLine := Some 500%Z |}.

(** A computation that leaves the file system as it found it. *)
Definition keepsFs {A} (m : M A) : Prop :=
  ∀ w r w', m w = (r, w') → fs w' = fs w.

(** A computation that leaves what is stored at [q] as it found it. *)
Definition keepsPath {A} (q : Path) (m : M A) : Prop :=
  ∀ w r w', m w = (r, w') → fs w' !! q = fs w !! q.

(** A path outside the three places the cleanup works on. *)
Definition outsideWorkingFiles (q : Path) : Prop :=
  ¬ uploadsDir `prefix_of` q ∧
  ¬ certificatesDir `prefix_of` q ∧
  ¬ zipPath `prefix_of` q.

(** What the [try] block leaves behind, by the way it ends: on [true] the
    response is untouched and the archive path holds the new archive (or a
    directory that was in its place); on [false] a 400 was sent and nothing
    was written; on an exception the response is untouched and so is the
    archive path. *)
Definition bodyOutcome (w : World) (r : result bool) (w' : World) : Prop :=
  match r with
  | Ok true =>
      res w' = res w ∧
      (lookupNode (fs w') zipPath = Some Dir ∨
       ∃ zip, lookupNode (fs w') zipPath = Some (File (Zip zip)))
  | Ok false => (∃ message, res w' = reply400 message) ∧ fs w' = fs w
  | Throw _ => res w' = res w ∧ fs w' !! zipPath = fs w !! zipPath
  end.

(** The certificates directory is there and holds only files, under names
    that are plain path segments without a backslash. *)
Definition holdsOnlyFiles (m : FileSystem) (d : Path) : Prop :=
  lookupNode m d = Some Dir ∧
  ∀ f, is_Some (m !! (d ++ [f])) →
       plainSegment f ∧ (BACKSLASH ∉ f) ∧
       ∃ data, m !! (d ++ [f]) = Some (File data).

(** One entry of the catalogue reply: an object with the two keys [family]
    and [variants], in this order, and no other. *)
Definition isFontPair (reply : json) : Prop :=
  ∃ family variants,
    reply = JObject [(js "family", family); (js "variants", variants)].

End FurtherProperties.

(** * Proofs *)

(** ** Strings *)

Lemma split_nonempty sep s : split sep s ≠ [].
Proof. destruct s as [|c r]; simpl; [done|]. by repeat case_match. Qed.

Lemma join_cons_app sep x w ws :
  join sep ((x ++ w) :: ws) = x ++ join sep (w :: ws).
Proof. destruct ws; simpl; [done|]. by rewrite <- app_assoc. Qed.

Lemma trimEnd_idemp s : trimEnd (trimEnd s) = trimEnd s.
Proof.
  induction s as [|c r IH]; simpl; [done|].
  destruct (trimEnd r) as [|d r'] eqn:E.
  - destruct (isWhiteSpace c) eqn:W; simpl; [done|]. by rewrite W.
  - simpl in *. rewrite IH. done.
Qed.

Lemma trimEnd_app_nonempty p s :
  trimEnd s ≠ [] → trimEnd (p ++ s) = p ++ trimEnd s.
Proof.
  intros H. induction p as [|c p IH]; simpl; [done|].
  rewrite IH. destruct (p ++ trimEnd s) eqn:E; [|done].
  apply app_eq_nil in E as [_ ?]. done.
Qed.

Lemma trimEnd_clean s :
  Forall (λ c, isWhiteSpace c = false) s → trimEnd s = s.
Proof.
  induction 1 as [|c r Hc _ IH]; simpl; [done|].
  rewrite IH, Hc. by destruct r.
Qed.

Lemma trimEnd_head c r :
  isWhiteSpace c = false → ∃ r', trimEnd (c :: r) = c :: r'.
Proof. intros Hc. simpl. rewrite Hc. destruct (trimEnd r); eauto. Qed.

Lemma trimStart_head s :
  match trimStart s with
  | [] => True
  | c :: _ => isWhiteSpace c = false
  end.
Proof.
  induction s as [|c r IH]; simpl; [done|].
  destruct (isWhiteSpace c) eqn:W; [done|]. by rewrite W.
Qed.

Lemma trim_isTrimmed s : isTrimmed (trim s).
Proof.
  unfold trim, isTrimmed. split; [|apply trimEnd_idemp].
  pose proof (trimStart_head s) as H.
  destruct (trimStart s) as [|c r]; [done|].
  destruct (trimEnd_head c r H) as [r' ->]. done.
Qed.

Lemma isTrimmed_trim s : isTrimmed s → trim s = s.
Proof.
  intros [H1 H2]. unfold trim. destruct s as [|c r]; [done|].
  simpl trimStart. rewrite H1. done.
Qed.

Section Normalization.
Context {rt : Runtime}.

(** What the proofs use of [toUpperCase]: the empty string stays empty; a
    code unit never maps to the empty string; the first unit of an upper
    case is its own upper case; upper-casing brings in no white space.
    Unicode's case mappings have all four properties on every code unit
    (a lone surrogate is its own upper case). *)
Hypothesis upper_empty : toUpperCase [] = [].
Hypothesis upper_nonempty : ∀ c, toUpperCase [c] ≠ [].
Hypothesis upper_first : ∀ c u r, toUpperCase [c] = u :: r → toUpperCase [u] = [u].
Hypothesis upper_space : ∀ c x,
  x ∈ toUpperCase [c] → isWhiteSpace x = true → x = c.

Lemma capitalize_nil : capitalize [] = [].
Proof using upper_empty. unfold capitalize, charAt, slice. simpl. by rewrite upper_empty. Qed.

Lemma capitalize_cons c w : capitalize (c :: w) = toUpperCase [c] ++ w.
Proof. reflexivity. Qed.

Lemma join_capitalize_scan (b : bool) (s : jsstring) :
  join SPACE
    match split SPACE s with
    | w :: ws => (if b then capitalize w else w) :: map capitalize ws
    | [] => []
    end
  = titleScan b s.
Proof using upper_empty.
  revert b. induction s as [|c r IH]; intros b.
  - simpl. destruct b; [|done]. by rewrite capitalize_nil.
  - simpl. destruct (N.eqb_spec c SPACE) as [->|Hc].
    + replace (if b then capitalize [] else []) with (@nil N)
        by (destruct b; [by rewrite capitalize_nil|done]).
      specialize (IH true). rewrite andb_false_r.
      destruct (split SPACE r) as [|w ws] eqn:E; [by apply split_nonempty in E|].
      simpl in *. by rewrite IH.
    + specialize (IH false). rewrite andb_true_r.
      destruct (split SPACE r) as [|w ws] eqn:E; [by apply split_nonempty in E|].
      simpl map. rewrite <- IH.
      destruct b.
      * rewrite capitalize_cons. apply join_cons_app.
      * apply (join_cons_app SPACE [c]).
Qed.

Lemma normalizeName_scan (s : jsstring) :
  normalizeName s = titleScan true (trim s).
Proof using upper_empty.
  unfold normalizeName. rewrite <- (join_capitalize_scan true).
  destruct (split SPACE (trim s)) eqn:E; [by apply split_nonempty in E|done].
Qed.

Lemma upper_no_space c : c ≠ SPACE → SPACE ∉ toUpperCase [c].
Proof using upper_space.
  intros Hc Hin. apply Hc. symmetry. by apply upper_space.
Qed.

Lemma upper_clean c :
  isWhiteSpace c = false →
  Forall (λ x, isWhiteSpace x = false) (toUpperCase [c]).
Proof using upper_space.
  intros Hc. apply Forall_forall. intros x Hx.
  destruct (isWhiteSpace x) eqn:W; [|done].
  pose proof (upper_space c x Hx W) as ->. congruence.
Qed.

Lemma titleScan_nonempty b s : s ≠ [] → titleScan b s ≠ [].
Proof using upper_nonempty.
  destruct s as [|c r]; [done|]. intros _. simpl.
  destruct (b && negb (c =? SPACE)%N).
  - pose proof (upper_nonempty c). by destruct (toUpperCase [c]).
  - done.
Qed.

Lemma titleScan_after_word p s :
  SPACE ∉ p → titleScan false (p ++ s) = p ++ titleScan false s.
Proof.
  induction p as [|c p IH]; intros Hp; [done|].
  apply not_elem_of_cons in Hp as [Hc Hp]. simpl.
  destruct (N.eqb_spec c SPACE); [done|]. by rewrite IH.
Qed.

Lemma titleScan_idemp b s : titleScan b (titleScan b s) = titleScan b s.
Proof using upper_first upper_nonempty upper_space.
  revert b. induction s as [|c r IH]; intros b; [done|].
  simpl. destruct (N.eqb_spec c SPACE) as [->|Hc].
  - rewrite andb_false_r. simpl. rewrite andb_false_r. by rewrite IH.
  - rewrite andb_true_r. destruct b.
    + pose proof (upper_no_space c Hc) as Hsp.
      destruct (toUpperCase [c]) as [|u p] eqn:E; [by apply upper_nonempty in E|].
      apply not_elem_of_cons in Hsp as [Hu Hp].
      simpl. destruct (N.eqb_spec u SPACE); [done|]. simpl.
      rewrite (upper_first c u p E), titleScan_after_word by done.
      by rewrite IH.
    + simpl. destruct (N.eqb_spec c SPACE); [done|]. by rewrite IH.
Qed.

Lemma titleScan_trimEnd b s :
  trimEnd s = s → trimEnd (titleScan b s) = titleScan b s.
Proof using upper_nonempty upper_space.
  revert b. induction s as [|c r IH]; intros b Hs; [done|].
  simpl in Hs. simpl titleScan.
  destruct (trimEnd r) as [|d r'] eqn:E.
  - destruct (isWhiteSpace c) eqn:W; [done|].
    assert (r = []) as -> by congruence.
    simpl. rewrite app_nil_r. apply trimEnd_clean.
    destruct (b && negb (c =? SPACE)%N); [by apply upper_clean|].
    by apply Forall_singleton.
  - assert (d :: r' = r) as Hr by congruence.
    rewrite trimEnd_app_nonempty.
    + f_equal. by apply IH.
    + rewrite IH by done. apply titleScan_nonempty. by rewrite <- Hr.
Qed.

Lemma titleScan_isTrimmed s : isTrimmed s → isTrimmed (titleScan true s).
Proof using upper_nonempty upper_space.
  intros [Hhead Hend]. split; [|by apply titleScan_trimEnd].
  destruct s as [|c r]; [done|]. simpl.
  destruct (N.eqb_spec c SPACE) as [->|Hc]; [done|]. simpl.
  pose proof (upper_clean c Hhead) as Hup.
  destruct (toUpperCase [c]) as [|u p] eqn:E; [by apply upper_nonempty in E|].
  simpl. by apply Forall_cons in Hup as [? _].
Qed.

Lemma normalizeName_trimmed s : trim (normalizeName s) = normalizeName s.
Proof using upper_empty upper_nonempty upper_space.
  rewrite normalizeName_scan. apply isTrimmed_trim, titleScan_isTrimmed, trim_isTrimmed.
Qed.

(** C2, as the code has it.  Normalizing a line trims it, splits it on
    single spaces, upper-cases the first code unit of each word and joins
    the words with single spaces again.  The result is the trimmed line in
    which each unit that starts a word is replaced by its upper case: every
    space is kept where it was, so runs of spaces do not collapse. *)
Theorem normalization_keeps_spaces (line : jsstring) :
  normalizeName line = titleScan true (trim line).
Proof using upper_empty. apply normalizeName_scan. Qed.

(** C3.  Name normalization is idempotent: normalizing a normalized name
    gives the same string. *)
Theorem normalization_idempotent (s : jsstring) :
  normalizeName (normalizeName s) = normalizeName s.
Proof using upper_empty upper_first upper_nonempty upper_space.
  rewrite (normalizeName_scan (normalizeName s)), normalizeName_trimmed.
  rewrite normalizeName_scan. apply titleScan_idemp.
Qed.

End Normalization.

(** ** The sample platform obeys the laws of upper-casing *)

Ltac unbool :=
  repeat match goal with
  | H : _ && _ = true |- _ => apply andb_true_iff in H as [? ?]
  | H : _ && _ = false |- _ => apply andb_false_iff in H as [?|?]
  | H : _ || _ = true |- _ => apply orb_true_iff in H as [?|?]
  | H : _ || _ = false |- _ => apply orb_false_iff in H as [? ?]
  | H : negb _ = true |- _ => apply negb_true_iff in H
  | H : negb _ = false |- _ => apply negb_false_iff in H
  | H : (_ <=? _)%N = true |- _ => apply N.leb_le in H
  | H : (_ <=? _)%N = false |- _ => apply N.leb_gt in H
  | H : (_ =? _)%N = true |- _ => apply N.eqb_eq in H
  | H : (_ =? _)%N = false |- _ => apply N.eqb_neq in H
  end.

Lemma upperLatin1_cases c :
  upperLatin1 c = [c] ∨
  (upperLatin1 c = [c - 32]%N ∧ (97 ≤ c ≤ 122 ∨ 224 ≤ c ≤ 254)%N) ∨
  (c = 181%N ∧ upperLatin1 c = [924%N]) ∨
  (c = 223%N ∧ upperLatin1 c = [83%N; 83%N]) ∨
  (c = 255%N ∧ upperLatin1 c = [376%N]).
Proof.
  unfold upperLatin1. repeat case_match; unbool; subst; auto 10 with lia.
Qed.

Lemma upperLatin1_fixed u :
  (u < 97 ∨ 122 < u)%N → u ≠ 181%N → u ≠ 223%N → (u < 224 ∨ 254 < u)%N →
  u ≠ 255%N → upperLatin1 u = [u].
Proof.
  intros. unfold upperLatin1. repeat case_match; unbool; subst; done || lia.
Qed.

Lemma isWhiteSpace_cases x :
  isWhiteSpace x = true →
  (9 ≤ x ≤ 13 ∨ x = 32 ∨ x = 160 ∨ x = 5760 ∨ 8192 ≤ x ≤ 8202 ∨ 8232 ≤ x ≤ 8233
   ∨ x = 8239 ∨ x = 8287 ∨ x = 12288 ∨ x = 65279)%N.
Proof. unfold isWhiteSpace. intros H. unbool; lia. Qed.

Lemma latin1_empty : toUpperCaseLatin1 [] = [].
Proof. reflexivity. Qed.

Lemma latin1_unit c : toUpperCaseLatin1 [c] = upperLatin1 c.
Proof. unfold toUpperCaseLatin1. simpl. apply app_nil_r. Qed.

Lemma latin1_nonempty c : toUpperCaseLatin1 [c] ≠ [].
Proof.
  rewrite latin1_unit.
  destruct (upperLatin1_cases c) as [H|[[H _]|[[_ H]|[[_ H]|[_ H]]]]];
    by rewrite H.
Qed.

Lemma latin1_first c u r :
  toUpperCaseLatin1 [c] = u :: r → toUpperCaseLatin1 [u] = [u].
Proof.
  rewrite !latin1_unit. intros E.
  destruct (upperLatin1_cases c) as [H|[[H ?]|[[_ H]|[[_ H]|[_ H]]]]];
    rewrite H in E; simplify_eq; try (apply upperLatin1_fixed; lia).
  done.
Qed.

Lemma latin1_space c x :
  x ∈ toUpperCaseLatin1 [c] → isWhiteSpace x = true → x = c.
Proof.
  rewrite latin1_unit. intros Hx W. apply isWhiteSpace_cases in W.
  destruct (upperLatin1_cases c) as [H|[[H ?]|[[_ H]|[[_ H]|[_ H]]]]];
    rewrite H in Hx;
    repeat (apply elem_of_cons in Hx as [->|Hx]);
    try (by apply elem_of_nil in Hx); lia.
Qed.

(** ** Normalization on examples *)

Example normalize_alice :
  normalizeName (rt := sampleRuntime) (js "  alice smith ") = js "Alice Smith".
Proof. reflexivity. Qed.

Example normalize_sharp_s :
  normalizeName (rt := sampleRuntime) [223; 97]%N = js "SSa".
Proof. reflexivity. Qed.

Example normalize_double_space :
  normalizeName (rt := sampleRuntime) (js "ann  lee") = js "Ann  Lee".
Proof. reflexivity. Qed.

(** C2, as the specification has it, fails: the two spaces of [ann  lee]
    are both kept, and the line does not normalize to what [ann lee]
    normalizes to. *)
Lemma double_space_not_collapsed :
  normalizeName (rt := sampleRuntime) (js "ann  lee")
  ≠ normalizeName (rt := sampleRuntime) (js "ann lee").
Proof. vm_compute. discriminate. Qed.

Lemma normalization_keeps_spaces_witness :
  toUpperCase (Runtime := sampleRuntime) [] = [] ∧
  normalizeName (rt := sampleRuntime) (js " ann  lee ")
  = titleScan (rt := sampleRuntime) true (trim (js " ann  lee ")).
Proof.
  split; [reflexivity|].
  apply (normalization_keeps_spaces (rt := sampleRuntime)). reflexivity.
Defined.

Lemma normalization_idempotent_witness :
  normalizeName (rt := sampleRuntime)
    (normalizeName (rt := sampleRuntime) (js " ann  lee "))
  = normalizeName (rt := sampleRuntime) (js " ann  lee ").
Proof.
  apply (normalization_idempotent (rt := sampleRuntime)).
  - reflexivity.
  - apply latin1_nonempty.
  - apply latin1_first.
  - apply latin1_space.
Defined.

(** ** Doubles *)


Lemma nearestDouble_small n : (n < 2 ^ 53)%Z → nearestDouble n = n.
Proof.
  intros H. unfold nearestDouble. by rewrite (proj2 (Z.ltb_lt _ _) H).
Qed.

(** Above 2^53: the result is a multiple of the unit 2^e that is at most
    half a unit away from [n], and from 2^52 to 2^53 units long. *)
Lemma nearestDouble_large n :
  (2 ^ 53 ≤ n)%Z →
  let e := (Z.log2 n - 52)%Z in
  (1 ≤ e)%Z ∧
  ∃ k, nearestDouble n = (k * 2 ^ e)%Z ∧ (2 ^ 52 ≤ k ≤ 2 ^ 53)%Z ∧
       (2 * Z.abs (nearestDouble n - n) ≤ 2 ^ e)%Z.
Proof.
  intros Hn e.
  assert (0 < n)%Z as Hpos.
  { eapply Z.lt_le_trans; [|exact Hn]. by vm_compute. }
  assert (53 ≤ Z.log2 n)%Z as Hlog.
  { rewrite <- (Z.log2_pow2 53) by lia. by apply Z.log2_le_mono. }
  assert (1 ≤ e)%Z as He by (unfold e; lia).
  split; [done|].
  destruct (Z.log2_spec n Hpos) as [Hlo Hhi].
  assert (0 < 2 ^ e)%Z as Hunit by (apply Z.pow_pos_nonneg; lia).
  assert (2 ^ e = 2 * 2 ^ (e - 1))%Z as Hhalf.
  { replace e with (1 + (e - 1))%Z at 1 by lia.
    rewrite Z.pow_add_r by lia. done. }
  assert (2 ^ Z.log2 n = 2 ^ 52 * 2 ^ e)%Z as Hsplit.
  { rewrite <- Z.pow_add_r by lia. f_equal. unfold e. lia. }
  assert (2 ^ Z.succ (Z.log2 n) = 2 ^ 53 * 2 ^ e)%Z as Hsplit'.
  { rewrite <- Z.pow_add_r by lia. f_equal. unfold e. lia. }
  pose proof (Z.div_mod n (2 ^ e) ltac:(lia)) as Hdiv.
  pose proof (Z.mod_pos_bound n (2 ^ e) Hunit) as Hmod.
  set (q := (n / 2 ^ e)%Z) in *. set (r := (n mod 2 ^ e)%Z) in *.
  assert (2 ^ 52 ≤ q)%Z as Hq1.
  { apply Z.div_le_lower_bound; [done|]. rewrite Z.mul_comm, <- Hsplit. done. }
  assert (q < 2 ^ 53)%Z as Hq2.
  { apply Z.div_lt_upper_bound; [done|]. rewrite Z.mul_comm, <- Hsplit'. done. }
  unfold nearestDouble. rewrite (proj2 (Z.ltb_ge _ _) Hn).
  fold e. fold q. fold r.
  set (u := (2 ^ e)%Z) in *. set (h := (2 ^ (e - 1))%Z) in *.
  assert (2 ^ 52 = 4503599627370496)%Z as E52 by reflexivity.
  assert (2 ^ 53 = 9007199254740992)%Z as E53 by reflexivity.
  rewrite E52, E53 in *.
  destruct (Z.ltb_spec r h).
  { exists q. split; [done|]. split; [lia|]. nia. }
  destruct (Z.ltb_spec h r).
  { exists (q + 1)%Z. split; [done|]. split; [lia|]. nia. }
  destruct (Z.even q).
  { exists q. split; [done|]. split; [lia|]. nia. }
  { exists (q + 1)%Z. split; [done|]. split; [lia|]. nia. }
Qed.

Lemma nearestDouble_pos n : (0 < n)%Z → (0 < nearestDouble n)%Z.
Proof.
  intros Hn. destruct (Z.lt_ge_cases n (2 ^ 53)) as [H|H].
  - by rewrite nearestDouble_small.
  - destruct (nearestDouble_large n H) as (He & k & -> & [Hk _] & _).
    apply Z.mul_pos_pos; [|apply Z.pow_pos_nonneg; lia].
    eapply Z.lt_le_trans; [|exact Hk]. by vm_compute.
Qed.

Lemma numberFor_parsed z : parsed (numberFor z).
Proof.
  unfold numberFor, parsed. destruct (_ <=? _)%Z; eauto.
Qed.

Lemma numberFor_small z :
  (Z.abs z < 2 ^ 53)%Z → numberFor z = VNum (inject_Z z).
Proof.
  intros H. unfold numberFor. rewrite nearestDouble_small by done.
  rewrite (proj2 (Z.leb_gt _ _)).
  - by rewrite Z.mul_comm, Z.abs_sgn.
  - eapply Z.lt_trans; [exact H|]. by vm_compute.
Qed.

Lemma numberFor_overflow z :
  (2 ^ 1024 ≤ Z.abs z)%Z → numberFor z = VInf (z <? 0)%Z.
Proof.
  intros H. unfold numberFor.
  assert (2 ^ 53 ≤ Z.abs z)%Z as Hbig.
  { etrans; [|exact H]. by vm_compute. }
  destruct (nearestDouble_large _ Hbig) as (He & k & E & [Hk _] & _).
  rewrite (proj2 (Z.leb_le _ _)); [done|].
  rewrite E.
  assert (1024 ≤ Z.log2 (Z.abs z))%Z as Hlog.
  { rewrite <- (Z.log2_pow2 1024) by lia. by apply Z.log2_le_mono. }
  transitivity (2 ^ 52 * 2 ^ (Z.log2 (Z.abs z) - 52))%Z.
  - rewrite <- Z.pow_add_r by lia. apply Z.pow_le_mono_r; lia.
  - apply Z.mul_le_mono_nonneg_r; [|done]. apply Z.pow_nonneg. lia.
Qed.

Lemma numberFor_truthy z : z ≠ 0%Z → truthy (numberFor z) = true.
Proof.
  intros Hz. unfold numberFor. destruct (_ <=? _)%Z; [done|].
  simpl. apply negb_true_iff.
  destruct (Qeq_bool _ 0) eqn:E; [|done].
  apply Qeq_bool_iff in E. unfold Qeq in E. simpl in E.
  pose proof (nearestDouble_pos (Z.abs z) ltac:(lia)). nia.
Qed.

Example numberFor_rounds :
  numberFor 9007199254740993 = VNum 9007199254740992 ∧
  numberFor 9007199254740995 = VNum 9007199254740996 ∧
  numberFor (- 9007199254740993) = VNum (- 9007199254740992) ∧
  numberFor (2 ^ 1024 - 2 ^ 970 - 1) = VNum (inject_Z (2 ^ 1024 - 2 ^ 971)) ∧
  numberFor (2 ^ 1024 - 2 ^ 970) = VInf false ∧
  numberFor (- 10 ^ 400) = VInf true.
Proof. repeat split; vm_compute; reflexivity. Qed.

(** ** Draw positions *)

Lemma parseInt_parsed v : parsed (parseInt v).
Proof.
  destruct v as [|b|q|s]; simpl; [by left|by left|right; right; eauto|].
  unfold parseIntString.
  destruct (match trimStart s with
            | 45%N :: r => ((-1)%Z, r)
            | 43%N :: r => (1%Z, r)
            | _ => (1%Z, trimStart s)
            end) as [sign t].
  destruct (takeDigits t); [by left|apply numberFor_parsed].
Qed.

Lemma truthy_VNum q : truthy (VNum q) = false ↔ (q == 0)%Q.
Proof.
  simpl. rewrite negb_false_iff. apply Qeq_bool_iff.
Qed.

Section Positions.
Context {rt : Runtime}.
Implicit Types (req : Request) (template : Image) (name : jsstring).

Lemma drawnAt_drawCertificate v st template name :
  drawnAt (drawCertificate v st template name)
  = Some (adjustedXPosition v st template (measureTextWidth (fontOf st) name),
          adjustedYPosition v st).
Proof. reflexivity. Qed.

(** C7, as the code has it.  Both positions go through [parseInt] with
    radix 10, which gives NaN, an infinity or an integer.  An integer other
    than zero and an infinity are the coordinate in both variants.  A zero
    is the coordinate in the first variant; in the second it is falsy, so X
    is the horizontal centre and Y the raw request value.  For a value that
    is not a number the first variant substitutes nothing and hands NaN to
    [fillText]; the second variant replaces X by the horizontal centre and Y
    by the raw request value.  A field that is absent counts as 0: drawn at
    0, except for X in the second variant, which is centred. *)
Theorem draw_position v req template name :
  let st := styleOf req in
  let textWidth := measureTextWidth (fontOf st) name in
  ∃ x y,
    drawnAt (drawCertificate v st template name) = Some (x, y) ∧
    parsed (parseInt (xPosition st)) ∧
    parsed (parseInt (yPosition st)) ∧
    (∀ q, parseInt (xPosition st) = VNum q → ¬ (q == 0)%Q → x = VNum q) ∧
    (∀ q, parseInt (yPosition st) = VNum q → ¬ (q == 0)%Q → y = VNum q) ∧
    (∀ b, parseInt (xPosition st) = VInf b → x = VInf b) ∧
    (∀ b, parseInt (yPosition st) = VInf b → y = VInf b) ∧
    (∀ q, parseInt (xPosition st) = VNum q → (q == 0)%Q →
       x = match v with V1 => VNum q | V2 => centred template textWidth end) ∧
    (∀ q, parseInt (yPosition st) = VNum q → (q == 0)%Q →
       y = match v with V1 => VNum q | V2 => yPosition st end) ∧
    (parseInt (xPosition st) = VNaN →
       x = match v with V1 => VNaN | V2 => centred template textWidth end) ∧
    (parseInt (yPosition st) = VNaN →
       y = match v with V1 => VNaN | V2 => yPosition st end) ∧
    (body_xPosition req = None →
       x = match v with V1 => VNum 0 | V2 => centred template textWidth end) ∧
    (body_yPosition req = None → y = VNum 0).
Proof.
  intros st textWidth. eexists _, _. split; [apply drawnAt_drawCertificate|].
  split; [apply parseInt_parsed|]. split; [apply parseInt_parsed|].
  unfold adjustedXPosition, adjustedYPosition, jsOr, centred.
  repeat split.
  - intros q Hq Hz. rewrite Hq.
    destruct (truthy (VNum q)) eqn:T; [by destruct v|].
    by apply truthy_VNum in T.
  - intros q Hq Hz. rewrite Hq.
    destruct (truthy (VNum q)) eqn:T; [by destruct v|].
    by apply truthy_VNum in T.
  - intros b ->. by destruct v.
  - intros b ->. by destruct v.
  - intros q Hq Hz. rewrite Hq. apply truthy_VNum in Hz. rewrite Hz.
    by destruct v.
  - intros q Hq Hz. rewrite Hq. apply truthy_VNum in Hz. rewrite Hz.
    by destruct v.
  - intros ->. by destruct v.
  - intros ->. by destruct v.
  - intros Hx. unfold st, styleOf. simpl. rewrite Hx. by destruct v.
  - intros Hy. unfold st, styleOf. simpl. rewrite Hy. by destruct v.
Qed.

(** C8.  In the second variant a position X that parses to zero is falsy,
    so the text is drawn at the horizontal centre
    [(template.width - textWidth) / 2]; and whenever the text is drawn at
    X = 0 the coordinate is that centre, never a position that was asked
    for. *)
Theorem zero_x_is_centred req template name :
  let st := styleOf req in
  let textWidth := measureTextWidth (fontOf st) name in
  (∀ q, parseInt (xPosition st) = VNum q → (q == 0)%Q →
     ∃ y, drawnAt (drawCertificate V2 st template name)
          = Some (centred template textWidth, y)) ∧
  (∀ q y, drawnAt (drawCertificate V2 st template name) = Some (VNum q, y) →
     (q == 0)%Q →
     truthy (parseInt (xPosition st)) = false ∧
     centred template textWidth = VNum q).
Proof.
  intros st textWidth. subst textWidth st.
  generalize (styleOf req). intros st.
  rewrite drawnAt_drawCertificate. split.
  - intros q Hq Hz. unfold adjustedXPosition, jsOr. rewrite Hq.
    apply truthy_VNum in Hz. rewrite Hz. eauto.
  - intros q y Hd Hz.
    injection Hd as Hx _. unfold adjustedXPosition, jsOr in Hx.
    destruct (truthy (parseInt (xPosition st))) eqn:T; [|done].
    rewrite Hx in T. apply truthy_VNum in Hz. congruence.
Qed.

(** C10.  In the second variant a position Y that does not parse as a
    number is not replaced by 0 or by a computed value: the raw string of
    the request is the Y coordinate given to [fillText]. *)
Theorem non_numeric_y_is_passed_raw req template name (s : jsstring) :
  body_yPosition req = Some s →
  parseInt (VStr s) = VNaN →
  ∃ x, drawnAt (drawCertificate V2 (styleOf req) template name)
       = Some (x, VStr s).
Proof.
  intros Hs Hnan. rewrite drawnAt_drawCertificate. eexists. f_equal. f_equal.
  unfold adjustedYPosition, styleOf. simpl. rewrite Hs. simpl.
  change (parseIntString s) with (parseInt (VStr s)). by rewrite Hnan.
Qed.

End Positions.

(** C7, as the specification has it, fails: in the first variant the
    position [abc] is drawn at NaN, which is neither zero nor the centre. *)
Lemma non_numeric_x_not_defaulted :
  let st := styleOf (sampleRequestAt (Some (js "abc")) None) in
  let textWidth := measureTextWidth (Runtime := sampleRuntime) (fontOf st) (js "Ann") in
  parseInt (xPosition st) = VNaN ∧
  ∃ x y,
    drawnAt (drawCertificate (rt := sampleRuntime) V1 st sampleTemplate (js "Ann"))
    = Some (x, y) ∧
    ¬ zeroOrCentred sampleTemplate textWidth x.
Proof.
  split; [reflexivity|]. eexists _, _. split; [reflexivity|].
  intros [(q & [=] & _)|[=]].
Qed.

Lemma draw_position_witness :
  ∃ x y,
    drawnAt (drawCertificate (rt := sampleRuntime) V2
               (styleOf (sampleRequestAt (Some (js "abc")) (Some (js "12"))))
               sampleTemplate (js "Ann"))
    = Some (x, y) ∧
    x = VNum (770 # 2) ∧ y = VNum 12.
Proof.
  destruct (draw_position (rt := sampleRuntime) V2
              (sampleRequestAt (Some (js "abc")) (Some (js "12")))
              sampleTemplate (js "Ann"))
    as (x & y & Hd & _ & _ & _ & Hy & _ & _ & _ & _ & Hx & _).
  exists x, y. split; [exact Hd|]. split.
  - apply Hx. reflexivity.
  - apply (Hy 12%Q); [reflexivity|discriminate].
Defined.

Lemma zero_x_is_centred_witness :
  ∃ y,
    drawnAt (drawCertificate (rt := sampleRuntime) V2
               (styleOf (sampleRequestAt (Some (js "0")) None))
               sampleTemplate (js "Ann"))
    = Some (VNum (770 # 2), y).
Proof.
  apply (proj1 (zero_x_is_centred (rt := sampleRuntime)
                  (sampleRequestAt (Some (js "0")) None)
                  sampleTemplate (js "Ann")) 0%Q); reflexivity.
Defined.

Lemma non_numeric_y_is_passed_raw_witness :
  ∃ x,
    drawnAt (drawCertificate (rt := sampleRuntime) V2
               (styleOf (sampleRequestAt None (Some (js "top"))))
               sampleTemplate (js "Ann"))
    = Some (x, VStr (js "top")).
Proof.
  apply (non_numeric_y_is_passed_raw (rt := sampleRuntime)
           (sampleRequestAt None (Some (js "top"))) sampleTemplate (js "Ann"));
    reflexivity.
Defined.

(** ** The font catalogue *)

Lemma json_induction (P : json → Prop) :
  P JUndefined → P JNull → (∀ b, P (JBool b)) → (∀ q, P (JNumber q)) →
  (∀ b, P (JInfinity b)) → (∀ s, P (JString s)) →
  (∀ items, Forall P items → P (JArray items)) →
  (∀ fields, Forall (λ kv : jsstring * json, P kv.2) fields →
             P (JObject fields)) →
  ∀ v, P v.
Proof.
  intros Hu Hn Hb Hq Hi Hs Ha Ho. fix IH 1.
  intros [| |b|q|b|s|items|fields];
    [exact Hu|exact Hn|apply Hb|apply Hq|apply Hi|apply Hs| |].
  - apply Ha. induction items as [|item items IHitems]; constructor;
      [apply IH|apply IHitems].
  - apply Ho. induction fields as [|[k x] fields IHfields]; constructor;
      [apply IH|apply IHfields].
Qed.

Lemma lookupField_None key fields :
  lookupField key fields = None ↔ key ∉ fields.*1.
Proof.
  induction fields as [|[k x] r IH]; simpl.
  - split; [intros _ H; by apply elem_of_nil in H|done].
  - rewrite not_elem_of_cons, <- IH.
    destruct (lookupField key r); [by split; [|intros [_ ?]]|].
    case_bool_decide; split; try done; intros [? _]; congruence.
Qed.

Lemma lookupField_Some key fields v :
  lookupField key fields = Some v ↔ lastBinding key fields v.
Proof.
  split.
  - revert v. induction fields as [|[k x] r IH]; intros v; simpl; [done|].
    destruct (lookupField key r) as [v'|] eqn:E.
    + intros [= ->]. apply lastBinding_later. by apply IH.
    + case_bool_decide; [|done]. intros [= ->]. subst k.
      apply lastBinding_here. by apply lookupField_None.
  - induction 1 as [v rest Hrest|[k x] rest v _ IH]; simpl.
    + apply lookupField_None in Hrest. rewrite Hrest.
      by rewrite bool_decide_eq_true_2.
    + by rewrite IH.
Qed.

Lemma lastBinding_elem_of key fields v :
  lastBinding key fields v → key ∈ fields.*1.
Proof.
  induction 1 as [v rest _|[k x] rest v _ IH]; rewrite fmap_cons;
    apply elem_of_cons; auto.
Qed.

Lemma reads_propOf item key : nullish item = false → reads item key (propOf item key).
Proof.
  destruct item as [| | | | | | |fields]; try done. intros _. simpl.
  destruct (lookupField (js key) fields) as [v|] eqn:E.
  - left. by apply lookupField_Some.
  - right. by apply lookupField_None in E.
Qed.

Lemma reads_unique item key v : reads item key v → v = propOf item key.
Proof.
  destruct item as [| | | | | | |fields]; try done. simpl.
  intros [H|[H ->]].
  - apply lookupField_Some in H. by rewrite H.
  - apply lookupField_None in H. by rewrite H.
Qed.

Lemma getProp_propOf v key : nullish v = false → getProp v key = Ok (propOf v key).
Proof. by destruct v. Qed.

Lemma isUndefined_serialized v : isUndefined (serialized v) = isUndefined v.
Proof. by destruct v. Qed.

Lemma written_serialized key v :
  written key v
  = if isUndefined (serialized v) then [] else [(js key, serialized v)].
Proof. rewrite isUndefined_serialized. by destruct v. Qed.

Lemma serialized_fontEntry family variants :
  serialized (JObject [(js "family", family); (js "variants", variants)])
  = JObject (written "family" family ++ written "variants" variants).
Proof.
  rewrite !written_serialized. cbn [serialized map].
  generalize (serialized family) (serialized variants). intros a b.
  f_equal. destruct a, b; vm_compute; reflexivity.
Qed.

Lemma fontEntry_run item :
  fontEntry item
  = if nullish item then Throw TypeError
    else Ok (JObject [(js "family", propOf item "family");
                      (js "variants", propOf item "variants")]).
Proof.
  destruct (nullish item) eqn:E.
  - by destruct item.
  - unfold fontEntry. by rewrite !getProp_propOf.
Qed.

Lemma mapM_fontEntry items :
  mapM fontEntry items
  = if forallb (λ item, negb (nullish item)) items
    then Ok (map (λ item, JObject [(js "family", propOf item "family");
                                   (js "variants", propOf item "variants")])
                 items)
    else Throw TypeError.
Proof.
  induction items as [|item items IH]; [done|].
  simpl. rewrite fontEntry_run, IH.
  destruct (nullish item); simpl; [done|].
  by destruct (forallb _ items).
Qed.

Lemma serialized_fontEntries items :
  serialized
    (JArray (map (λ item, JObject [(js "family", propOf item "family");
                                   (js "variants", propOf item "variants")])
                 items))
  = JArray (map fontElement items).
Proof.
  cbn [serialized]. f_equal. rewrite map_map. apply map_ext. intros item.
  rewrite serialized_fontEntry. reflexivity.
Qed.

(** The handler, case by case. *)
Lemma serveFonts_run apiKey axiosGet :
  serveFonts apiKey axiosGet
  = match axiosGet (catalogueUrl apiKey) with
    | Resolved data =>
        match catalogueItems data with
        | Some items =>
            {| statusCode := 200; headersSent := true;
               sent := Some (SentJson (JArray (map fontElement items)));
               statusLine := Some 200%Z |}
        | None => fontsFailure
        end
    | Rejected _ => fontsFailure
    end.
Proof.
  unfold serveFonts, fontsHandler, tryCatch.
  unfold mbind, M_bind. fold (catalogueUrl apiKey).
  destruct (axiosGet (catalogueUrl apiKey)) as [data|reason]; [|done].
  unfold catalogueItems, liftResult. simpl.
  destruct data as [| | | | | |items|fields]; try done.
  simpl. destruct (lookupField (js "items") fields) as [items|]; [|done].
  destruct items as [| | | | | |items|]; try done.
  simpl. rewrite mapM_fontEntry.
  destruct (forallb _ items); [|done].
  change (Ok ?l ≫= λ items', Ok (JArray items')) with (Ok (JArray l)).
  cbv beta iota. unfold sendJson. rewrite serialized_fontEntries. done.
Qed.

Lemma catalogueItems_Some data items :
  catalogueItems data = Some items
  ↔ itemList data items ∧ Forall (λ item, nullish item = false) items.
Proof.
  unfold catalogueItems, itemList. split.
  - destruct data as [| | | | | | |fields]; try done.
    destruct (lookupField (js "items") fields) as [[| | | | | |items'|]|] eqn:E;
      try done.
    destruct (forallb _ items') eqn:F; [|done]. intros [= ->]. split.
    + exists fields. split; [done|]. by apply lookupField_Some.
    + apply Forall_forall. intros item Hitem.
      rewrite forallb_forall in F. apply negb_true_iff, F.
      by apply list_elem_of_In.
  - intros [(fields & -> & Hitems) Hall].
    apply lookupField_Some in Hitems. rewrite Hitems.
    rewrite (proj2 (forallb_forall _ _)); [done|].
    intros item Hitem. apply negb_true_iff.
    by apply (proj1 (Forall_forall _ _) Hall), list_elem_of_In.
Qed.

Lemma reshaped_fontElement item :
  nullish item = false → reshaped item (fontElement item).
Proof.
  intros H. exists (propOf item "family"), (propOf item "variants").
  split; [by apply reads_propOf|]. split; [by apply reads_propOf|done].
Qed.

(** C6, as the code has it.  When the upstream call is rejected, the reply
    is one fixed failure: status 500 and the body
    [{error: 'Failed to fetch fonts.'}], whatever the reason and the
    credential.  When the call resolves with an object whose [items] is an
    array that holds no null and no undefined, the reply goes out with
    status 200 and its body is an array with one element per item, in
    order: an object with the item's [family] and [variants] under these
    keys, a key whose value the item does not define being left out.  When
    the call resolves with anything else, the reply is the same fixed
    failure. *)
Theorem fonts_reply apiKey axiosGet :
  let reply := serveFonts apiKey axiosGet in
  (∀ reason,
     axiosGet (catalogueUrl apiKey) = Rejected reason →
     reply = fontsFailure) ∧
  (∀ data items,
     axiosGet (catalogueUrl apiKey) = Resolved data →
     itemList data items →
     Forall (λ item, nullish item = false) items →
     statusLine reply = Some 200%Z ∧
     ∃ elements,
       sent reply = Some (SentJson (JArray elements)) ∧
       Forall2 reshaped items elements) ∧
  (∀ data,
     axiosGet (catalogueUrl apiKey) = Resolved data →
     (∀ items, itemList data items →
               Exists (λ item, nullish item = true) items) →
     reply = fontsFailure).
Proof.
  intros reply. subst reply. rewrite serveFonts_run. split; [|split].
  - by intros reason ->.
  - intros data items -> Hitems Hall.
    rewrite (proj2 (catalogueItems_Some data items)) by done.
    split; [done|]. eexists. split; [done|].
    apply Forall2_fmap_r, Forall_Forall2_diag.
    eapply Forall_impl; [exact Hall|]. apply reshaped_fontElement.
  - intros data -> Hno.
    destruct (catalogueItems data) as [items|] eqn:E; [|done].
    apply catalogueItems_Some in E as [Hitems Hall].
    apply Hno, Exists_exists in Hitems as (item & Hin & Hnull).
    rewrite (proj1 (Forall_forall _ _) Hall item Hin) in Hnull. done.
Qed.

(** A catalogue answer with two items, the second without variants. *)
Example fonts_two_items :
  serveFonts (Some (js "secret"))
    (λ url, Resolved (JObject
       [(js "kind", JString (js "webfonts#webfontList"));
        (js "items",
         JArray [ JObject [(js "family", JString (js "Lato"));
                           (js "variants", JArray [JString (js "regular")]);
                           (js "version", JString (js "v24"))];
                  JObject [(js "family", JString (js "Roboto"))] ])]))
  = {| statusCode := 200; headersSent := true;
       sent := Some (SentJson (JArray
         [ JObject [(js "family", JString (js "Lato"));
                    (js "variants", JArray [JString (js "regular")])];
           JObject [(js "family", JString (js "Roboto"))] ]));
       statusLine := Some 200%Z |}.
Proof. reflexivity. Qed.

(** C6, as the specification has it, fails: the elements of the reply need
    not be [{family, variants}] pairs.  For an upstream item without
    variants the handler builds an object whose [variants] is undefined,
    and [res.json] leaves that key out: the element that goes out has the
    one key [family]. *)
Lemma missing_variants_are_left_out :
  let reply :=
    serveFonts None
      (λ url, Resolved (JObject
         [(js "items", JArray [JObject [(js "family", JString (js "Lato"))]])]))
  in
  statusLine reply = Some 200%Z ∧
  sent reply
  = Some (SentJson (JArray [JObject [(js "family", JString (js "Lato"))]])) ∧
  ¬ isFontPair (JObject [(js "family", JString (js "Lato"))]).
Proof.
  split; [reflexivity|]. split; [reflexivity|].
  intros (family & variants & [=]).
Qed.

Lemma fonts_reply_witness :
  (let reply :=
     serveFonts (Some (js "secret"))
       (λ url, Resolved (JObject
          [(js "kind", JString (js "webfonts#webfontList"));
           (js "items",
            JArray [ JObject [(js "family", JString (js "Lato"));
                              (js "variants", JArray [JString (js "regular")])];
                     JObject [(js "family", JString (js "Roboto"))] ])]))
   in
   statusLine reply = Some 200%Z ∧
   ∃ elements,
     sent reply = Some (SentJson (JArray elements)) ∧
     Forall2 reshaped
       [ JObject [(js "family", JString (js "Lato"));
                  (js "variants", JArray [JString (js "regular")])];
         JObject [(js "family", JString (js "Roboto"))] ]
       elements) ∧
  serveFonts (Some (js "secret")) (λ url, Rejected (JString url))
  = fontsFailure.
Proof.
  split.
  - apply (proj1 (proj2 (fonts_reply (Some (js "secret")) _)) _ _ eq_refl).
    + eexists. split; [reflexivity|].
      apply lastBinding_later, lastBinding_here. apply not_elem_of_nil.
    + repeat constructor.
  - apply (proj1 (fonts_reply (Some (js "secret"))
                    (λ url, Rejected (JString url))) _ eq_refl).
Defined.

(** ** Running the handler monad *)

Lemma bind_run {A B} (m : M A) (f : A → M B) w :
  (m ≫= f) w
  = match m w with
    | (Ok a, w') => f a w'
    | (Throw e, w') => (Throw e, w')
    end.
Proof. reflexivity. Qed.

Lemma world_eta w : {| fs := fs w; fonts := fonts w; res := res w |} = w.
Proof. by destruct w. Qed.

Lemma keepsResponse_ret {A} (a : A) : keepsResponse (mret a).
Proof. intros w r w' [= _ <-]. done. Qed.

Lemma keepsResponse_throw {A} e : keepsResponse (@throw A e).
Proof. intros w r w' [= _ <-]. done. Qed.

Lemma keepsResponse_bind {A B} (m : M A) (f : A → M B) :
  keepsResponse m → (∀ a, keepsResponse (f a)) → keepsResponse (m ≫= f).
Proof.
  intros Hm Hf w r w'. rewrite bind_run.
  destruct (m w) as [[a|e] w1] eqn:E.
  - intros H. rewrite (Hf _ _ _ _ H). eapply Hm, E.
  - intros [= _ <-]. eapply Hm, E.
Qed.

Lemma keepsResponse_tryCatch {A} (m : M A) h :
  keepsResponse m → (∀ e, keepsResponse (h e)) → keepsResponse (tryCatch m h).
Proof.
  intros Hm Hh w r w'. unfold tryCatch.
  destruct (m w) as [[a|e] w1] eqn:E.
  - intros [= _ <-]. eapply Hm, E.
  - intros H. rewrite (Hh _ _ _ _ H). eapply Hm, E.
Qed.

Lemma keepsResponse_readFs {A} (f : FileSystem → result A) :
  keepsResponse (readFs f).
Proof. intros w r w' [= _ <-]. done. Qed.

Lemma keepsResponse_writeFs f : keepsResponse (writeFs f).
Proof.
  intros w r w'. unfold writeFs.
  destruct (f (fs w)); intros [= _ <-]; done.
Qed.

Lemma keepsResponse_registerFont p family : keepsResponse (registerFont p family).
Proof. intros w r w' [= _ <-]. done. Qed.

Lemma keepsResponse_forEach {A} (f : A → M unit) l :
  (∀ a, keepsResponse (f a)) → keepsResponse (forEach f l).
Proof.
  intros Hf. induction l as [|a l IH]; simpl.
  - apply keepsResponse_ret.
  - apply keepsResponse_bind; auto.
Qed.

Create HintDb keeps discriminated.
#[local] Hint Resolve keepsResponse_ret keepsResponse_throw
  keepsResponse_readFs keepsResponse_writeFs keepsResponse_registerFont : keeps.
#[local] Hint Extern 2 (keepsResponse (_ ≫= _)) =>
  apply keepsResponse_bind; [|intros ?] : keeps.
#[local] Hint Extern 2 (keepsResponse (forEach _ _)) =>
  apply keepsResponse_forEach; intros ? : keeps.
#[local] Hint Extern 2 (keepsResponse (tryCatch _ _)) =>
  apply keepsResponse_tryCatch; [|intros ?] : keeps.
#[local] Hint Extern 3 (keepsResponse (if ?b then _ else _)) =>
  destruct b : keeps.
#[local] Hint Extern 3 (keepsResponse (match ?x with Some _ => _ | None => _ end)) =>
  destruct x : keeps.
#[local] Hint Extern 3 (keepsResponse (match ?v with V1 => _ | V2 => _ end)) =>
  destruct v : keeps.
#[local] Hint Extern 3 (keepsResponse (match ?n with Dir => _ | File _ => _ end)) =>
  destruct n : keeps.
#[local] Hint Unfold existsSync mkdirSync writeFileSync readdirSync removeSync
  emptyDirSync statSync : keeps.

Section Handler.
Context {rt : Runtime}.

Lemma keepsResponse_loadAndRegisterFonts : keepsResponse loadAndRegisterFonts.
Proof. unfold loadAndRegisterFonts. autounfold with keeps. auto 10 with keeps. Qed.

Lemma keepsResponse_loadImage p : keepsResponse (loadImage p).
Proof. unfold loadImage. auto 10 with keeps. Qed.

Lemma keepsResponse_readFileSync p : keepsResponse (readFileSync p).
Proof. unfold readFileSync. auto 10 with keeps. Qed.

Lemma keepsResponse_addLocalFiles files : ∀ zip dir,
  keepsResponse (addLocalFiles zip dir files).
Proof.
  induction files as [|f files IH]; intros zip dir; simpl.
  - auto with keeps.
  - unfold addLocalFile. autounfold with keeps. auto 10 with keeps.
Qed.

Lemma keepsResponse_buildArchive v st template names :
  keepsResponse (buildArchive v st template names).
Proof.
  unfold buildArchive, generateOne, writeZip. autounfold with keeps.
  pose proof keepsResponse_addLocalFiles. auto 15 with keeps.
Qed.

Lemma keepsResponse_cleanup v : keepsResponse (cleanup v).
Proof. unfold cleanup. autounfold with keeps. auto 10 with keeps. Qed.

End Handler.

(** ** The first half of the handler *)

(** Only an empty line is dropped by [filter(Boolean)]: a line of spaces
    stays in the list, and its name normalizes to the empty string. *)
Example line_of_spaces_is_kept :
  participantNamesOf (lines [""; "  "; ""]) = [js "  "] ∧
  certificateFile (rt := sampleRuntime) (js "  ") = js ".png".
Proof. split; reflexivity. Qed.

Example alice_and_bob_are_kept :
  participantNamesOf (lines ["alice smith"; ""; "bob jones"])
  = [js "alice smith"; js "bob jones"].
Proof. reflexivity. Qed.

Section Prelude.
Context {rt : Runtime}.

Lemma registerFonts_run fontsDir files : ∀ w,
  ∃ fonts',
    forEach (λ file,
      if endsWith file (js ".ttf") || endsWith file (js ".otf")
      then registerFont (path_join fontsDir file) (fontFamilyOf file)
      else mret tt) files w
    = (Ok tt, {| fs := fs w; fonts := fonts'; res := res w |}).
Proof.
  induction files as [|file files IH]; intros w; simpl.
  - exists (fonts w). by rewrite world_eta.
  - rewrite bind_run.
    destruct (endsWith file (js ".ttf") || endsWith file (js ".otf")).
    + destruct (IH {| fs := fs w;
                      fonts := fonts w ++ [(path_join fontsDir file,
                                            fontFamilyOf file)];
                      res := res w |}) as [fonts' H].
      by exists fonts'.
    + destruct (IH w) as [fonts' H]. by exists fonts'.
Qed.

Lemma loadAndRegisterFonts_run w :
  fontsDirOk (fs w) →
  ∃ fonts',
    loadAndRegisterFonts w
    = (Ok tt, {| fs := fs w; fonts := fonts'; res := res w |}).
Proof.
  intros Hok. unfold loadAndRegisterFonts. rewrite bind_run.
  unfold existsSync, readFs at 1, fs_existsSync.
  destruct (lookupNode (fs w) (path_join dirname (js "fonts")))
    as [[|data]|] eqn:E; simpl.
  - rewrite bind_run. unfold readdirSync, readFs, fs_readdirSync.
    rewrite E. apply registerFonts_run.
  - by apply Hok in E.
  - exists (fonts w). by rewrite world_eta.
Qed.

Lemma existsSync_run p w :
  existsSync p w = (Ok (fs_existsSync (fs w) p), w).
Proof. reflexivity. Qed.

Lemma generateBody_run v req w tp pp tdata img pdata :
  files_template req = Some tp →
  files_participants req = Some pp →
  lookupNode (fs w) tp = Some (File tdata) →
  imageOf tdata = Some img →
  lookupNode (fs w) pp = Some (File pdata) →
  fontsDirOk (fs w) →
  ∃ fonts',
    generateBody v req w
    = (let names := participantNamesOf (textOf pdata) in
       if bool_decide (length names = 0)
       then reject "The participants list is empty."
       else buildArchive v (styleOf req) img names)
        {| fs := fs w; fonts := fonts'; res := res w |}.
Proof.
  intros Ht Hp Htp Himg Hpp Hfonts.
  destruct (loadAndRegisterFonts_run w Hfonts) as [fonts' Hload].
  exists fonts'. unfold generateBody. rewrite Ht, Hp.
  rewrite bind_run, existsSync_run. unfold fs_existsSync. rewrite Htp. simpl.
  rewrite bind_run, existsSync_run. unfold fs_existsSync. rewrite Hpp. simpl.
  rewrite bind_run, Hload.
  rewrite bind_run. unfold loadImage at 1. rewrite bind_run.
  unfold readFs at 1, fs_readFile. simpl. rewrite Htp, Himg. simpl.
  rewrite bind_run. unfold readFileSync at 1. rewrite bind_run.
  unfold readFs at 1, fs_readFile. simpl. rewrite Hpp. simpl.
  reflexivity.
Qed.


End Prelude.

Lemma sampleFs_fontsDirOk participants :
  fontsDirOk (rt := sampleRuntime) (sampleFs participants).
Proof. intros data. vm_compute. discriminate. Qed.

(** ** Cleanup *)

Lemma absent_removeSync m p : absent (fs_removeSync m p) p.
Proof.
  intros q Hq. unfold fs_removeSync. apply map_lookup_filter_None.
  right. intros x _ Hnot. by apply Hnot.
Qed.

Lemma absent_removeSync_other m p q : absent m q → absent (fs_removeSync m p) q.
Proof.
  intros Hq r Hr. unfold fs_removeSync. apply map_lookup_filter_None.
  left. by apply Hq.
Qed.

Lemma emptied_removeSync_other m p d : emptied m d → emptied (fs_removeSync m p) d.
Proof.
  intros Hd r Hr Hne. unfold fs_removeSync. apply map_lookup_filter_None.
  left. by apply Hd.
Qed.

Lemma emptied_emptyDirSync m d m' :
  fs_emptyDirSync m d = Ok m' → lookupNode m d = Some Dir → emptied m' d.
Proof.
  unfold fs_emptyDirSync. intros H Hd. rewrite Hd in H. injection H as <-.
  intros q Hq Hne. apply map_lookup_filter_None.
  right. intros x _ Hnot. by apply Hnot.
Qed.

Section Cleanup.
Context {rt : Runtime}.

Lemma certificatesDir_eq : certificatesDir = dirname ++ [js "certificates"].
Proof. reflexivity. Qed.

Lemma zipPath_eq : zipPath = dirname ++ [js "certificates.zip"].
Proof. reflexivity. Qed.

Lemma uploadsDir_eq : uploadsDir = dirname ++ [js "uploads"].
Proof. reflexivity. Qed.

Lemma cleanup_run v w :
  (v = V1 → lookupNode (fs w) uploadsDir = Some Dir) →
  ∃ m', cleanup v w = (Ok tt, {| fs := m'; fonts := fonts w; res := res w |}) ∧
        absent m' certificatesDir ∧ absent m' zipPath ∧
        (v = V1 → emptied m' uploadsDir).
Proof.
  intros Hup. unfold cleanup, tryCatch. rewrite !bind_run.
  destruct v.
  - specialize (Hup eq_refl).
    unfold emptyDirSync, writeFs at 1.
    destruct (fs_emptyDirSync (fs w) uploadsDir) as [m1|e] eqn:E.
    + pose proof (emptied_emptyDirSync _ _ _ E Hup) as Hempty.
      eexists. split; [reflexivity|]. simpl. split; [|split].
      * apply absent_removeSync_other, absent_removeSync.
      * apply absent_removeSync.
      * intros _. by do 2 apply emptied_removeSync_other.
    + unfold fs_emptyDirSync in E. by rewrite Hup in E.
  - eexists. split; [reflexivity|]. simpl. split; [|split]; [| |done].
    + apply absent_removeSync_other, absent_removeSync.
    + apply absent_removeSync.
Qed.

Lemma reject_not_true message w w' : reject message w ≠ (Ok true, w').
Proof.
  unfold reject. rewrite !bind_run. unfold status, send. simpl.
  destruct (headersSent (res w)); discriminate.
Qed.

Lemma keepsResponseIfTrue_reject message : keepsResponseIfTrue (reject message).
Proof. intros w w' H. by apply reject_not_true in H. Qed.

Lemma keepsResponseIfTrue_keeps (m : M bool) :
  keepsResponse m → keepsResponseIfTrue m.
Proof. intros H w w' E. eapply H, E. Qed.

Lemma keepsResponseIfTrue_bind {A} (m : M A) (f : A → M bool) :
  keepsResponse m → (∀ a, keepsResponseIfTrue (f a)) →
  keepsResponseIfTrue (m ≫= f).
Proof.
  intros Hm Hf w w'. rewrite bind_run.
  destruct (m w) as [[a|e] w1] eqn:E; [|done].
  intros H. rewrite (Hf _ _ _ H). eapply Hm, E.
Qed.

Lemma keepsResponseIfTrue_generateBody v req :
  keepsResponseIfTrue (generateBody v req).
Proof.
  unfold generateBody.
  destruct (files_template req) as [tp|], (files_participants req) as [pp|];
    try apply keepsResponseIfTrue_reject.
  apply keepsResponseIfTrue_bind; [apply keepsResponse_readFs|].
  intros [|]; simpl; [|apply keepsResponseIfTrue_reject].
  apply keepsResponseIfTrue_bind; [apply keepsResponse_readFs|].
  intros [|]; simpl; [|apply keepsResponseIfTrue_reject].
  apply keepsResponseIfTrue_bind; [apply keepsResponse_loadAndRegisterFonts|].
  intros _.
  apply keepsResponseIfTrue_bind; [apply keepsResponse_loadImage|].
  intros template.
  apply keepsResponseIfTrue_bind; [apply keepsResponse_readFileSync|].
  intros text. case_bool_decide.
  - apply keepsResponseIfTrue_reject.
  - apply keepsResponseIfTrue_keeps, keepsResponse_buildArchive.
Qed.

Lemma generateTry_true v req w w' :
  generateTry v req w = (Ok true, w') →
  generateBody v req w = (Ok true, w') ∧ res w' = res w.
Proof.
  unfold generateTry, tryCatch.
  destruct (generateBody v req w) as [[b|e] w1] eqn:E.
  - intros [= -> ->]. split; [done|].
    by apply (keepsResponseIfTrue_generateBody v req).
  - rewrite !bind_run. unfold getHeadersSent.
    destruct (headersSent (res w1)) eqn:Hs; simpl.
    + rewrite bind_run. discriminate.
    + rewrite !bind_run. unfold status, send. simpl. rewrite Hs. discriminate.
Qed.

(** C1, as the code has it.  When the handler reaches [res.download], the
    transfer either succeeds or fails before any header is sent, and, in
    the first variant, the uploads directory is there as a directory, the
    callback runs its cleanup to the end whatever the outcome of the
    stream: afterwards nothing is left of the certificates directory nor of
    the archive file, and in the first variant nothing is left below the
    uploads directory.  (The first variant needs its uploads directory for
    all three: its removals share one [try], which starts with emptying
    that directory.) *)
Theorem cleanup_after_download v req outcome m registered w1 :
  generateTry v req {| fs := m; fonts := registered; res := freshResponse |}
  = (Ok true, w1) →
  outcome ≠ Aborted →
  (v = V1 → lookupNode (fs w1) uploadsDir = Some Dir) →
  let w := serve v req outcome m registered in
  absent (fs w) certificatesDir ∧ absent (fs w) zipPath ∧
  (v = V1 → emptied (fs w) uploadsDir).
Proof.
  intros Htry Hout Hup w. subst w.
  unfold serve, generateCertificates. rewrite bind_run, Htry.
  apply generateTry_true in Htry as [_ Hres]. simpl in Hres.
  unfold download, downloadCallback.
  destruct outcome; [|clear Hout|done];
    [destruct (fs_readFile (fs w1) zipPath) as [data|e]|].
  - rewrite bind_run. simpl.
    edestruct (cleanup_run v) as (m' & -> & H); [|exact H]. done.
  - rewrite !bind_run. unfold status, send. simpl. rewrite Hres. simpl.
    edestruct (cleanup_run v) as (m' & -> & H); [|exact H]. done.
  - rewrite !bind_run. unfold status, send. simpl. rewrite Hres. simpl.
    edestruct (cleanup_run v) as (m' & -> & H); [|exact H]. done.
Qed.

End Cleanup.

(** C1, as the specification has it, fails: a request that comes without
    its template is answered 400 by an early return, no cleanup runs, and
    the participants file it uploaded is still in the uploads directory. *)
Lemma rejected_request_leaves_uploads :
  let w := serve (rt := sampleRuntime) V1 sampleRequestNoTemplate Delivered
             (sampleFs (lines ["ann lee"])) [] in
  statusCode (res w) = 400%Z ∧ ¬ cleanedUp (rt := sampleRuntime) (fs w).
Proof.
  split; [reflexivity|]. intros [Hup _].
  specialize (Hup (sampleUploads ++ [js "p1"])).
  assert (fs (serve (rt := sampleRuntime) V1 sampleRequestNoTemplate Delivered
                (sampleFs (lines ["ann lee"])) [])
          !! (sampleUploads ++ [js "p1"]) = None) as H.
  { apply Hup; [by exists [js "p1"]|discriminate]. }
  vm_compute in H. discriminate.
Qed.

(** The second variant keeps the uploads even after a download that
    succeeded. *)
Example second_variant_keeps_uploads :
  let w := serve (rt := sampleRuntime) V2 sampleRequest Delivered
             (sampleFs (lines ["ann lee"])) [] in
  statusCode (res w) = 200%Z ∧
  fs w !! (sampleUploads ++ [js "p1"])
  = Some (File (Raw (lines ["ann lee"]) None)).
Proof. split; vm_compute; reflexivity. Qed.

(** A download that breaks off after the headers: the callback's attempt to
    answer 500 throws, and the cleanup below it never runs. *)
Example aborted_download_skips_cleanup :
  let w := serve (rt := sampleRuntime) V1 sampleRequest Aborted
             (sampleFs (lines ["ann lee"])) [] in
  fs_existsSync (fs w) (zipPath (rt := sampleRuntime)) = true ∧
  fs_existsSync (fs w) (certificatesDir (rt := sampleRuntime)) = true.
Proof. split; vm_compute; reflexivity. Qed.

Lemma cleanup_after_download_witness :
  let w := serve (rt := sampleRuntime) V1 sampleRequest FailedBeforeHeaders
             (sampleFs (lines ["alice smith"; ""; "bob jones"])) [] in
  absent (fs w) (certificatesDir (rt := sampleRuntime)) ∧
  absent (fs w) (zipPath (rt := sampleRuntime)) ∧
  (V1 = V1 → emptied (fs w) (uploadsDir (rt := sampleRuntime))).
Proof.
  apply (cleanup_after_download (rt := sampleRuntime) V1 sampleRequest
           FailedBeforeHeaders
           (sampleFs (lines ["alice smith"; ""; "bob jones"])) []
           (generateTry (rt := sampleRuntime) V1 sampleRequest
              {| fs := sampleFs (lines ["alice smith"; ""; "bob jones"]);
                 fonts := []; res := freshResponse |}).2).
  - vm_compute. reflexivity.
  - discriminate.
  - intros _. vm_compute. reflexivity.
Defined.

(** ** Names as file names *)

(** C9.  The normalized name goes into the path of the image as it is.  For
    a line with path separators and [..] segments, here [../../escaped],
    both variants write the PNG outside the certificates directory (here as
    [/srv/escaped.png], above the server's own directory); the file is not
    among the archive's entries and is still there after the cleanup. *)
Theorem name_escapes_certificates_dir :
  ∃ line : jsstring,
    SLASH ∈ line ∧ js ".." ∈ split SLASH line ∧
    ∀ v,
      let w := serve (rt := sampleRuntime) v sampleRequest Delivered
                 (sampleFs (line ++ [NEWLINE])) [] in
      ∃ p c,
        p = path_join (certificatesDir (rt := sampleRuntime))
              (normalizeName (rt := sampleRuntime) line ++ js ".png") ∧
        ¬ certificatesDir (rt := sampleRuntime) `prefix_of` p ∧
        fs w !! p = Some (File (Png c)) ∧
        archiveOf (res w) = Some [].
Proof.
  exists (js "../../escaped").
  split; [by vm_compute; repeat constructor|].
  split; [by vm_compute; repeat constructor|].
  intros v. destruct v; (eexists _, _; split; [reflexivity|]; split;
    [intros [k Hk]; vm_compute in Hk; discriminate
    |split; vm_compute; reflexivity]).
Qed.

(** ** Paths and directory listings *)

Lemma split_no_sep sep s : sep ∉ s → split sep s = [s].
Proof.
  induction s as [|c r IH]; [done|].
  intros [Hc Hr]%not_elem_of_cons. simpl.
  destruct (N.eqb_spec c sep); [congruence|]. by rewrite IH.
Qed.

Lemma path_join_plain p seg : plainSegment seg → path_join p seg = p ++ [seg].
Proof.
  intros (Hsep & Hnil & Hdot & Hdots). unfold path_join.
  rewrite split_no_sep by done. simpl. unfold joinSegment.
  rewrite bool_decide_eq_false_2 by (by intros [?|?]).
  by rewrite bool_decide_eq_false_2.
Qed.

Lemma lookupNode_snoc (m : FileSystem) p x :
  lookupNode m (p ++ [x]) = m !! (p ++ [x]).
Proof. by destruct p. Qed.

Lemma hasNul_snoc p seg :
  hasNul p = false → NUL ∉ seg → hasNul (p ++ [seg]) = false.
Proof.
  unfold hasNul. intros Hp%bool_decide_eq_false Hseg.
  apply bool_decide_eq_false. rewrite Exists_app, Exists_cons, Exists_nil.
  tauto.
Qed.

Lemma child_path (p d : Path) f :
  p ≠ [] ∧ removelast p = d ∧ default [] (last p) = f ↔ p = d ++ [f].
Proof.
  split.
  - intros (Hne & <- & <-).
    destruct (last p) as [x|] eqn:E.
    + apply last_Some in E as [l' ->]. by rewrite removelast_last.
    + by apply last_None in E.
  - intros ->. rewrite removelast_last, last_snoc. by destruct d.
Qed.

Lemma elem_of_children (m : FileSystem) d f :
  f ∈ children m d ↔ is_Some (m !! (d ++ [f])).
Proof.
  unfold children. rewrite list_elem_of_fmap. split.
  - intros (p & Hf & Hp). apply list_elem_of_filter in Hp as [[Hne Hd] Hp].
    apply list_elem_of_fmap in Hp as ([q x] & -> & Hqx).
    apply elem_of_map_to_list in Hqx. simpl in *.
    assert (q = d ++ [f]) as <- by (by apply child_path).
    by exists x.
  - intros [x Hx]. exists (d ++ [f]). split.
    + by rewrite last_snoc.
    + apply list_elem_of_filter. split.
      * split; [by destruct d|apply removelast_last].
      * apply list_elem_of_fmap. exists (d ++ [f], x).
        split; [done|]. by apply elem_of_map_to_list.
Qed.

Lemma NoDup_children (m : FileSystem) d : NoDup (children m d).
Proof.
  unfold children. apply NoDup_fmap_2_strong.
  - intros p q Hp Hq Heq.
    apply list_elem_of_filter in Hp as [[Hp1 Hp2] _].
    apply list_elem_of_filter in Hq as [[Hq1 Hq2] _].
    assert (p = d ++ [default [] (last p)]) as Ep by (by apply child_path).
    assert (q = d ++ [default [] (last q)]) as Eq by (by apply child_path).
    transitivity (d ++ [default [] (last p)]); [exact Ep|].
    rewrite Heq. by symmetry.
  - apply NoDup_filter, NoDup_fst_map_to_list.
Qed.

Lemma mkdirsFrom_existing segs : ∀ pre (m : FileSystem),
  (∀ p, p `prefix_of` pre ++ segs → length pre < length p → m !! p = Some Dir) →
  mkdirsFrom pre segs m = Ok m.
Proof.
  induction segs as [|s r IH]; intros pre m H; [done|].
  simpl. rewrite H.
  - apply IH. intros p Hp Hlen. apply H.
    + by rewrite <- app_assoc in Hp.
    + rewrite length_app in Hlen. simpl in Hlen. lia.
  - exists r. by rewrite <- app_assoc.
  - rewrite length_app. simpl. lia.
Qed.

(** ** The generation loop and the archive *)

Lemma png_units : js ".png" = [46; 112; 110; 103]%N.
Proof. reflexivity. Qed.

Section Archive.
Context {rt : Runtime}.
Implicit Types (m : FileSystem) (names : list jsstring).

Lemma certificateFile_plain name :
  SLASH ∉ normalizeName name → plainSegment (certificateFile name).
Proof.
  intros Hsep. unfold certificateFile, plainSegment. rewrite png_units.
  split; [|split; [|split]].
  - rewrite elem_of_app. intros [?|H]; [done|].
    repeat (apply elem_of_cons in H as [H|H]; [discriminate|]).
    by apply elem_of_nil in H.
  - by intros [_ ?]%app_eq_nil.
  - intros H%(f_equal length). rewrite length_app in H. simpl in H. lia.
  - intros H%(f_equal length). rewrite length_app in H. simpl in H. lia.
Qed.

Lemma certificateFile_no_nul name :
  NUL ∉ normalizeName name → NUL ∉ certificateFile name.
Proof.
  intros Hnul. unfold certificateFile. rewrite png_units, elem_of_app.
  intros [?|H]; [done|].
  repeat (apply elem_of_cons in H as [H|H]; [discriminate|]).
  by apply elem_of_nil in H.
Qed.

Lemma certificateFile_no_backslash name :
  BACKSLASH ∉ normalizeName name → BACKSLASH ∉ certificateFile name.
Proof.
  intros Hback. unfold certificateFile. rewrite png_units, elem_of_app.
  intros [?|H]; [done|].
  repeat (apply elem_of_cons in H as [H|H]; [discriminate|]).
  by apply elem_of_nil in H.
Qed.

Lemma win32Basename_plain (p : Path) f :
  plainSegment f → BACKSLASH ∉ f → win32Basename (p ++ [f]) = f.
Proof.
  intros (Hsep & Hnil & Hdot & Hdots) Hback. unfold win32Basename.
  rewrite flat_map_app. simpl. rewrite app_nil_r, split_no_sep by done.
  rewrite foldl_app. simpl. unfold joinSegment at 1.
  rewrite bool_decide_eq_false_2 by (by intros [?|?]).
  rewrite bool_decide_eq_false_2 by done.
  by rewrite last_snoc.
Qed.

Lemma addFile_new zip name data :
  name ∉ zip.*1 → addFile zip name data = zip ++ [(name, data)].
Proof. intros H. unfold addFile. by rewrite bool_decide_eq_false_2. Qed.

Lemma certificateFile_inj n n' :
  certificateFile n = certificateFile n' → normalizeName n = normalizeName n'.
Proof. apply app_inv_tail. Qed.

Lemma hasNul_certificatesDir : hasNul dirname = false → hasNul certificatesDir = false.
Proof.
  intros H. rewrite certificatesDir_eq. apply hasNul_snoc; [done|].
  intros Hin. vm_compute in Hin.
  repeat (apply elem_of_cons in Hin as [Hin|Hin]; [discriminate|]).
  by apply elem_of_nil in Hin.
Qed.

Lemma generateOne_run v st template name w :
  hasNul dirname = false →
  safeName (normalizeName name) →
  lookupNode (fs w) certificatesDir = Some Dir →
  fs w !! (certificatesDir ++ [certificateFile name]) ≠ Some Dir →
  generateOne v st template name w
  = (Ok tt,
     {| fs := <[certificatesDir ++ [certificateFile name] :=
                  File (Png (drawCertificate v st template (normalizeName name)))]>
                (fs w);
        fonts := fonts w; res := res w |}).
Proof.
  intros Hnul (Hsep & Hnul' & _ & _) Hdir Hfile.
  unfold generateOne, writeFileSync, writeFs, fs_writeFileSync.
  fold (certificateFile name).
  rewrite path_join_plain by (by apply certificateFile_plain).
  rewrite hasNul_snoc;
    [|by apply hasNul_certificatesDir|by apply certificateFile_no_nul].
  rewrite lookupNode_snoc, removelast_last, Hdir.
  by destruct (fs w !! (certificatesDir ++ [certificateFile name])) as [[|]|].
Qed.

Lemma certificatesDir_snoc_ne f : certificatesDir ++ [f] ≠ certificatesDir.
Proof. intros H%(f_equal length). rewrite length_app in H. simpl in H. lia. Qed.

Lemma lookupNode_certificatesDir m : lookupNode m certificatesDir = m !! certificatesDir.
Proof. rewrite certificatesDir_eq. apply lookupNode_snoc. Qed.

Lemma forEach_generateOne_run v st template names : ∀ w,
  hasNul dirname = false →
  Forall (λ n, safeName (normalizeName n)) names →
  lookupNode (fs w) certificatesDir = Some Dir →
  (∀ f, fs w !! (certificatesDir ++ [f]) ≠ Some Dir) →
  forEach (generateOne v st template) names w
  = (Ok tt,
     {| fs := withCertificates v st template (fs w) names;
        fonts := fonts w; res := res w |}).
Proof.
  induction names as [|n names IH]; intros w Hnul Hsafe Hdir Hfiles.
  - simpl. by rewrite world_eta.
  - apply Forall_cons in Hsafe as [Hn Hsafe].
    simpl. rewrite bind_run, generateOne_run by done.
    rewrite IH; [done..| |]; simpl.
    + rewrite lookupNode_certificatesDir, lookup_insert_ne
        by apply certificatesDir_snoc_ne.
      by rewrite <- lookupNode_certificatesDir.
    + intros f. destruct (decide (certificateFile n = f)) as [<-|Hne].
      * by rewrite lookup_insert_eq.
      * rewrite lookup_insert_ne; [done|]. by intros [=]%app_inv_head.
Qed.

Lemma lookup_withCertificates_other v st template names : ∀ m q,
  (∀ n, n ∈ names → q ≠ certificatesDir ++ [certificateFile n]) →
  withCertificates v st template m names !! q = m !! q.
Proof.
  induction names as [|a names IH]; intros m q Hq; [done|].
  simpl. rewrite IH.
  - rewrite lookup_insert_ne; [done|]. intros <-.
    apply (Hq a); [|done]. apply elem_of_cons. by left.
  - intros n Hn. apply Hq. apply elem_of_cons. by right.
Qed.

Lemma lookup_withCertificates_in v st template names : ∀ m n,
  n ∈ names →
  withCertificates v st template m names
    !! (certificatesDir ++ [certificateFile n])
  = Some (File (Png (drawCertificate v st template (normalizeName n)))).
Proof.
  induction names as [|a names IH]; intros m n Hn; [by apply elem_of_nil in Hn|].
  simpl.
  destruct (decide (Exists (λ n', certificateFile n' = certificateFile n) names))
    as [Hex|Hno].
  - apply Exists_exists in Hex as (n' & Hn' & Heq).
    rewrite <- Heq, (IH _ n' Hn'). by rewrite (certificateFile_inj _ _ Heq).
  - rewrite lookup_withCertificates_other.
    + apply elem_of_cons in Hn as [->|Hn]; [by rewrite lookup_insert_eq|].
      exfalso. apply Hno, Exists_exists. by exists n.
    + intros n' Hn' [=]%app_inv_head. apply Hno, Exists_exists. by exists n'.
Qed.

Lemma withCertificates_children v st template names m f :
  (∀ g, m !! (certificatesDir ++ [g]) = None) →
  is_Some (withCertificates v st template m names !! (certificatesDir ++ [f]))
  ↔ ∃ n, n ∈ names ∧ f = certificateFile n.
Proof.
  intros Hempty. split.
  - intros Hsome.
    destruct (decide (Exists (λ n, f = certificateFile n) names)) as [Hex|Hno].
    + by apply Exists_exists in Hex.
    + rewrite lookup_withCertificates_other, Hempty in Hsome.
      * by destruct Hsome.
      * intros n Hn [=]%app_inv_head. apply Hno, Exists_exists. by exists n.
  - intros (n & Hn & ->). by rewrite lookup_withCertificates_in.
Qed.

Lemma addLocalFiles_run dir files : ∀ zip w,
  NoDup files →
  (∀ f, f ∈ files → f ∉ zip.*1) →
  (∀ f, f ∈ files →
        path_join dir f = dir ++ [f] ∧
        win32Basename (dir ++ [f]) = f ∧
        ∃ data, fs w !! (dir ++ [f]) = Some (File data)) →
  ∃ entries,
    addLocalFiles zip dir files w = (Ok (zip ++ entries), w) ∧
    entries.*1 = files ∧
    ∀ f data, (f, data) ∈ entries → fs w !! (dir ++ [f]) = Some (File data).
Proof.
  induction files as [|f files IH]; intros zip w Hdup Hnew Hfiles.
  - exists []. simpl. rewrite app_nil_r. split; [done|]. split; [done|].
    intros f data H. by apply elem_of_nil in H.
  - apply NoDup_cons in Hdup as [Hf Hdup].
    destruct (Hfiles f) as (Hjoin & Hbase & data & Hdata);
      [apply elem_of_cons; by left|].
    destruct (IH (zip ++ [(f, data)]) w) as (entries & Hrun & Hnames & Hdatas).
    { done. }
    { intros g Hg. rewrite fmap_app, elem_of_app. intros [Hin|Hin].
      - revert Hin. apply Hnew. apply elem_of_cons. by right.
      - apply list_elem_of_singleton in Hin. simpl in Hin. by subst g. }
    { intros g Hg. apply Hfiles. apply elem_of_cons. by right. }
    exists ((f, data) :: entries). split; [|split].
    + simpl. rewrite bind_run. unfold addLocalFile. rewrite Hjoin.
      rewrite bind_run, existsSync_run. unfold fs_existsSync.
      rewrite lookupNode_snoc, Hdata. simpl.
      rewrite bind_run. unfold statSync, readFs.
      rewrite lookupNode_snoc, Hdata, Hbase. simpl.
      rewrite addFile_new by (apply Hnew, elem_of_cons; by left).
      rewrite Hrun. by rewrite <- app_assoc.
    + rewrite fmap_cons. simpl. by rewrite Hnames.
    + intros g d [[= -> ->]|H]%elem_of_cons; [done|]. by apply Hdatas.
Qed.

Lemma writeZip_run zip w :
  serverDirOk (fs w) →
  lookupNode (fs w) zipPath ≠ Some Dir →
  writeZip zipPath zip w
  = (Ok tt, {| fs := <[zipPath := File (Zip zip)]> (fs w);
               fonts := fonts w; res := res w |}).
Proof.
  intros [_ Hdirs] Hzip. unfold writeZip, writeFs.
  assert (fs_mkdirsSync (fs w) (removelast zipPath) = Ok (fs w)) as Hmk.
  { rewrite zipPath_eq, removelast_last. apply mkdirsFrom_existing.
    intros p Hp Hlen. rewrite <- (Hdirs p Hp).
    destruct p; [simpl in Hlen; lia|done]. }
  destruct (lookupNode (fs w) zipPath) as [[|data]|]; [done| |];
    by rewrite Hmk.
Qed.

End Archive.

Section ArchiveTheorem.
Context {rt : Runtime}.
Implicit Types (m : FileSystem) (names : list jsstring).

Lemma prefix_dirname_ne_below (p : Path) (k : list jsstring) :
  p `prefix_of` dirname → k ≠ [] → p ≠ dirname ++ k.
Proof.
  intros Hp%prefix_length Hk ->. rewrite length_app in Hp.
  destruct k; [done|]. simpl in Hp. lia.
Qed.

Lemma serverDirOk_ext m m' :
  serverDirOk m →
  (∀ p, p `prefix_of` dirname → m' !! p = m !! p) →
  serverDirOk m'.
Proof.
  intros [Hnul Hdirs] Hsame. split; [done|]. intros p Hp.
  rewrite <- (Hdirs p Hp). destruct p; [done|]. simpl. by apply Hsame.
Qed.

Lemma zipPath_ne_certificatesDir : zipPath ≠ certificatesDir.
Proof.
  rewrite zipPath_eq, certificatesDir_eq. intros H%app_inv_head.
  vm_compute in H. discriminate.
Qed.

Lemma zipPath_ne_certificate f : zipPath ≠ certificatesDir ++ [f].
Proof.
  rewrite zipPath_eq, certificatesDir_eq.
  intros H%(f_equal length). rewrite !length_app in H. simpl in H. lia.
Qed.

Lemma ensureCertificatesDir_run w :
  serverDirOk (fs w) →
  freshDir (fs w) certificatesDir →
  lookupNode (fs w) zipPath ≠ Some Dir →
  ∃ m1,
    (∀ B (k : unit → M B),
       (dirExists ← existsSync certificatesDir;
        (if negb dirExists then mkdirSync certificatesDir else mret tt) ≫= k) w
       = k tt {| fs := m1; fonts := fonts w; res := res w |}) ∧
    serverDirOk m1 ∧
    lookupNode m1 certificatesDir = Some Dir ∧
    (∀ g, m1 !! (certificatesDir ++ [g]) = None) ∧
    lookupNode m1 zipPath ≠ Some Dir.
Proof.
  intros Hserver [Hempty Hnofile] Hzip.
  assert (∀ g, fs w !! (certificatesDir ++ [g]) = None) as Hchildren.
  { intros g. apply Hempty; [by exists [g]|apply certificatesDir_snoc_ne]. }
  destruct (lookupNode (fs w) certificatesDir) as [[|data]|] eqn:E; simpl.
  - exists (fs w). rewrite world_eta. split; [|done].
    intros B k. rewrite bind_run, existsSync_run. unfold fs_existsSync.
    by rewrite E.
  - by destruct (Hnofile data).
  - exists (<[certificatesDir := Dir]> (fs w)). split; [|split; [|split; [|split]]].
    + intros B k. rewrite bind_run, existsSync_run. unfold fs_existsSync.
      rewrite E. simpl. rewrite bind_run.
      unfold mkdirSync, writeFs, fs_mkdirSync. rewrite E.
      rewrite certificatesDir_eq at 1. rewrite removelast_last.
      by rewrite (proj2 Hserver dirname).
    + apply (serverDirOk_ext (fs w)); [done|]. intros p Hp.
      apply lookup_insert_ne. symmetry. rewrite certificatesDir_eq.
      by apply prefix_dirname_ne_below.
    + rewrite lookupNode_certificatesDir. apply lookup_insert_eq.
    + intros g. rewrite lookup_insert_ne; [done|].
      symmetry. apply certificatesDir_snoc_ne.
    + rewrite zipPath_eq, lookupNode_snoc, <- zipPath_eq.
      rewrite lookup_insert_ne by (symmetry; apply zipPath_ne_certificatesDir).
      by rewrite zipPath_eq, <- lookupNode_snoc, <- zipPath_eq.
Qed.

Lemma buildArchive_run v st template names w :
  serverDirOk (fs w) →
  freshDir (fs w) certificatesDir →
  lookupNode (fs w) zipPath ≠ Some Dir →
  Forall (λ n, safeName (normalizeName n)) names →
  ∃ entries m',
    buildArchive v st template names w
    = (Ok true, {| fs := <[zipPath := File (Zip entries)]> m';
                   fonts := fonts w; res := res w |}) ∧
    oneEntryPerName names entries ∧
    ∀ n, n ∈ names →
         (certificateFile n,
          Png (drawCertificate v st template (normalizeName n))) ∈ entries.
Proof.
  intros Hserver Hfresh Hzip Hsafe.
  destruct (ensureCertificatesDir_run w Hserver Hfresh Hzip)
    as (m1 & Hensure & Hserver1 & Hdir1 & Hempty1 & Hzip1).
  set (m2 := withCertificates v st template m1 names).
  assert (lookupNode m2 certificatesDir = Some Dir) as Hdir2.
  { rewrite lookupNode_certificatesDir. unfold m2.
    rewrite lookup_withCertificates_other.
    - by rewrite <- lookupNode_certificatesDir.
    - intros n _. symmetry. apply certificatesDir_snoc_ne. }
  assert (serverDirOk m2) as Hserver2.
  { apply (serverDirOk_ext m1); [done|]. intros p Hp.
    apply lookup_withCertificates_other. intros n _.
    rewrite certificatesDir_eq, <- app_assoc.
    by apply prefix_dirname_ne_below. }
  assert (lookupNode m2 zipPath ≠ Some Dir) as Hzip2.
  { rewrite zipPath_eq, lookupNode_snoc, <- zipPath_eq. unfold m2.
    rewrite lookup_withCertificates_other
      by (intros n _; apply zipPath_ne_certificate).
    by rewrite zipPath_eq, <- lookupNode_snoc, <- zipPath_eq. }
  assert (∀ f, f ∈ children m2 certificatesDir
               ↔ ∃ n, n ∈ names ∧ f = certificateFile n) as Hfiles.
  { intros f. rewrite elem_of_children.
    by apply withCertificates_children. }
  destruct (addLocalFiles_run certificatesDir (children m2 certificatesDir) []
              {| fs := m2; fonts := fonts w; res := res w |})
    as (entries & Hadd & Hnames & Hdatas).
  { apply NoDup_children. }
  { intros f _. apply not_elem_of_nil. }
  { intros f (n & Hn & ->)%Hfiles.
    destruct (proj1 (Forall_forall _ _) Hsafe n Hn) as (Hsep & _ & Hback & _).
    split; [|split].
    - by apply path_join_plain, certificateFile_plain.
    - apply win32Basename_plain;
        [by apply certificateFile_plain|by apply certificateFile_no_backslash].
    - eexists. by apply lookup_withCertificates_in. }
  exists entries, m2. split; [|split; [split|]].
  - unfold buildArchive. rewrite Hensure.
    rewrite bind_run, forEach_generateOne_run; simpl;
      [|apply Hserver|done|done|by intros f; rewrite Hempty1].
    fold m2. rewrite bind_run. unfold readdirSync, readFs, fs_readdirSync.
    simpl. rewrite Hdir2. rewrite bind_run, Hadd.
    rewrite bind_run, writeZip_run by done. done.
  - rewrite Hnames. apply NoDup_children.
  - intros f. rewrite Hnames. apply Hfiles.
  - intros n Hn.
    assert (certificateFile n ∈ entries.*1) as Hin.
    { rewrite Hnames. apply Hfiles. by exists n. }
    apply list_elem_of_fmap in Hin as ([f data] & Hf & Hin). simpl in Hf. subst f.
    pose proof (Hdatas _ _ Hin) as Hdata. simpl in Hdata. unfold m2 in Hdata.
    rewrite lookup_withCertificates_in in Hdata by done.
    by injection Hdata as <-.
Qed.

(** Writing a file that is already there replaces it: the later write
    wins, and neither write fails. *)
Lemma later_write_wins m p first second m1 :
  fs_writeFileSync m p first = Ok m1 →
  fs_writeFileSync m1 p second = Ok (<[p := File second]> m).
Proof.
  unfold fs_writeFileSync. destruct (hasNul p); [done|]. intros H.
  assert (p ≠ []) as Hp by (by intros ->).
  assert (lookupNode m (removelast p) = Some Dir ∧
          m1 = <[p := File first]> m) as [Hdir ->].
  { destruct (lookupNode m p) as [[|?]|]; [done| |];
      destruct (lookupNode m (removelast p)) as [[|?]|];
      by simplify_eq. }
  assert (lookupNode (<[p := File first]> m) p = Some (File first)) as ->.
  { destruct p; [done|]. apply lookup_insert_eq. }
  assert (lookupNode (<[p := File first]> m) (removelast p) = Some Dir) as ->.
  { rewrite <- Hdir. destruct (removelast p) as [|s' p'] eqn:E; [done|].
    simpl. apply lookup_insert_ne. intros Heq.
    pose proof (app_removelast_last [] Hp) as Hsplit.
    rewrite E, <- Heq in Hsplit. apply (f_equal length) in Hsplit.
    rewrite length_app in Hsplit. simpl in Hsplit. lia. }
  by rewrite insert_insert_eq.
Qed.

(** C4, as the code has it.  For a request in order (both files stored, the
    template readable, the server's directory in place) whose certificates
    directory is absent or empty when the request starts, and whose
    participant list is not empty and has, in every normalized name, no
    slash, no backslash and no NUL, and no more than 255 bytes with the
    suffix [.png]: the download succeeds with status 200, and the archive
    holds exactly one entry per distinct normalized name and nothing else.
    Each name of the list, repeated or not, finds the certificate drawn for
    its normalized name in the archive: a later participant with the same
    display name writes over the earlier file, and no error is raised. *)
Theorem archive_one_entry_per_name v req m registered tp pp tdata img pdata :
  files_template req = Some tp →
  files_participants req = Some pp →
  lookupNode m tp = Some (File tdata) →
  imageOf tdata = Some img →
  lookupNode m pp = Some (File pdata) →
  fontsDirOk m →
  serverDirOk m →
  freshDir m certificatesDir →
  lookupNode m zipPath ≠ Some Dir →
  let names := participantNamesOf (textOf pdata) in
  names ≠ [] →
  Forall (λ n, safeName (normalizeName n)) names →
  let w := serve v req Delivered m registered in
  ∃ entries,
    statusCode (res w) = 200%Z ∧
    archiveOf (res w) = Some entries ∧
    oneEntryPerName names entries ∧
    ∀ n, n ∈ names →
         (certificateFile n,
          Png (drawCertificate v (styleOf req) img (normalizeName n)))
         ∈ entries.
Proof.
  intros Ht Hp Htp Himg Hpp Hfonts Hserver Hfresh Hzip names Hne Hsafe w.
  subst w. unfold serve, generateCertificates. rewrite bind_run.
  unfold generateTry, tryCatch.
  edestruct (generateBody_run v req
               {| fs := m; fonts := registered; res := freshResponse |})
    as [fonts' ->]; [done..|].
  cbv zeta. fold names. cbn [fs res].
  rewrite bool_decide_eq_false_2 by (by destruct names).
  edestruct (buildArchive_run v (styleOf req) img names
               {| fs := m; fonts := fonts'; res := freshResponse |})
    as (entries & m' & -> & Hone & Hin); [done..|].
  exists entries. unfold download. cbn [fs].
  unfold fs_readFile. rewrite zipPath_eq, lookupNode_snoc, <- zipPath_eq.
  rewrite lookup_insert_eq. unfold downloadCallback. rewrite bind_run.
  cbn [mret M_ret].
  match goal with
  | |- context [cleanup v ?w0] =>
      destruct (cleanup v w0) as [r w'] eqn:E;
      apply keepsResponse_cleanup in E
  end.
  cbn [snd]. rewrite E. done.
Qed.

End ArchiveTheorem.

(** ** The archive on examples *)

Example archive_alice_bob :
  fmap (M := list) fst
    <$> archiveOf (res (serve (rt := sampleRuntime) V1 sampleRequest Delivered
                          (sampleFs (lines ["alice smith"; ""; "bob jones"])) []))
  = Some [js "Bob Jones.png"; js "Alice Smith.png"].
Proof. vm_compute. reflexivity. Qed.

(** A sub-directory of the certificates directory goes into the archive
    as an entry of its own, without bytes and with a slash after its name;
    the request is answered 200.  (The order of the entries is that of the
    listing; it carries no meaning here.) *)
Example directory_in_certificates :
  let m := <[[js "srv"; js "app"; js "certificates"; js "Sub"] := Dir]>
             (<[[js "srv"; js "app"; js "certificates"] := Dir]>
                (sampleFs (lines ["carol"]))) in
  let w := serve (rt := sampleRuntime) V1 sampleRequest Delivered m [] in
  statusLine (res w) = Some 200%Z ∧
  ∃ c, archiveOf (res w)
       = Some [(js "Sub/", Raw [] None); (js "Carol.png", Png c)].
Proof. split; [vm_compute; reflexivity|]. eexists. vm_compute. reflexivity. Qed.

(** The archive names an entry by Windows rules: of a file name with a
    backslash only the part after the backslash is kept, so two such files
    can share one entry. *)
Example backslash_names_share_an_entry :
  let w := serve (rt := sampleRuntime) V1 sampleRequest Delivered
             (sampleFs (lines ["a\x"; "b\x"])) [] in
  statusLine (res w) = Some 200%Z ∧
  fmap (M := list) fst <$> archiveOf (res w) = Some [js "x.png"].
Proof. split; vm_compute; reflexivity. Qed.

(** C4, as the specification has it, fails.  A first request stops on its
    second name ([bob/smith] names a directory that is not there), is
    answered 500 and leaves [Ann Lee.png] behind, since no cleanup runs.
    The next request lists [carol] alone and succeeds, but its archive has
    two entries: the stale certificate and Carol's. *)
Lemma stale_certificate_in_archive :
  let first := serve (rt := sampleRuntime) V1 sampleRequest Delivered
                 (sampleFs (lines ["ann lee"; "bob/smith"])) [] in
  let second := serve (rt := sampleRuntime) V1 sampleSecondRequest Delivered
                  (<[sampleUploads ++ [js "p2"] :=
                       File (Raw (lines ["carol"]) None)]> (fs first)) [] in
  statusCode (res first) = 500%Z ∧
  statusCode (res second) = 200%Z ∧
  participantNamesOf (lines ["carol"]) = [js "carol"] ∧
  ∃ entries,
    archiveOf (res second) = Some entries ∧
    entries.*1 = [js "Ann Lee.png"; js "Carol.png"] ∧
    ¬ oneEntryPerName (rt := sampleRuntime) [js "carol"] entries.
Proof.
  split; [vm_compute; reflexivity|]. split; [vm_compute; reflexivity|].
  split; [vm_compute; reflexivity|].
  eexists. split; [vm_compute; reflexivity|]. split; [reflexivity|].
  intros [_ Hall].
  destruct (proj1 (Hall (js "Ann Lee.png"))) as (n & Hn & Heq).
  { apply elem_of_cons. by left. }
  apply list_elem_of_singleton in Hn as ->.
  vm_compute in Heq. discriminate.
Qed.

Lemma sampleFs_lookup participants q :
  is_Some (sampleFs participants !! q) →
  q ∈ [ [js "srv"]; [js "srv"; js "app"]; sampleUploads;
        sampleUploads ++ [js "t1"]; sampleUploads ++ [js "p1"] ].
Proof.
  intros Hq. destruct (decide (q ∈ [ [js "srv"]; [js "srv"; js "app"];
    sampleUploads; sampleUploads ++ [js "t1"]; sampleUploads ++ [js "p1"] ]))
    as [|Hno]; [done|].
  unfold sampleFs in Hq. rewrite (not_elem_of_list_to_map_1 _ q) in Hq.
  - by destruct Hq.
  - exact Hno.
Qed.

Lemma sampleFs_serverDirOk participants :
  serverDirOk (rt := sampleRuntime) (sampleFs participants).
Proof.
  split; [vm_compute; reflexivity|].
  intros p [k Hk]. change (dirname (Runtime := sampleRuntime))
    with [js "srv"; js "app"] in Hk.
  destruct p as [|a [|b [|c p]]]; simpl in Hk; simplify_eq;
    vm_compute; reflexivity.
Qed.

Lemma sampleFs_freshDir participants :
  freshDir (sampleFs participants) (certificatesDir (rt := sampleRuntime)).
Proof.
  split.
  - intros q [k ->] _.
    destruct (sampleFs participants !! _) eqn:E; [|done].
    assert (is_Some (sampleFs participants
                       !! (certificatesDir (rt := sampleRuntime) ++ k))) as Hq
      by (by rewrite E).
    apply sampleFs_lookup in Hq.
    repeat (apply elem_of_cons in Hq as [Hq|Hq];
            [vm_compute in Hq; discriminate|]).
    by apply elem_of_nil in Hq.
  - intros data. vm_compute. discriminate.
Qed.

Lemma archive_one_entry_per_name_witness :
  let text := lines ["ann lee"; "bob"; ""; "Ann lee"] in
  let names := [js "ann lee"; js "bob"; js "Ann lee"] in
  let w := serve (rt := sampleRuntime) V2 sampleRequest Delivered
             (sampleFs text) [] in
  participantNamesOf text = names ∧
  ∃ entries,
    statusCode (res w) = 200%Z ∧
    archiveOf (res w) = Some entries ∧
    oneEntryPerName (rt := sampleRuntime) names entries ∧
    ∀ n, n ∈ names →
         (certificateFile (rt := sampleRuntime) n,
          Png (drawCertificate (rt := sampleRuntime) V2 (styleOf sampleRequest)
                 sampleTemplate (normalizeName (rt := sampleRuntime) n)))
         ∈ entries.
Proof.
  split; [reflexivity|].
  apply (archive_one_entry_per_name (rt := sampleRuntime) V2 sampleRequest
           (sampleFs (lines ["ann lee"; "bob"; ""; "Ann lee"])) []
           (sampleUploads ++ [js "t1"]) (sampleUploads ++ [js "p1"])
           (Raw [] (Some sampleTemplate)) sampleTemplate
           (Raw (lines ["ann lee"; "bob"; ""; "Ann lee"]) None)).
  - reflexivity.
  - reflexivity.
  - vm_compute. reflexivity.
  - reflexivity.
  - vm_compute. reflexivity.
  - apply sampleFs_fontsDirOk.
  - apply sampleFs_serverDirOk.
  - apply sampleFs_freshDir.
  - vm_compute. discriminate.
  - discriminate.
  - repeat constructor; intros H; vm_compute in H;
      repeat (apply elem_of_cons in H as [H|H]; [discriminate|]);
      by apply elem_of_nil in H.
Defined.

(** * Further properties of the code *)

(** ** Splitting, joining, trimming *)

Lemma join_split sep s : join sep (split sep s) = s.
Proof.
  induction s as [|c r IH]; [done|]. simpl split.
  destruct (N.eqb_spec c sep) as [->|Hc].
  - destruct (split sep r) as [|w ws] eqn:E; [by apply split_nonempty in E|].
    simpl in *. by rewrite IH.
  - destruct (split sep r) as [|w ws] eqn:E; [by apply split_nonempty in E|].
    change ((c :: w) :: ws) with (([c] ++ w) :: ws).
    rewrite join_cons_app. by rewrite IH.
Qed.

Lemma split_pieces sep s : Forall (λ w, sep ∉ w) (split sep s).
Proof.
  induction s as [|c r IH]; simpl.
  - repeat constructor. apply not_elem_of_nil.
  - destruct (N.eqb_spec c sep) as [->|Hc].
    + constructor; [apply not_elem_of_nil|done].
    + destruct (split sep r) as [|w ws]; [repeat constructor|].
      * by intros [?|?%elem_of_nil]%elem_of_cons.
      * apply Forall_cons in IH as [Hw Hws]. constructor; [|done].
        by intros [?|?]%elem_of_cons.
Qed.

Lemma split_app_sep sep w rest :
  sep ∉ w → split sep (w ++ sep :: rest) = w :: split sep rest.
Proof.
  induction w as [|c w IH]; intros Hw; simpl.
  - by rewrite N.eqb_refl.
  - apply not_elem_of_cons in Hw as [Hc Hw].
    destruct (N.eqb_spec c sep); [done|]. by rewrite IH.
Qed.

Lemma split_join sep ws :
  ws ≠ [] → Forall (λ w, sep ∉ w) ws → split sep (join sep ws) = ws.
Proof.
  induction ws as [|w ws IH]; [done|]. intros _ [Hw Hws]%Forall_cons.
  destruct ws as [|w' ws].
  - simpl. by apply split_no_sep.
  - change (join sep (w :: w' :: ws)) with (w ++ sep :: join sep (w' :: ws)).
    rewrite split_app_sep by done. by rewrite IH.
Qed.

(** X1.  [split] and [join] are inverse to each other: joining the pieces
    of a string with the separator it was split on gives the string back,
    and splitting a join of pieces that do not hold the separator gives the
    pieces back. *)
Theorem split_join_round_trip sep :
  (∀ s, join sep (split sep s) = s) ∧
  (∀ pieces, pieces ≠ [] → Forall (λ w, sep ∉ w) pieces →
             split sep (join sep pieces) = pieces).
Proof. split; [apply join_split|apply split_join]. Qed.

Lemma split_join_round_trip_witness :
  split SPACE (join SPACE [js "ann"; []; js "lee"]) = [js "ann"; []; js "lee"].
Proof.
  apply (proj2 (split_join_round_trip SPACE)); [discriminate|].
  repeat constructor; intros H; vm_compute in H;
    repeat (apply elem_of_cons in H as [H|H]; [discriminate|]);
    by apply elem_of_nil in H.
Defined.

Lemma trimStart_ws_app pre s :
  Forall (λ c, isWhiteSpace c = true) pre → trimStart (pre ++ s) = trimStart s.
Proof. induction 1 as [|c pre Hc _ IH]; [done|]. simpl. by rewrite Hc. Qed.

Lemma trimStart_all_ws s :
  Forall (λ c, isWhiteSpace c = true) s ↔ trimStart s = [].
Proof.
  split.
  - intros H. rewrite <- (app_nil_r s). by rewrite trimStart_ws_app.
  - induction s as [|c r IH]; [done|]. simpl.
    destruct (isWhiteSpace c) eqn:W; [|done]. intros H. constructor; auto.
Qed.

Lemma trimEnd_all_ws s :
  Forall (λ c, isWhiteSpace c = true) s ↔ trimEnd s = [].
Proof.
  split.
  - induction 1 as [|c r Hc _ IH]; [done|]. simpl. by rewrite IH, Hc.
  - induction s as [|c r IH]; [done|]. simpl.
    destruct (trimEnd r) as [|d r']; [|done].
    destruct (isWhiteSpace c) eqn:W; [|done]. intros _. constructor; auto.
Qed.

Lemma trimEnd_ws_app s post :
  Forall (λ c, isWhiteSpace c = true) post → trimEnd (s ++ post) = trimEnd s.
Proof.
  intros Hpost. induction s as [|c r IH]; simpl.
  - by apply trimEnd_all_ws.
  - by rewrite IH.
Qed.

Lemma trim_surrounded pre s post :
  Forall (λ c, isWhiteSpace c = true) pre →
  Forall (λ c, isWhiteSpace c = true) post →
  trim (pre ++ s ++ post) = trim s.
Proof.
  intros Hpre Hpost. unfold trim. rewrite trimStart_ws_app by done.
  induction s as [|c r IH].
  - simpl. by rewrite (proj1 (trimStart_all_ws post)).
  - rewrite <- app_comm_cons. simpl trimStart.
    destruct (isWhiteSpace c); [exact IH|].
    by apply (trimEnd_ws_app (c :: r)).
Qed.


Lemma trimStart_split s :
  ∃ pre, s = pre ++ trimStart s ∧ Forall (λ c, isWhiteSpace c = true) pre.
Proof.
  induction s as [|c r (pre & Hr & Hpre)]; [by exists []|]. simpl.
  destruct (isWhiteSpace c) eqn:W.
  - exists (c :: pre). split; [simpl; congruence|by constructor].
  - by exists [].
Qed.

Lemma trimEnd_split s :
  ∃ post, s = trimEnd s ++ post ∧ Forall (λ c, isWhiteSpace c = true) post.
Proof.
  induction s as [|c r (post & Hr & Hpost)]; [by exists []|]. simpl.
  destruct (trimEnd r) as [|d r'] eqn:E.
  - destruct (isWhiteSpace c) eqn:W.
    + exists (c :: r). split; [done|]. constructor; [done|].
      by apply trimEnd_all_ws.
    + exists r. split; [done|]. by apply trimEnd_all_ws.
  - exists post. split; [|done]. simpl in *. congruence.
Qed.

Lemma trimEnd_last s c :
  trimEnd s = s → last s = Some c → isWhiteSpace c = false.
Proof.
  induction s as [|a r IH]; [done|]. simpl trimEnd.
  destruct r as [|b r].
  - simpl. destruct (isWhiteSpace a) eqn:W; [done|]. by intros _ [= <-].
  - destruct (trimEnd (b :: r)) as [|d r'] eqn:E.
    + by destruct (isWhiteSpace a).
    + intros [= -> ->] Hlast. apply IH; [done|]. exact Hlast.
Qed.

(** X2.  [trim] takes off white space at both ends and nothing else: the
    string is its trimmed form between two runs of white space, and the
    trimmed form neither starts nor ends with white space. *)
Theorem trim_removes_surrounding_white_space s :
  (∃ pre post,
     s = pre ++ trim s ++ post ∧
     Forall (λ c, isWhiteSpace c = true) pre ∧
     Forall (λ c, isWhiteSpace c = true) post) ∧
  (∀ c, head (trim s) = Some c → isWhiteSpace c = false) ∧
  (∀ c, last (trim s) = Some c → isWhiteSpace c = false).
Proof.
  split; [|split].
  - destruct (trimStart_split s) as (pre & Hs & Hpre).
    destruct (trimEnd_split (trimStart s)) as (post & Ht & Hpost).
    exists pre, post. split; [|done]. unfold trim.
    rewrite <- Ht. exact Hs.
  - intros c Hc. destruct (trim_isTrimmed s) as [Hhead _].
    destruct (trim s); [done|]. by injection Hc as <-.
  - intros c Hc. destruct (trim_isTrimmed s) as [_ Hend].
    by apply (trimEnd_last (trim s)).
Qed.

Section NormalizationFurther.
Context {rt : Runtime}.
Hypothesis upper_empty : toUpperCase [] = [].
Hypothesis upper_nonempty : ∀ c, toUpperCase [c] ≠ [].
Hypothesis upper_space : ∀ c x,
  x ∈ toUpperCase [c] → isWhiteSpace x = true → x = c.

Lemma capitalize_no_space w : SPACE ∉ w → SPACE ∉ capitalize w.
Proof using upper_empty upper_space.
  destruct w as [|c r]; intros Hw.
  - rewrite capitalize_nil by done. apply not_elem_of_nil.
  - apply not_elem_of_cons in Hw as [Hc Hr].
    rewrite capitalize_cons, elem_of_app. intros [H|H]; [|done].
    by apply (upper_no_space upper_space c).
Qed.

(** X3.  The normalized name has the words of the trimmed line, each with
    its first code unit in upper case, and as many of them: splitting it on
    spaces gives back the capitalized words, empty words included. *)
Theorem normalized_words (line : jsstring) :
  split SPACE (normalizeName line)
  = map capitalize (split SPACE (trim line)).
Proof using upper_empty upper_space.
  unfold normalizeName. apply split_join.
  - pose proof (split_nonempty SPACE (trim line)).
    by destruct (split SPACE (trim line)).
  - apply Forall_fmap. eapply Forall_impl; [apply split_pieces|].
    intros w Hw. by apply capitalize_no_space.
Qed.

(** X4.  White space around a line does not count: a line with white space
    before or after it, such as the carriage return of a CRLF file,
    normalizes to the same name as the line without. *)
Theorem surrounding_white_space_ignored (pre line post : jsstring) :
  Forall (λ c, isWhiteSpace c = true) pre →
  Forall (λ c, isWhiteSpace c = true) post →
  normalizeName (pre ++ line ++ post) = normalizeName line.
Proof. intros Hpre Hpost. unfold normalizeName. by rewrite trim_surrounded. Qed.


(** X6.  A normalized name neither starts nor ends with white space. *)
Theorem normalized_name_is_trimmed (line : jsstring) :
  trim (normalizeName line) = normalizeName line ∧
  (∀ c, head (normalizeName line) = Some c → isWhiteSpace c = false) ∧
  (∀ c, last (normalizeName line) = Some c → isWhiteSpace c = false).
Proof using upper_empty upper_nonempty upper_space.
  assert (isTrimmed (normalizeName line)) as [Hhead Hend].
  { rewrite (normalizeName_scan upper_empty).
    apply (titleScan_isTrimmed upper_nonempty upper_space), trim_isTrimmed. }
  split; [by apply isTrimmed_trim|]. split.
  - intros c Hc. destruct (normalizeName line); [done|]. by injection Hc as <-.
  - intros c. by apply trimEnd_last.
Qed.

End NormalizationFurther.

Lemma normalized_words_witness :
  split SPACE (normalizeName (rt := sampleRuntime) (js " ann  lee "))
  = [js "Ann"; []; js "Lee"].
Proof.
  rewrite (normalized_words (rt := sampleRuntime));
    [reflexivity|reflexivity|apply latin1_space].
Defined.

Lemma surrounding_white_space_ignored_witness :
  normalizeName (rt := sampleRuntime) ([9%N] ++ js "ann lee" ++ [13%N])
  = normalizeName (rt := sampleRuntime) (js "ann lee").
Proof.
  apply (surrounding_white_space_ignored (rt := sampleRuntime));
    repeat constructor.
Defined.


Lemma normalized_name_is_trimmed_witness :
  trim (normalizeName (rt := sampleRuntime) (js " ann  lee "))
  = normalizeName (rt := sampleRuntime) (js " ann  lee ").
Proof.
  apply (normalized_name_is_trimmed (rt := sampleRuntime));
    [reflexivity|apply latin1_nonempty|apply latin1_space].
Defined.

(** ** The participant list *)




(** ** Positions, further *)

Lemma isDigit_cases c :
  isDigit c = true →
  (c = 48 ∨ c = 49 ∨ c = 50 ∨ c = 51 ∨ c = 52 ∨ c = 53 ∨ c = 54 ∨ c = 55
   ∨ c = 56 ∨ c = 57)%N.
Proof. unfold isDigit. intros H. unbool. lia. Qed.

Lemma takeDigits_prefix ds rest :
  Forall (λ c, isDigit c = true) ds →
  match rest with [] => True | c :: _ => isDigit c = false end →
  takeDigits (ds ++ rest) = ds.
Proof.
  intros Hds Hrest. induction Hds as [|c ds Hc _ IH]; cbn [app takeDigits].
  - destruct rest as [|c rest]; [done|]. cbn [takeDigits]. by rewrite Hrest.
  - by rewrite Hc, IH.
Qed.

Lemma parseIntString_digits pre ds rest :
  Forall (λ c, isWhiteSpace c = true) pre →
  ds ≠ [] →
  Forall (λ c, isDigit c = true) ds →
  match rest with [] => True | c :: _ => isDigit c = false end →
  parseIntString (pre ++ ds ++ rest) = numberFor (digitsValue ds) ∧
  parseIntString (pre ++ 45%N :: ds ++ rest) = numberFor (- digitsValue ds).
Proof.
  intros Hpre Hne Hds Hrest. unfold parseIntString.
  rewrite !trimStart_ws_app by done.
  destruct ds as [|d ds]; [done|]. clear Hne.
  pose proof (takeDigits_prefix (d :: ds) rest Hds Hrest) as Htake.
  apply Forall_cons in Hds as [Hd Hds]. split.
  - assert (trimStart ((d :: ds) ++ rest) = (d :: ds) ++ rest) as ->.
    { simpl. apply isDigit_cases in Hd.
      by destruct Hd as [->|[->|[->|[->|[->|[->|[->|[->|[->| ->]]]]]]]]]. }
    assert ((let '(sign, t) :=
               match (d :: ds) ++ rest with
               | 45%N :: r => ((-1)%Z, r)
               | 43%N :: r => (1%Z, r)
               | _ => (1%Z, (d :: ds) ++ rest)
               end in
             match takeDigits t with
             | [] => VNaN
             | ds0 => numberFor (sign * digitsValue ds0)
             end)
            = match takeDigits ((d :: ds) ++ rest) with
              | [] => VNaN
              | ds0 => numberFor (1 * digitsValue ds0)
              end) as ->.
    { apply isDigit_cases in Hd.
      by destruct Hd as [->|[->|[->|[->|[->|[->|[->|[->|[->| ->]]]]]]]]]. }
    rewrite Htake. by rewrite Z.mul_1_l.
  - rewrite (trimStart_ws_app pre (45%N :: (d :: ds) ++ rest)) by done.
    simpl trimStart. change (isWhiteSpace 45) with false. cbv iota.
    change (d :: ds ++ rest) with ((d :: ds) ++ rest).
    rewrite Htake. f_equal.
Qed.

Lemma digitsValue_nonneg ds :
  Forall (λ c, isDigit c = true) ds → (0 ≤ digitsValue ds)%Z.
Proof.
  intros Hds. unfold digitsValue.
  assert (∀ acc, (0 ≤ acc)%Z →
            (0 ≤ foldl (λ acc c, acc * 10 + (Z.of_N c - 48)) acc ds)%Z) as H.
  { induction Hds as [|c ds Hc _ IH]; intros acc Hacc; [done|].
    simpl. apply IH. unfold isDigit in Hc. unbool. lia. }
  by apply H.
Qed.

Section PositionsFurther.
Context {rt : Runtime}.

(** X8.  A position given as decimal digits, with white space before and
    any text that does not start with a digit after, is drawn in both
    variants at the Number value of the digits, provided the digits do not
    write zero; the rest of the field ([px], a decimal fraction) is ignored.
    The Number value is the value of the digits below 2^53, at most half a
    unit of 53 significant bits away from it above, and the infinity from
    2^1024 on. *)
Theorem digits_of_position_are_used v req template name pre ds rest :
  body_xPosition req = Some (pre ++ ds ++ rest) →
  Forall (λ c, isWhiteSpace c = true) pre →
  ds ≠ [] →
  Forall (λ c, isDigit c = true) ds →
  match rest with [] => True | c :: _ => isDigit c = false end →
  digitsValue ds ≠ 0%Z →
  let n := digitsValue ds in
  (∃ y, drawnAt (drawCertificate v (styleOf req) template name)
        = Some (numberFor n, y)) ∧
  ((n < 2 ^ 53)%Z → numberFor n = VNum (inject_Z n)) ∧
  ((2 ^ 53 ≤ n)%Z →
     numberFor n = VInf false ∨
     ∃ k, numberFor n = VNum (inject_Z (k * 2 ^ (Z.log2 n - 52))) ∧
          (2 ^ 52 ≤ k ≤ 2 ^ 53)%Z ∧
          (2 * Z.abs (k * 2 ^ (Z.log2 n - 52) - n) ≤ 2 ^ (Z.log2 n - 52))%Z) ∧
  ((2 ^ 1024 ≤ n)%Z → numberFor n = VInf false).
Proof.
  intros Hx Hpre Hne Hds Hrest Hval n.
  pose proof (digitsValue_nonneg ds Hds) as Hnonneg. fold n in Hnonneg, Hval.
  split; [|split; [|split]].
  - rewrite drawnAt_drawCertificate. eexists. do 2 f_equal.
    unfold adjustedXPosition, styleOf. simpl. rewrite Hx. simpl.
    rewrite (proj1 (parseIntString_digits pre ds rest Hpre Hne Hds Hrest)).
    fold n. destruct v; [done|]. unfold jsOr.
    by rewrite numberFor_truthy.
  - intros Hsmall. apply numberFor_small. lia.
  - intros Hbig. unfold numberFor. rewrite (Z.abs_eq n) by done.
    destruct (_ <=? _)%Z.
    + left. f_equal. apply Z.ltb_ge. done.
    + right. destruct (nearestDouble_large n Hbig) as (_ & k & E & Hk & Hnear).
      exists k. rewrite E in Hnear |- *. split; [|done].
      do 2 f_equal. rewrite Z.sgn_pos by lia. lia.
  - intros Hhuge. rewrite numberFor_overflow by lia.
    f_equal. apply Z.ltb_ge. done.
Qed.

(** X9.  What kind of value reaches [fillText].  In the first variant both
    coordinates are NaN, an infinity or an integer, and they depend on the
    request alone, not on the template or the name.  In the second variant
    X is always a finite number or an infinity, and Y is never NaN. *)
Theorem coordinate_kinds req template name :
  let st := styleOf req in
  (∃ x y,
     (∀ template' name',
        drawnAt (drawCertificate V1 st template' name') = Some (x, y)) ∧
     parsed x ∧ parsed y) ∧
  (∃ x y,
     drawnAt (drawCertificate V2 st template name) = Some (x, y) ∧
     ((∃ q, x = VNum q) ∨ ∃ negative, x = VInf negative) ∧
     y ≠ VNaN).
Proof.
  intros st. split.
  - exists (parseInt (xPosition st)), (parseInt (yPosition st)).
    split; [done|]. split; apply parseInt_parsed.
  - rewrite drawnAt_drawCertificate. unfold adjustedXPosition, adjustedYPosition.
    eexists _, _. split; [reflexivity|]. split.
    + unfold jsOr.
      destruct (parseInt_parsed (xPosition st)) as [->|[[b ->]|[z ->]]].
      * simpl. eauto.
      * simpl. eauto.
      * destruct (truthy _); eauto.
    + unfold jsOr.
      destruct (parseInt_parsed (yPosition st)) as [->|[[b ->]|[z ->]]].
      * simpl. unfold st, styleOf. simpl. by destruct (body_yPosition req).
      * done.
      * destruct (truthy _); [done|]. unfold st, styleOf. simpl.
        by destruct (body_yPosition req).
Qed.

End PositionsFurther.

Lemma digits_of_position_are_used_witness :
  ∃ y, drawnAt (drawCertificate (rt := sampleRuntime) V2
                  (styleOf (sampleRequestAt
                              (Some (js " 9007199254740993.7px")) None))
                  sampleTemplate (js "Ann"))
       = Some (VNum 9007199254740992, y).
Proof.
  apply (digits_of_position_are_used (rt := sampleRuntime) V2
           (sampleRequestAt (Some (js " 9007199254740993.7px")) None)
           sampleTemplate (js "Ann") (js " ") (js "9007199254740993")
           (js ".7px"));
    [reflexivity|repeat constructor|discriminate|repeat constructor
    |reflexivity|discriminate].
Defined.

(** ** The font registry *)

Section FontRegistry.
Context {rt : Runtime}.

Lemma registerFonts_registrations fontsDir files : ∀ w,
  forEach (λ file,
    if endsWith file (js ".ttf") || endsWith file (js ".otf")
    then registerFont (path_join fontsDir file) (fontFamilyOf file)
    else mret tt) files w
  = (Ok tt, {| fs := fs w;
               fonts := fonts w ++ fontRegistrations fontsDir files;
               res := res w |}).
Proof.
  unfold fontRegistrations.
  induction files as [|file files IH]; intros w.
  - simpl. by rewrite app_nil_r, world_eta.
  - simpl forEach. rewrite bind_run, filter_cons.
    change (endsWith file (js ".ttf") || endsWith file (js ".otf"))
      with (isFontFile file).
    destruct (decide (isFontFile file = true)) as [E|E].
    + rewrite E. unfold registerFont. rewrite IH. simpl.
      by rewrite <- app_assoc.
    + apply not_true_is_false in E. rewrite E. apply IH.
Qed.

(** X10.  [loadAndRegisterFonts] by the state of the fonts directory.  When
    it is missing nothing happens.  When it is a directory, one font is
    registered for each listed file whose name ends in [.ttf] or [.otf], in
    the order of the listing and after the fonts registered before, under
    the file name without its extension; other files are passed over; the
    file system and the response stay as they are.  When the path is a file
    the listing throws. *)
Theorem fonts_directory_registered w :
  let fontsDir := path_join dirname (js "fonts") in
  loadAndRegisterFonts w
  = match lookupNode (fs w) fontsDir with
    | None => (Ok tt, w)
    | Some Dir =>
        (Ok tt,
         {| fs := fs w;
            fonts := fonts w
                     ++ fontRegistrations fontsDir (children (fs w) fontsDir);
            res := res w |})
    | Some (File _) => (Throw ENOTDIR, w)
    end.
Proof.
  intros fontsDir. unfold loadAndRegisterFonts. fold fontsDir.
  rewrite bind_run, existsSync_run. unfold fs_existsSync.
  destruct (lookupNode (fs w) fontsDir) as [[|data]|] eqn:E; simpl; [| |done].
  - rewrite bind_run. unfold readdirSync, readFs, fs_readdirSync. rewrite E.
    apply registerFonts_registrations.
  - rewrite bind_run. unfold readdirSync, readFs, fs_readdirSync. by rewrite E.
Qed.

End FontRegistry.

Example fonts_directory_sample :
  fontRegistrations [js "srv"; js "app"; js "fonts"]
    [js "Lato.ttf"; js "README.md"; js "Open Sans.otf"; js ".ttf"; js "a.TTF"]
  = [ ([js "srv"; js "app"; js "fonts"; js "Lato.ttf"], js "Lato");
      ([js "srv"; js "app"; js "fonts"; js "Open Sans.otf"], js "Open Sans");
      ([js "srv"; js "app"; js "fonts"; js ".ttf"], js ".ttf") ].
Proof. reflexivity. Qed.

(** ** Where the images go *)

Lemma split_app_last sep s t :
  sep ∉ t →
  ∃ init seg, split sep s = init ++ [seg] ∧ split sep (s ++ t) = init ++ [seg ++ t].
Proof.
  intros Ht. induction s as [|c r (init & seg & Hr & Hrt)].
  - exists [], []. split; [done|]. simpl. by apply split_no_sep.
  - simpl. rewrite Hr, Hrt. destruct (c =? sep)%N.
    + by exists ([] :: init), seg.
    + destruct init as [|w init]; simpl.
      * by exists [], (c :: seg).
      * by exists ((c :: w) :: init), seg.
Qed.

Lemma path_join_png base name :
  ∃ q seg, path_join base (name ++ js ".png") = q ++ [seg ++ js ".png"].
Proof.
  destruct (split_app_last SLASH name (js ".png")) as (init & seg & _ & Hsplit).
  { intros H. vm_compute in H.
    repeat (apply elem_of_cons in H as [H|H]; [discriminate|]).
    by apply elem_of_nil in H. }
  exists (foldl joinSegment base init), seg.
  unfold path_join. rewrite Hsplit, foldl_app. simpl. unfold joinSegment.
  rewrite png_units.
  rewrite bool_decide_eq_false_2.
  - rewrite bool_decide_eq_false_2; [done|].
    intros H%(f_equal length). rewrite length_app in H. simpl in H. lia.
  - intros [H|H]; apply (f_equal length) in H; rewrite length_app in H;
      simpl in H; lia.
Qed.

Lemma joinSegments_prefix (base : Path) segs : ∀ p,
  base `prefix_of` p →
  js ".." ∉ segs →
  base `prefix_of` foldl joinSegment p segs.
Proof.
  induction segs as [|seg segs IH]; intros p Hp Hsegs; [done|].
  apply not_elem_of_cons in Hsegs as [Hseg Hsegs]. simpl. apply IH; [|done].
  unfold joinSegment. case_bool_decide; [done|].
  rewrite bool_decide_eq_false_2 by done. by apply prefix_app_r.
Qed.

Section Targets.
Context {rt : Runtime}.

(** X11.  A name cannot take its image out of the certificates directory
    without a [..] segment: when the file name [<name>.png], cut at the
    slashes, has no segment [..], the image is written in the certificates
    directory or below it. *)
Theorem no_escape_without_dotdot (name : jsstring) :
  js ".." ∉ split SLASH (certificateFile name) →
  certificatesDir
    `prefix_of` path_join certificatesDir (certificateFile name).
Proof. intros H. by apply joinSegments_prefix. Qed.

(** X12.  One turn of the loop writes one file or none.  The file it writes
    has a name ending in [.png] and holds the PNG of the canvas drawn for
    the normalized name; when the write fails the file system is left as it
    was.  Nothing else is changed. *)
Theorem loop_writes_one_png v st template name w r w' :
  generateOne v st template name w = (r, w') →
  fonts w' = fonts w ∧ res w' = res w ∧
  match r with
  | Ok _ =>
      ∃ q seg,
        fs w' = <[q ++ [seg ++ js ".png"] :=
                    File (Png (drawCertificate v st template
                                 (normalizeName name)))]> (fs w)
  | Throw _ => fs w' = fs w
  end.
Proof.
  unfold generateOne, writeFileSync, writeFs.
  destruct (path_join_png certificatesDir (normalizeName name))
    as (q & seg & ->).
  destruct (fs_writeFileSync _ _ _) as [m'|e] eqn:E; intros [= <- <-];
    [|done].
  split; [done|]. split; [done|]. exists q, seg. simpl.
  unfold fs_writeFileSync in E.
  destruct (hasNul _); [done|].
  destruct (lookupNode (fs w) (q ++ [seg ++ js ".png"])) as [[|?]|];
    [done| |];
    destruct (lookupNode (fs w) (removelast (q ++ [seg ++ js ".png"])))
      as [[|?]|]; by simplify_eq.
Qed.

End Targets.

Lemma no_escape_without_dotdot_witness :
  certificatesDir (rt := sampleRuntime)
    `prefix_of` path_join (certificatesDir (rt := sampleRuntime))
                  (certificateFile (rt := sampleRuntime) (js "team/./ann lee")).
Proof.
  apply (no_escape_without_dotdot (rt := sampleRuntime)).
  intros H. vm_compute in H.
  repeat (apply elem_of_cons in H as [H|H]; [discriminate|]).
  by apply elem_of_nil in H.
Defined.

Lemma loop_writes_one_png_witness :
  let w := {| fs := <[[js "srv"; js "app"; js "certificates"] := Dir]>
                      (sampleFs []);
              fonts := []; res := freshResponse |} in
  ∃ q seg,
    fs (generateOne (rt := sampleRuntime) V1 (styleOf sampleRequest)
          sampleTemplate (js "ann lee") w).2
    = <[q ++ [seg ++ js ".png"] :=
          File (Png (drawCertificate (rt := sampleRuntime) V1
                       (styleOf sampleRequest) sampleTemplate
                       (normalizeName (rt := sampleRuntime) (js "ann lee"))))]>
        (fs w).
Proof.
  intros w.
  destruct (generateOne (rt := sampleRuntime) V1 (styleOf sampleRequest)
              sampleTemplate (js "ann lee") w) as [r w'] eqn:E.
  pose proof (loop_writes_one_png (rt := sampleRuntime) _ _ _ _ _ _ _ E)
    as (_ & _ & H).
  assert (r = Ok tt) as -> by (vm_compute in E; by injection E as <- _).
  exact H.
Defined.

(** ** How the handler ends *)

Lemma bind_inv {A B} (m : M A) (f : A → M B) w r w' :
  (m ≫= f) w = (r, w') →
  (∃ a w1, m w = (Ok a, w1) ∧ f a w1 = (r, w')) ∨
  (∃ e, m w = (Throw e, w') ∧ r = Throw e).
Proof.
  rewrite bind_run. destruct (m w) as [[a|e] w1].
  - intros H. left. by exists a, w1.
  - intros [= <- <-]. right. by exists e.
Qed.

Lemma keepsFs_ret {A} (a : A) : keepsFs (mret a).
Proof. by intros w r w' [= _ <-]. Qed.

Lemma keepsFs_throw {A} e : keepsFs (@throw A e).
Proof. by intros w r w' [= _ <-]. Qed.

Lemma keepsFs_readFs {A} (f : FileSystem → result A) : keepsFs (readFs f).
Proof. by intros w r w' [= _ <-]. Qed.

Lemma keepsFs_registerFont p family : keepsFs (registerFont p family).
Proof. by intros w r w' [= _ <-]. Qed.

Lemma keepsFs_bind {A B} (m : M A) (f : A → M B) :
  keepsFs m → (∀ a, keepsFs (f a)) → keepsFs (m ≫= f).
Proof.
  intros Hm Hf w r w' [(a & w1 & H1 & H2)|(e & H1 & _)]%bind_inv.
  - rewrite (Hf _ _ _ _ H2). eapply Hm, H1.
  - eapply Hm, H1.
Qed.

Lemma keepsFs_forEach {A} (f : A → M unit) l :
  (∀ a, keepsFs (f a)) → keepsFs (forEach f l).
Proof.
  intros Hf. induction l as [|a l IH]; simpl.
  - apply keepsFs_ret.
  - by apply keepsFs_bind.
Qed.

Lemma keepsPath_keepsFs {A} q (m : M A) : keepsFs m → keepsPath q m.
Proof. intros H w r w' E. by rewrite (H _ _ _ E). Qed.

Lemma keepsPath_bind {A B} q (m : M A) (f : A → M B) :
  keepsPath q m → (∀ a, keepsPath q (f a)) → keepsPath q (m ≫= f).
Proof.
  intros Hm Hf w r w' [(a & w1 & H1 & H2)|(e & H1 & _)]%bind_inv.
  - rewrite (Hf _ _ _ _ H2). eapply Hm, H1.
  - eapply Hm, H1.
Qed.

Lemma keepsPath_forEach {A} q (f : A → M unit) l :
  (∀ a, keepsPath q (f a)) → keepsPath q (forEach f l).
Proof.
  intros Hf. induction l as [|a l IH]; simpl.
  - apply keepsPath_keepsFs, keepsFs_ret.
  - by apply keepsPath_bind.
Qed.

Lemma keepsPath_writeFs q f :
  (∀ m m', f m = Ok m' → m' !! q = m !! q) → keepsPath q (writeFs f).
Proof.
  intros Hf w r w'. unfold writeFs.
  destruct (f (fs w)) as [m'|e] eqn:E; intros [= _ <-]; [|done].
  simpl. by apply Hf.
Qed.

Section Outcomes.
Context {rt : Runtime}.

Lemma keepsFs_loadAndRegisterFonts : keepsFs loadAndRegisterFonts.
Proof.
  unfold loadAndRegisterFonts.
  apply keepsFs_bind; [apply keepsFs_readFs|]. intros [|]; simpl.
  - apply keepsFs_bind; [apply keepsFs_readFs|]. intros files.
    apply keepsFs_forEach. intros file.
    destruct (_ || _); [apply keepsFs_registerFont|apply keepsFs_ret].
  - apply keepsFs_ret.
Qed.

Lemma keepsFs_loadImage p : keepsFs (loadImage p).
Proof.
  unfold loadImage. apply keepsFs_bind; [apply keepsFs_readFs|].
  intros data. destruct (imageOf data); [apply keepsFs_ret|apply keepsFs_throw].
Qed.

Lemma keepsFs_readFileSync p : keepsFs (readFileSync p).
Proof.
  unfold readFileSync. apply keepsFs_bind; [apply keepsFs_readFs|].
  intros data. apply keepsFs_ret.
Qed.

Lemma keepsFs_addLocalFiles files : ∀ zip dir,
  keepsFs (addLocalFiles zip dir files).
Proof.
  induction files as [|f files IH]; intros zip dir; simpl.
  - apply keepsFs_ret.
  - apply keepsFs_bind; [|done]. unfold addLocalFile.
    apply keepsFs_bind; [apply keepsFs_readFs|]. intros [|]; simpl.
    + apply keepsFs_bind; [apply keepsFs_readFs|]. intros [|data];
        apply keepsFs_ret.
    + apply keepsFs_throw.
Qed.

Lemma zipPath_not_png q seg : zipPath ≠ q ++ [seg ++ js ".png"].
Proof.
  rewrite zipPath_eq. intros [_ H]%app_inj_tail.
  apply (f_equal last) in H. rewrite png_units in H.
  change (seg ++ [46; 112; 110; 103]%N)
    with (seg ++ [46; 112; 110]%N ++ [103%N]) in H.
  rewrite app_assoc, last_snoc in H. vm_compute in H. discriminate.
Qed.

Lemma keepsPath_generateOne v st template name :
  keepsPath zipPath (generateOne v st template name).
Proof.
  unfold generateOne, writeFileSync.
  destruct (path_join_png certificatesDir (normalizeName name))
    as (q & seg & ->).
  apply keepsPath_writeFs. intros m m' H. unfold fs_writeFileSync in H.
  destruct (hasNul _); [done|].
  assert (m' = <[q ++ [seg ++ js ".png"] :=
                   File (Png (drawCertificate v st template
                                (normalizeName name)))]> m) as ->.
  { destruct (lookupNode m (q ++ [seg ++ js ".png"])) as [[|?]|];
      [done| |];
      destruct (lookupNode m (removelast (q ++ [seg ++ js ".png"])))
        as [[|?]|]; by simplify_eq. }
  apply lookup_insert_ne. symmetry. apply zipPath_not_png.
Qed.

Lemma keepsPath_mkdirSync_certificatesDir :
  keepsPath zipPath (mkdirSync certificatesDir).
Proof.
  apply keepsPath_writeFs. intros m m' H. unfold fs_mkdirSync in H.
  destruct (lookupNode m certificatesDir); [done|].
  destruct (lookupNode m (removelast certificatesDir)) as [[|?]|];
    simplify_eq.
  apply lookup_insert_ne. symmetry.
  rewrite zipPath_eq, certificatesDir_eq. intros H%app_inv_head.
  vm_compute in H. discriminate.
Qed.

Lemma writeZip_outcome zip w r w' :
  writeZip zipPath zip w = (r, w') →
  fonts w' = fonts w ∧ res w' = res w ∧
  match r with
  | Ok _ =>
      lookupNode (fs w') zipPath = Some Dir ∨
      lookupNode (fs w') zipPath = Some (File (Zip zip))
  | Throw _ => fs w' = fs w
  end.
Proof.
  unfold writeZip, writeFs.
  destruct (lookupNode (fs w) zipPath) as [[|data]|] eqn:E.
  - intros [= <- <-]. simpl. rewrite E. auto.
  - destruct (fs_mkdirsSync _ _) as [m'|e]; intros [= <- <-]; simpl; [|done].
    split; [done|]. split; [done|]. right.
    rewrite zipPath_eq, lookupNode_snoc. apply lookup_insert_eq.
  - destruct (fs_mkdirsSync _ _) as [m'|e]; intros [= <- <-]; simpl; [|done].
    split; [done|]. split; [done|]. right.
    rewrite zipPath_eq, lookupNode_snoc. apply lookup_insert_eq.
Qed.

Lemma buildArchive_outcome v st template names w r w' :
  buildArchive v st template names w = (r, w') →
  res w' = res w ∧
  match r with
  | Ok true =>
      lookupNode (fs w') zipPath = Some Dir ∨
      ∃ zip, lookupNode (fs w') zipPath = Some (File (Zip zip))
  | Ok false => False
  | Throw _ => fs w' !! zipPath = fs w !! zipPath
  end.
Proof.
  intros H. split; [by eapply keepsResponse_buildArchive|].
  unfold buildArchive in H.
  apply bind_inv in H as [(d & w1 & H1 & H)|(e & H1 & ->)]; cycle 1.
  { by injection H1 as _ <-. }
  injection H1 as _ <-.
  apply bind_inv in H as [([] & w2 & H2 & H)|(e & H2 & ->)]; cycle 1.
  { destruct d; simpl in H2; [done|].
    eapply keepsPath_mkdirSync_certificatesDir, H2. }
  assert (fs w2 !! zipPath = fs w !! zipPath) as E2.
  { destruct d; simpl in H2; [by injection H2 as <-|].
    eapply keepsPath_mkdirSync_certificatesDir, H2. }
  apply bind_inv in H as [([] & w3 & H3 & H)|(e & H3 & ->)]; cycle 1.
  { rewrite <- E2. eapply keepsPath_forEach, H3.
    intros name. apply keepsPath_generateOne. }
  assert (fs w3 !! zipPath = fs w !! zipPath) as E3.
  { rewrite <- E2. eapply keepsPath_forEach, H3.
    intros name. apply keepsPath_generateOne. }
  apply bind_inv in H as [(files & w4 & H4 & H)|(e & H4 & ->)]; cycle 1.
  { rewrite <- E3. f_equal. eapply keepsFs_readFs, H4. }
  assert (fs w4 = fs w3) as E4 by (eapply keepsFs_readFs, H4).
  apply bind_inv in H as [(zip & w5 & H5 & H)|(e & H5 & ->)]; cycle 1.
  { rewrite <- E3, <- E4. f_equal. eapply keepsFs_addLocalFiles, H5. }
  assert (fs w5 = fs w4) as E5 by (eapply keepsFs_addLocalFiles, H5).
  apply bind_inv in H as [([] & w6 & H6 & H)|(e & H6 & ->)].
  - injection H as <- <-.
    apply writeZip_outcome in H6 as (_ & _ & [H6|H6]); eauto.
  - apply writeZip_outcome in H6 as (_ & _ & H6).
    by rewrite H6, E5, E4.
Qed.

Lemma reject_run message w :
  headersSent (res w) = false →
  reject message w
  = (Ok false, {| fs := fs w; fonts := fonts w; res := reply400 message |}).
Proof.
  intros H. unfold reject. rewrite !bind_run. unfold status, send. simpl.
  by rewrite H.
Qed.

Lemma generateBody_outcome v req w r w' :
  headersSent (res w) = false →
  generateBody v req w = (r, w') →
  bodyOutcome w r w'.
Proof.
  intros Hfresh H. unfold generateBody in H.
  assert (∀ message w0, fs w0 = fs w → res w0 = res w →
            reject message w0 = (r, w') → bodyOutcome w r w') as Hreject.
  { intros message w0 Hfs Hres. rewrite reject_run by congruence.
    intros [= <- <-]. simpl. split; [by eexists|done]. }
  destruct (files_template req) as [tp|], (files_participants req) as [pp|];
    try (by eapply Hreject).
  apply bind_inv in H as [(b & w1 & H1 & H)|(e & H1 & ->)];
    [|by injection H1]. injection H1 as _ <-.
  destruct (negb b); [by eapply Hreject|]. clear b.
  apply bind_inv in H as [(b & w1 & H1 & H)|(e & H1 & ->)];
    [|by injection H1]. injection H1 as _ <-.
  destruct (negb b); [by eapply Hreject|]. clear b.
  apply bind_inv in H as [([] & w1 & H1 & H)|(e & H1 & ->)]; cycle 1.
  { simpl. split; [eapply keepsResponse_loadAndRegisterFonts, H1|].
    f_equal. eapply keepsFs_loadAndRegisterFonts, H1. }
  pose proof (keepsResponse_loadAndRegisterFonts _ _ _ H1) as R1.
  pose proof (keepsFs_loadAndRegisterFonts _ _ _ H1) as F1.
  apply bind_inv in H as [(template & w2 & H2 & H)|(e & H2 & ->)]; cycle 1.
  { simpl. rewrite <- R1, <- F1.
    split; [eapply keepsResponse_loadImage, H2|].
    f_equal. eapply keepsFs_loadImage, H2. }
  pose proof (keepsResponse_loadImage _ _ _ _ H2) as R2.
  pose proof (keepsFs_loadImage _ _ _ _ H2) as F2.
  apply bind_inv in H as [(text & w3 & H3 & H)|(e & H3 & ->)]; cycle 1.
  { simpl. rewrite <- R1, <- F1, <- R2, <- F2.
    split; [eapply keepsResponse_readFileSync, H3|].
    f_equal. eapply keepsFs_readFileSync, H3. }
  pose proof (keepsResponse_readFileSync _ _ _ _ H3) as R3.
  pose proof (keepsFs_readFileSync _ _ _ _ H3) as F3.
  case_bool_decide.
  - eapply Hreject; [|  |exact H]; congruence.
  - apply buildArchive_outcome in H as [R4 H].
    destruct r as [[|]|e]; [|done|]; simpl.
    + split; [congruence|done].
    + split; [congruence|]. rewrite H. congruence.
Qed.

Lemma generateTry_outcome v req w r w' :
  headersSent (res w) = false →
  generateTry v req w = (r, w') →
  (r = Ok true ∧ res w' = res w ∧
   (lookupNode (fs w') zipPath = Some Dir ∨
    ∃ zip, lookupNode (fs w') zipPath = Some (File (Zip zip)))) ∨
  (r = Ok false ∧ (∃ message, res w' = reply400 message) ∧ fs w' = fs w) ∨
  (r = Ok false ∧ res w' = generationFailure ∧
   fs w' !! zipPath = fs w !! zipPath).
Proof.
  intros Hfresh. unfold generateTry, tryCatch.
  destruct (generateBody v req w) as [[[|]|e] w1] eqn:E;
    apply generateBody_outcome in E; try done; simpl in E.
  - intros [= <- <-]. left. by destruct E.
  - intros [= <- <-]. right. left. by destruct E.
  - destruct E as [Hres Hzip]. rewrite !bind_run. unfold getHeadersSent.
    rewrite Hres, Hfresh. simpl. rewrite !bind_run. unfold status, send.
    simpl. rewrite Hres, Hfresh. intros [= <- <-]. right. right. done.
Qed.

End Outcomes.

Lemma lookup_removeSync_outside (m : FileSystem) p q x :
  ¬ p `prefix_of` q → m !! q = Some x → fs_removeSync m p !! q = Some x.
Proof.
  intros Hp Hq. unfold fs_removeSync. by apply map_lookup_filter_Some.
Qed.

Lemma mkdirsFrom_keeps segs : ∀ pre (m m' : FileSystem) q x,
  mkdirsFrom pre segs m = Ok m' → m !! q = Some x → m' !! q = Some x.
Proof.
  induction segs as [|s segs IH]; intros pre m m' q x H Hq.
  - by injection H as <-.
  - simpl in H. destruct (m !! (pre ++ [s])) as [[|data]|] eqn:E; [|done|].
    + by eapply IH.
    + eapply IH; [exact H|]. rewrite lookup_insert_ne; [done|]. congruence.
Qed.

Lemma lookup_emptyDirSync_outside (m m' : FileSystem) d q x :
  fs_emptyDirSync m d = Ok m' →
  ¬ d `prefix_of` q → m !! q = Some x → m' !! q = Some x.
Proof.
  unfold fs_emptyDirSync. intros H Hd Hq.
  destruct (lookupNode m d) as [[|data]|]; [|done|].
  - injection H as <-. apply map_lookup_filter_Some. split; [done|].
    simpl. by intros [? _].
  - by eapply mkdirsFrom_keeps.
Qed.

Section Serving.
Context {rt : Runtime}.

Lemma cleanup_total v w :
  ∃ m', cleanup v w = (Ok tt, {| fs := m'; fonts := fonts w; res := res w |}) ∧
        ∀ q x, outsideWorkingFiles q → fs w !! q = Some x → m' !! q = Some x.
Proof.
  unfold cleanup, tryCatch. rewrite !bind_run.
  destruct v.
  - unfold emptyDirSync, writeFs at 1.
    destruct (fs_emptyDirSync (fs w) uploadsDir) as [m1|e] eqn:E.
    + eexists. split; [reflexivity|]. intros q x (Hup & Hcert & Hzip) Hq.
      simpl. do 2 (apply lookup_removeSync_outside; [done|]).
      by eapply lookup_emptyDirSync_outside.
    + exists (fs w). by rewrite world_eta.
  - eexists. split; [reflexivity|]. intros q x (Hup & Hcert & Hzip) Hq.
    simpl. by do 2 (apply lookup_removeSync_outside; [done|]).
Qed.

Lemma cleanup_res v w : res (cleanup v w).2 = res w.
Proof. by destruct (cleanup_total v w) as (m' & -> & _). Qed.

(** The ways a request can end, with what each leaves behind. *)
Lemma serve_outcome v req outcome m registered :
  let w := serve v req outcome m registered in
  (∃ message, res w = reply400 message ∧ fs w = m) ∨
  (res w = generationFailure ∧ fs w !! zipPath = m !! zipPath) ∨
  (outcome = Delivered ∧
   ∃ zip, res w = {| statusCode := 200; headersSent := true;
                     sent := Some (SentFile (js "certificates.zip")
                                     (Zip zip));
                     statusLine := Some 200%Z |}) ∨
  res w = downloadFailure ∨
  (outcome = Aborted ∧
   res w = {| statusCode := 500; headersSent := true;
              sent := Some (SentPartial (js "certificates.zip"));
              statusLine := Some 200%Z |}).
Proof.
  intros w. subst w. unfold serve, generateCertificates. rewrite bind_run.
  destruct (generateTry v req _) as [r w1] eqn:E.
  destruct (generateTry_outcome v req
              {| fs := m; fonts := registered; res := freshResponse |}
              r w1 eq_refl E) as
    [(-> & Hres & Hzip)|[(-> & [message Hres] & Hfs)|(-> & Hres & Hfs)]].
  - simpl in Hres.
    assert (∀ w2, res w2 = freshResponse →
              res (downloadCallback v true w2).2 = downloadFailure) as Hfail.
    { intros w2 Hw2. unfold downloadCallback. rewrite !bind_run.
      unfold status, send. simpl. rewrite Hw2. simpl.
      by rewrite cleanup_res. }
    unfold download.
    destruct (fs_readFile (fs w1) zipPath) as [data|e] eqn:Eread.
    + assert (∃ zip, data = Zip zip) as [zip ->].
      { unfold fs_readFile in Eread.
        destruct Hzip as [Hzip|[zip Hzip]]; rewrite Hzip in Eread;
          [done|]. injection Eread as <-. by exists zip. }
      destruct outcome.
      * right. right. left. split; [done|]. exists zip.
        unfold downloadCallback. rewrite bind_run. simpl.
        rewrite cleanup_res. simpl. by rewrite Hres.
      * right. right. right. left. by apply Hfail.
      * right. right. right. right. split; [done|].
        unfold downloadCallback. rewrite !bind_run. unfold status, send.
        simpl. by rewrite Hres.
    + right. right. right. left.
      assert (match outcome with
              | Delivered | _ => downloadCallback v true w1
              end = downloadCallback v true w1) as -> by (by destruct outcome).
      by apply Hfail.
  - left. exists message. by split.
  - right. left. by split.
Qed.


(** X14.  A client that receives status 200 was sent the archive as
    [certificates.zip]: either the stream was delivered and the body is the
    whole archive, or the stream broke off after the headers and the body is
    cut short; in that case [res.statusCode] reads 500 at the end, although
    200 is what went out. *)
Theorem success_carries_the_archive v req outcome m registered :
  let w := serve v req outcome m registered in
  statusLine (res w) = Some 200%Z →
  (outcome = Delivered ∧ statusCode (res w) = 200%Z ∧
   ∃ zip, sent (res w) = Some (SentFile (js "certificates.zip") (Zip zip))) ∨
  (outcome = Aborted ∧ statusCode (res w) = 500%Z ∧
   sent (res w) = Some (SentPartial (js "certificates.zip"))).
Proof.
  intros w. subst w.
  destruct (serve_outcome v req outcome m registered)
    as [(message & -> & _)|[[-> _]|[(-> & zip & ->)|[->|[-> ->]]]]];
    simpl; try done.
  - intros _. left. split; [done|]. split; [done|]. by exists zip.
  - intros _. by right.
Qed.

(** X15.  A request answered 400 has written nothing: the file system is
    what it was, and the body is [{error: message}]. *)
Theorem rejected_request_writes_nothing v req outcome m registered :
  let w := serve v req outcome m registered in
  statusCode (res w) = 400%Z →
  fs w = m ∧ ∃ message, res w = reply400 message.
Proof.
  intros w. subst w.
  destruct (serve_outcome v req outcome m registered)
    as [(message & Hres & Hfs)|[[-> _]|[(_ & zip & ->)|[->|[_ ->]]]]];
    simpl; try done.
  intros _. split; [done|]. by exists message.
Qed.

(** X16.  A request that fails with "An error occurred while generating
    certificates." has delivered no archive and has not touched the archive
    path: what was stored as [certificates.zip] before is still there. *)
Theorem failed_generation_leaves_archive_path v req outcome m registered :
  let w := serve v req outcome m registered in
  sent (res w)
  = Some (SentText (js "An error occurred while generating certificates.")) →
  res w = generationFailure ∧ fs w !! zipPath = m !! zipPath.
Proof.
  intros w. subst w.
  destruct (serve_outcome v req outcome m registered)
    as [(message & -> & _)|[[Hres Hzip]|[(_ & zip & ->)|[->|[_ ->]]]]];
    simpl; done.
Qed.

End Serving.

Lemma success_carries_the_archive_witness :
  let w := serve (rt := sampleRuntime) V1 sampleRequest Aborted
             (sampleFs (lines ["ann lee"])) [] in
  (Aborted = Delivered ∧ statusCode (res w) = 200%Z ∧
   ∃ zip, sent (res w) = Some (SentFile (js "certificates.zip") (Zip zip))) ∨
  (Aborted = Aborted ∧ statusCode (res w) = 500%Z ∧
   sent (res w) = Some (SentPartial (js "certificates.zip"))).
Proof.
  apply (success_carries_the_archive (rt := sampleRuntime) V1 sampleRequest
           Aborted (sampleFs (lines ["ann lee"])) []).
  vm_compute. reflexivity.
Defined.

Lemma rejected_request_writes_nothing_witness :
  fs (serve (rt := sampleRuntime) V2 sampleRequestNoTemplate Delivered
        (sampleFs (lines ["ann lee"])) [])
  = sampleFs (lines ["ann lee"]).
Proof.
  apply (rejected_request_writes_nothing (rt := sampleRuntime) V2
           sampleRequestNoTemplate Delivered (sampleFs (lines ["ann lee"])) []).
  vm_compute. reflexivity.
Defined.

Lemma failed_generation_leaves_archive_path_witness :
  fs (serve (rt := sampleRuntime) V1 sampleRequest Delivered
        (sampleFs (lines ["ann lee"; "bob/smith"])) [])
    !! zipPath (rt := sampleRuntime)
  = sampleFs (lines ["ann lee"; "bob/smith"]) !! zipPath (rt := sampleRuntime).
Proof.
  apply (failed_generation_leaves_archive_path (rt := sampleRuntime) V1
           sampleRequest Delivered
           (sampleFs (lines ["ann lee"; "bob/smith"])) []).
  vm_compute. reflexivity.
Defined.

(** ** A participants file without names *)

Lemma participantNamesOf_nil text :
  participantNamesOf text = []
  ↔ Forall (λ line, line = []) (split NEWLINE text).
Proof.
  unfold participantNamesOf, filterBoolean.
  induction (split NEWLINE text) as [|line ls IH].
  - split; [constructor|done].
  - rewrite filter_cons, Forall_cons. destruct (decide (line ≠ [])) as [H|H].
    + split; [done|]. by intros [? _].
    + rewrite IH. apply dec_stable in H. by split; [|intros [_ ?]].
Qed.

Section EmptyList.
Context {rt : Runtime}.

Lemma download_status v outcome w1 :
  res w1 = freshResponse →
  let w := (download zipPath (js "certificates.zip") outcome
              (downloadCallback v) w1).2 in
  statusCode (res w) = 200%Z ∨ statusCode (res w) = 500%Z.
Proof.
  intros Hres w. subst w.
  assert (statusCode (res (downloadCallback v true w1).2) = 500%Z) as Hfail.
  { unfold downloadCallback. rewrite !bind_run. unfold status, send. simpl.
    rewrite Hres. simpl. by rewrite cleanup_res. }
  unfold download.
  destruct outcome, (fs_readFile (fs w1) zipPath) as [data|e];
    try (by right).
  left. unfold downloadCallback. rewrite bind_run. simpl.
  rewrite cleanup_res. simpl. by rewrite Hres.
Qed.

(** C5, as the code has it.  For a request otherwise in order (both files
    stored, the template readable, no file in the place of the fonts
    directory): when every line of the participants file is the empty
    string, the file being empty or made of newlines alone, the answer is
    400 with [{error: 'The participants list is empty.'}] and the file
    system is left as it was; when some line is not the empty string, be it
    white space only, that answer is not given: the names go on to the
    generation, and the status is 200 or 500. *)
Theorem empty_participants_rejected v req outcome m registered
    tp pp tdata img pdata :
  files_template req = Some tp →
  files_participants req = Some pp →
  lookupNode m tp = Some (File tdata) →
  imageOf tdata = Some img →
  lookupNode m pp = Some (File pdata) →
  fontsDirOk m →
  let w := serve v req outcome m registered in
  (Forall (λ line, line = []) (split NEWLINE (textOf pdata)) →
   res w = reply400 "The participants list is empty." ∧ fs w = m) ∧
  (¬ Forall (λ line, line = []) (split NEWLINE (textOf pdata)) →
   statusCode (res w) = 200%Z ∨ statusCode (res w) = 500%Z).
Proof.
  intros Ht Hp Htp Himg Hpp Hfonts w. subst w.
  unfold serve, generateCertificates. rewrite bind_run.
  unfold generateTry, tryCatch.
  edestruct (generateBody_run v req
               {| fs := m; fonts := registered; res := freshResponse |})
    as [fonts' ->]; [done..|].
  cbv zeta. split.
  - intros Hblank. apply participantNamesOf_nil in Hblank.
    rewrite Hblank. simpl. done.
  - intros Hline. rewrite <- participantNamesOf_nil in Hline.
    rewrite bool_decide_eq_false_2
      by (by destruct (participantNamesOf (textOf pdata))).
    destruct (buildArchive v (styleOf req) img _ _) as [[[|]|e] w1] eqn:E;
      apply buildArchive_outcome in E as [Hres E]; simpl in Hres.
    + by apply download_status.
    + done.
    + right. rewrite !bind_run. unfold getHeadersSent. rewrite Hres. simpl.
      rewrite !bind_run. unfold status, send. simpl. by rewrite Hres.
Qed.

End EmptyList.

(** C5, as the specification has it, fails: a participants file may have
    blank lines only and still be answered 200.  Here it holds the carriage
    return of a blank line with a Windows line ending and a line of two
    spaces.  Neither line is the empty string, so both stay in the list;
    both names normalize to the empty string, the certificate [.png] is
    written to the certificates directory (the second over the first), and
    the archive goes out with this one entry. *)
Lemma blank_lines_are_not_rejected :
  let text := [13; 10; 32; 32; 10]%N in
  let start := {| fs := sampleFs text; fonts := []; res := freshResponse |} in
  let w := serve (rt := sampleRuntime) V1 sampleRequest Delivered
             (sampleFs text) [] in
  Forall (λ line, trim line = []) (split NEWLINE text) ∧
  participantNamesOf text = [[13%N]; [32; 32]%N] ∧
  (∃ c, fs (generateTry (rt := sampleRuntime) V1 sampleRequest start).2
          !! (certificatesDir (rt := sampleRuntime) ++ [js ".png"])
        = Some (File (Png c))) ∧
  statusLine (res w) = Some 200%Z ∧
  ∃ c, archiveOf (res w) = Some [(js ".png", Png c)].
Proof.
  split; [by repeat constructor|]. split; [reflexivity|].
  split; [eexists; vm_compute; reflexivity|].
  split; [vm_compute; reflexivity|].
  eexists. vm_compute. reflexivity.
Qed.

Lemma empty_participants_rejected_witness :
  (let w := serve (rt := sampleRuntime) V1 sampleRequest Delivered
              (sampleFs (lines [""; ""; ""])) [] in
   res w = reply400 "The participants list is empty." ∧
   fs w = sampleFs (lines [""; ""; ""])) ∧
  (let w := serve (rt := sampleRuntime) V1 sampleRequest Delivered
              (sampleFs (lines [""; "  "; ""])) [] in
   statusCode (res w) = 200%Z ∨ statusCode (res w) = 500%Z).
Proof.
  split.
  - apply (proj1 (empty_participants_rejected (rt := sampleRuntime) V1
                    sampleRequest Delivered (sampleFs (lines [""; ""; ""])) []
                    (sampleUploads ++ [js "t1"]) (sampleUploads ++ [js "p1"])
                    (Raw [] (Some sampleTemplate)) sampleTemplate
                    (Raw (lines [""; ""; ""]) None)
                    eq_refl eq_refl eq_refl eq_refl eq_refl
                    (sampleFs_fontsDirOk _))).
    vm_compute. repeat constructor.
  - apply (proj2 (empty_participants_rejected (rt := sampleRuntime) V1
                    sampleRequest Delivered
                    (sampleFs (lines [""; "  "; ""])) []
                    (sampleUploads ++ [js "t1"]) (sampleUploads ++ [js "p1"])
                    (Raw [] (Some sampleTemplate)) sampleTemplate
                    (Raw (lines [""; "  "; ""]) None)
                    eq_refl eq_refl eq_refl eq_refl eq_refl
                    (sampleFs_fontsDirOk _))).
    intros H. vm_compute in H.
    apply Forall_cons in H as [_ H]. apply Forall_cons in H as [H _].
    discriminate.
Defined.

(** ** Cleanup, further *)

Section CleanupFurther.
Context {rt : Runtime}.

(** X17.  The cleanup never fails and stays within its three places: it
    ends normally whatever the file system holds (an error inside it is
    caught), it leaves the response and the registered fonts as they are,
    and a file or directory outside the uploads directory, the certificates
    directory and the archive file is still there afterwards, unchanged. *)
Theorem cleanup_is_contained v w :
  ∃ w',
    cleanup v w = (Ok tt, w') ∧
    res w' = res w ∧ fonts w' = fonts w ∧
    ∀ q x, outsideWorkingFiles q → fs w !! q = Some x → fs w' !! q = Some x.
Proof.
  destruct (cleanup_total v w) as (m' & Hrun & Hout).
  eexists. split; [exact Hrun|]. by repeat split.
Qed.

(** X18.  In the first variant the three removals share one [try]: when
    emptying the uploads directory throws, because a file sits at its path,
    the certificates directory and the archive are not removed either, and
    the file system is left as it was. *)
Theorem failed_emptyDir_skips_removals w data :
  lookupNode (fs w) uploadsDir = Some (File data) →
  cleanup V1 w = (Ok tt, w).
Proof.
  intros H. unfold cleanup, tryCatch. rewrite !bind_run.
  unfold emptyDirSync, writeFs at 1, fs_emptyDirSync. by rewrite H.
Qed.

(** X19.  The second variant's cleanup leaves the uploads alone: whatever
    is stored in the uploads directory, or anywhere outside the
    certificates directory and the archive file, is still there after it. *)
Theorem second_variant_cleanup_keeps_uploads w q x :
  ¬ certificatesDir `prefix_of` q →
  ¬ zipPath `prefix_of` q →
  fs w !! q = Some x →
  fs (cleanup V2 w).2 !! q = Some x.
Proof.
  intros Hcert Hzip Hq. unfold cleanup, tryCatch. rewrite !bind_run. simpl.
  by do 2 (apply lookup_removeSync_outside; [done|]).
Qed.

(** X20.  A download that breaks off after the headers went out skips the
    cleanup: the callback's [res.status(500).send] throws before the
    cleanup is reached, so the file system stays as the generation left it,
    archive and certificates included. *)
Theorem aborted_download_leaves_files v req m registered w1 data :
  generateTry v req {| fs := m; fonts := registered; res := freshResponse |}
  = (Ok true, w1) →
  lookupNode (fs w1) zipPath = Some (File data) →
  let w := serve v req Aborted m registered in
  fs w = fs w1 ∧
  sent (res w) = Some (SentPartial (js "certificates.zip")).
Proof.
  intros Htry Hzip w. subst w.
  unfold serve, generateCertificates. rewrite bind_run, Htry.
  unfold download, fs_readFile. rewrite Hzip.
  unfold downloadCallback. rewrite !bind_run. by unfold status, send.
Qed.

End CleanupFurther.

Lemma failed_emptyDir_skips_removals_witness :
  let w := {| fs := <[sampleUploads := File (Raw [] None)]> (sampleFs []);
              fonts := []; res := freshResponse |} in
  cleanup (rt := sampleRuntime) V1 w = (Ok tt, w).
Proof.
  apply (failed_emptyDir_skips_removals (rt := sampleRuntime) _ (Raw [] None)).
  vm_compute. reflexivity.
Defined.

Lemma second_variant_cleanup_keeps_uploads_witness :
  let w := {| fs := sampleFs []; fonts := []; res := freshResponse |} in
  fs (cleanup (rt := sampleRuntime) V2 w).2 !! (sampleUploads ++ [js "p1"])
  = Some (File (Raw [] None)).
Proof.
  apply (second_variant_cleanup_keeps_uploads (rt := sampleRuntime)).
  - intros [k Hk]. vm_compute in Hk. discriminate.
  - intros [k Hk]. vm_compute in Hk. discriminate.
  - vm_compute. reflexivity.
Defined.

Lemma aborted_download_leaves_files_witness :
  let w1 := (generateTry (rt := sampleRuntime) V1 sampleRequest
               {| fs := sampleFs (lines ["ann lee"]);
                  fonts := []; res := freshResponse |}).2 in
  let w := serve (rt := sampleRuntime) V1 sampleRequest Aborted
             (sampleFs (lines ["ann lee"])) [] in
  fs w = fs w1 ∧ sent (res w) = Some (SentPartial (js "certificates.zip")).
Proof.
  intros w1.
  eapply (aborted_download_leaves_files (rt := sampleRuntime) V1 sampleRequest
            (sampleFs (lines ["ann lee"])) [] w1).
  - vm_compute. reflexivity.
  - vm_compute. reflexivity.
Defined.

(** ** Validation *)

Section Validation.
Context {rt : Runtime}.

(** X21.  A request without its template or without its participants file
    is answered 400 "Please upload both the template and participants
    files." and nothing else happens: no file is read or written, no font is
    registered, nothing is drawn. *)
Theorem missing_upload_rejected v req outcome m registered :
  files_template req = None ∨ files_participants req = None →
  serve v req outcome m registered
  = {| fs := m; fonts := registered;
       res := reply400
                "Please upload both the template and participants files." |}.
Proof.
  intros H. unfold serve, generateCertificates, generateTry, tryCatch.
  rewrite bind_run. unfold generateBody.
  destruct (files_template req), (files_participants req), H; done.
Qed.

(** X22.  The stored files are looked for before anything is read, the
    template first: when the template's path does not exist the answer is
    400 "Template file does not exist.", and when the template is there but
    the participants file is not, 400 "Participants file does not exist.";
    either way no font is registered and nothing is written. *)
Theorem vanished_upload_rejected v req outcome m registered tp pp :
  files_template req = Some tp →
  files_participants req = Some pp →
  (lookupNode m tp = None →
   serve v req outcome m registered
   = {| fs := m; fonts := registered;
        res := reply400 "Template file does not exist." |}) ∧
  (is_Some (lookupNode m tp) → lookupNode m pp = None →
   serve v req outcome m registered
   = {| fs := m; fonts := registered;
        res := reply400 "Participants file does not exist." |}).
Proof.
  intros Ht Hp. unfold serve, generateCertificates, generateTry, tryCatch.
  rewrite bind_run. unfold generateBody. rewrite Ht, Hp.
  rewrite bind_run, existsSync_run. unfold fs_existsSync. simpl. split.
  - by intros ->.
  - intros [x ->] Hpp. simpl.
    rewrite bind_run, existsSync_run. unfold fs_existsSync. simpl.
    by rewrite Hpp.
Qed.

(** X23.  A template that cannot be read as an image fails the request
    before any certificate is made: the answer is 500 "An error occurred
    while generating certificates." and the file system is what it was. *)
Theorem unreadable_template_fails_fast v req outcome m registered
    tp pp tdata :
  files_template req = Some tp →
  files_participants req = Some pp →
  lookupNode m tp = Some (File tdata) →
  imageOf tdata = None →
  is_Some (lookupNode m pp) →
  fontsDirOk m →
  let w := serve v req outcome m registered in
  res w = generationFailure ∧ fs w = m.
Proof.
  intros Ht Hp Htp Himg [x Hpp] Hfonts w. subst w.
  destruct (loadAndRegisterFonts_run
              {| fs := m; fonts := registered; res := freshResponse |} Hfonts)
    as [fonts' Hload].
  assert (generateBody v req
            {| fs := m; fonts := registered; res := freshResponse |}
          = (Throw ImageError,
             {| fs := m; fonts := fonts'; res := freshResponse |})) as Hbody.
  { unfold generateBody. rewrite Ht, Hp.
    rewrite bind_run, existsSync_run. unfold fs_existsSync. simpl.
    rewrite Htp. simpl.
    rewrite bind_run, existsSync_run. unfold fs_existsSync. simpl.
    rewrite Hpp. simpl.
    rewrite bind_run, Hload.
    rewrite bind_run. unfold loadImage. rewrite bind_run.
    unfold readFs, fs_readFile. simpl. by rewrite Htp, Himg. }
  unfold serve, generateCertificates. rewrite bind_run.
  unfold generateTry, tryCatch. rewrite Hbody. split; reflexivity.
Qed.

(** X24.  When a file sits where the fonts directory should be, listing it
    throws inside the handler's [try]: the request is answered 500 "An
    error occurred while generating certificates.", no font is registered
    and the file system is what it was. *)
Theorem fonts_path_is_a_file v req outcome m registered tp pp data :
  files_template req = Some tp →
  files_participants req = Some pp →
  is_Some (lookupNode m tp) →
  is_Some (lookupNode m pp) →
  lookupNode m (path_join dirname (js "fonts")) = Some (File data) →
  serve v req outcome m registered
  = {| fs := m; fonts := registered; res := generationFailure |}.
Proof.
  intros Ht Hp [x Htp] [y Hpp] Hfonts.
  unfold serve, generateCertificates, generateTry, tryCatch.
  rewrite bind_run. unfold generateBody. rewrite Ht, Hp.
  rewrite bind_run, existsSync_run. unfold fs_existsSync. simpl.
  rewrite Htp. simpl.
  rewrite bind_run, existsSync_run. unfold fs_existsSync. simpl.
  rewrite Hpp. simpl.
  rewrite bind_run. unfold loadAndRegisterFonts at 1.
  rewrite bind_run, existsSync_run. unfold fs_existsSync. simpl.
  rewrite Hfonts. simpl.
  rewrite bind_run. unfold readdirSync, readFs, fs_readdirSync. simpl.
  by rewrite Hfonts.
Qed.

End Validation.

Lemma missing_upload_rejected_witness :
  serve (rt := sampleRuntime) V1 sampleRequestNoTemplate Delivered
    (sampleFs (lines ["ann lee"])) []
  = {| fs := sampleFs (lines ["ann lee"]); fonts := [];
       res := reply400
                "Please upload both the template and participants files." |}.
Proof.
  apply (missing_upload_rejected (rt := sampleRuntime)). by left.
Defined.

Lemma vanished_upload_rejected_witness :
  serve (rt := sampleRuntime) V1 sampleSecondRequest Delivered
    (sampleFs (lines ["ann lee"])) []
  = {| fs := sampleFs (lines ["ann lee"]); fonts := [];
       res := reply400 "Participants file does not exist." |}.
Proof.
  apply (proj2 (vanished_upload_rejected (rt := sampleRuntime) V1
                  sampleSecondRequest Delivered
                  (sampleFs (lines ["ann lee"])) []
                  (sampleUploads ++ [js "t1"]) (sampleUploads ++ [js "p2"])
                  eq_refl eq_refl)).
  - vm_compute. eauto.
  - vm_compute. reflexivity.
Defined.

Lemma unreadable_template_fails_fast_witness :
  let m := <[sampleUploads ++ [js "t1"] := File (Raw (js "not an image") None)]>
             (sampleFs (lines ["ann lee"])) in
  let w := serve (rt := sampleRuntime) V1 sampleRequest Delivered m [] in
  res w = generationFailure ∧ fs w = m.
Proof.
  intros m.
  apply (unreadable_template_fails_fast (rt := sampleRuntime) V1 sampleRequest
           Delivered m [] (sampleUploads ++ [js "t1"])
           (sampleUploads ++ [js "p1"]) (Raw (js "not an image") None)).
  - reflexivity.
  - reflexivity.
  - vm_compute. reflexivity.
  - reflexivity.
  - vm_compute. eauto.
  - intros data. vm_compute. discriminate.
Defined.

Lemma fonts_path_is_a_file_witness :
  let m := <[[js "srv"; js "app"; js "fonts"] := File (Raw [] None)]>
             (sampleFs (lines ["ann lee"])) in
  serve (rt := sampleRuntime) V1 sampleRequest Delivered m []
  = {| fs := m; fonts := []; res := generationFailure |}.
Proof.
  intros m.
  apply (fonts_path_is_a_file (rt := sampleRuntime) V1 sampleRequest
           Delivered m [] (sampleUploads ++ [js "t1"])
           (sampleUploads ++ [js "p1"]) (Raw [] None)).
  - reflexivity.
  - reflexivity.
  - vm_compute. eauto.
  - vm_compute. eauto.
  - vm_compute. reflexivity.
Defined.

(** ** The catalogue reply, further *)

Lemma properties_NoDup fields : NoDup fields.*1 → properties fields = fields.
Proof.
  induction fields as [|[k x] r IH]; [done|]. rewrite fmap_cons.
  intros [Hk Hr]%NoDup_cons. simpl in Hk. simpl.
  rewrite (proj2 (lookupField_None k r)) by done. simpl. f_equal.
  rewrite IH by done. clear IH Hr.
  induction r as [|[k' x'] r IH]; [done|].
  rewrite fmap_cons in Hk. apply not_elem_of_cons in Hk as [Hne Hk].
  simpl in Hne. rewrite filter_cons_True by (simpl; congruence).
  f_equal. by apply IH.
Qed.

Lemma plainJson_defined v : plainJson v = true → isUndefined v = false.
Proof. by destruct v. Qed.

(** A plain value is written as it is. *)
Lemma serialized_plain v : plainJson v = true → serialized v = v.
Proof.
  induction v as [| |b|q|b|s|items IH|fields IH] using json_induction;
    try done.
  - simpl. intros Hall. f_equal.
    induction IH as [|item items Hitem _ IHitems]; [done|].
    simpl in Hall. apply andb_true_iff in Hall as [H1 H2].
    simpl. rewrite Hitem by done. rewrite plainJson_defined by done.
    f_equal. by apply IHitems.
  - simpl. intros [Hdup Hall]%andb_true_iff.
    apply bool_decide_eq_true in Hdup. f_equal.
    assert (map (λ kv : jsstring * json,
                   let '(k, x) := kv in (k, serialized x)) fields
            = fields) as ->.
    { clear Hdup. induction IH as [|[k x] r Hx _ IHr]; [done|].
      simpl in Hall. apply andb_true_iff in Hall as [H1 H2].
      simpl in *. rewrite Hx by done. f_equal. by apply IHr. }
    rewrite properties_NoDup by done. clear Hdup IH.
    induction fields as [|[k x] r IHr]; [done|].
    simpl in Hall. apply andb_true_iff in Hall as [H1 H2].
    rewrite filter_cons_True by (simpl; by apply plainJson_defined).
    f_equal. by apply IHr.
Qed.

Lemma lastBinding_value key fields v :
  lastBinding key fields v → v ∈ fields.*2.
Proof.
  induction 1 as [v rest _|[k x] rest v _ IH]; rewrite fmap_cons;
    apply elem_of_cons; auto.
Qed.

Lemma plainJson_propOf item key :
  plainJson item = true →
  propOf item key = JUndefined ∨ plainJson (propOf item key) = true.
Proof.
  destruct item as [| | | | | | |fields]; try (by left). simpl.
  intros [_ Hall]%andb_true_iff.
  destruct (lookupField (js key) fields) as [v|] eqn:E; [|by left].
  right. simpl. apply lookupField_Some, lastBinding_value in E.
  apply list_elem_of_fmap in E as ([k x] & -> & Hin).
  rewrite forallb_forall in Hall. by apply (Hall (k, x)), list_elem_of_In.
Qed.

Lemma reads_iff item key v :
  nullish item = false → reads item key v ↔ v = propOf item key.
Proof.
  intros H. split; [apply reads_unique|]. intros ->. by apply reads_propOf.
Qed.

Lemma keys_written_sublist f g :
  (written "family" f ++ written "variants" g).*1
    `sublist_of` [js "family"; js "variants"].
Proof.
  rewrite !written_serialized.
  destruct (isUndefined (serialized f)), (isUndefined (serialized g)); simpl;
    repeat first [apply sublist_nil|apply sublist_skip|apply sublist_cons].
Qed.

Lemma family_ne_variants : js "family" ≠ js "variants".
Proof. discriminate. Qed.

Lemma elem_of_written v f g :
  ((js "family", v) ∈ written "family" f ++ written "variants" g →
   isUndefined f = false ∧ v = serialized f) ∧
  ((js "variants", v) ∈ written "family" f ++ written "variants" g →
   isUndefined g = false ∧ v = serialized g).
Proof.
  rewrite !written_serialized, !isUndefined_serialized.
  pose proof family_ne_variants as Hne.
  destruct (isUndefined f), (isUndefined g); simpl; split; intros Hin;
    rewrite ?elem_of_cons, ?elem_of_nil in Hin; intuition congruence.
Qed.

Lemma written_elem_of f g :
  (js "family" ∈ (written "family" f ++ written "variants" g).*1
   ↔ isUndefined f = false) ∧
  (js "variants" ∈ (written "family" f ++ written "variants" g).*1
   ↔ isUndefined g = false).
Proof.
  rewrite !written_serialized, !isUndefined_serialized.
  pose proof family_ne_variants as Hne.
  destruct (isUndefined f), (isUndefined g); simpl;
    rewrite ?elem_of_cons, ?elem_of_nil; split; split; try done;
    intuition congruence.
Qed.

(** X25.  A reply of [GET /fonts] that goes out with status 200 forwards
    the two fields and no other: the upstream call resolved with an object
    whose [items] is an array, and the body is an array of as many objects.
    The object made from an item has no key but [family] and [variants], in
    this order, and has each of them exactly when the item defines a value
    for it; so it is a [{family, variants}] pair when the item defines
    both.  For an item that is plain JSON the values are the item's own. *)
Theorem fonts_reply_shape apiKey axiosGet :
  statusLine (serveFonts apiKey axiosGet) = Some 200%Z →
  ∃ data items elements,
    axiosGet (catalogueUrl apiKey) = Resolved data ∧
    itemList data items ∧
    sent (serveFonts apiKey axiosGet) = Some (SentJson (JArray elements)) ∧
    length elements = length items ∧
    ∀ i item, items !! i = Some item →
      ∃ fields,
        elements !! i = Some (JObject fields) ∧
        fields.*1 `sublist_of` [js "family"; js "variants"] ∧
        (∀ key, key = "family" ∨ key = "variants" →
           js key ∈ fields.*1 ↔ ¬ reads item key JUndefined) ∧
        (¬ reads item "family" JUndefined →
         ¬ reads item "variants" JUndefined →
         isFontPair (JObject fields)) ∧
        (plainJson item = true →
         ∀ key v, key = "family" ∨ key = "variants" →
                  (js key, v) ∈ fields → reads item key v).
Proof.
  rewrite serveFonts_run.
  destruct (axiosGet (catalogueUrl apiKey)) as [data|reason]; [|done].
  destruct (catalogueItems data) as [items|] eqn:E; [|done]. intros _.
  apply catalogueItems_Some in E as [Hitems Hall].
  exists data, items, (map fontElement items).
  split; [done|]. split; [done|]. split; [done|].
  split; [apply length_map|].
  intros i item Hi.
  assert (nullish item = false) as Hitem.
  { apply (proj1 (Forall_forall _ _) Hall). by eapply list_elem_of_lookup_2. }
  eexists. split; [by rewrite list_lookup_fmap, Hi|].
  set (f := propOf item "family"). set (g := propOf item "variants").
  split; [apply keys_written_sublist|]. split; [|split].
  - intros key Hkey. rewrite reads_iff by done.
    destruct Hkey as [-> | ->].
    + rewrite (proj1 (written_elem_of f g)). fold f.
      destruct f; split; try done; by intros H.
    + rewrite (proj2 (written_elem_of f g)). fold g.
      destruct g; split; try done; by intros H.
  - rewrite !reads_iff by done. fold f g. intros Hf Hg.
    exists (serialized f), (serialized g).
    by destruct f, g.
  - intros Hplain key v Hkey Hin. apply reads_iff; [done|].
    destruct Hkey as [-> | ->].
    + apply (proj1 (elem_of_written v f g)) in Hin as [Hdef ->].
      destruct (plainJson_propOf item "family" Hplain) as [Hu|Hp].
      * fold f in Hu. by rewrite Hu in Hdef.
      * by apply serialized_plain.
    + apply (proj2 (elem_of_written v f g)) in Hin as [Hdef ->].
      destruct (plainJson_propOf item "variants" Hplain) as [Hu|Hp].
      * fold g in Hu. by rewrite Hu in Hdef.
      * by apply serialized_plain.
Qed.

Lemma fonts_reply_shape_witness :
  ∃ data items elements,
    (λ _ : jsstring,
       Resolved (JObject [(js "items",
                           JArray [JObject [(js "family", JString (js "Lato"));
                                            (js "files", JNull)]])]))
      (catalogueUrl None)
    = Resolved data ∧
    itemList data items ∧
    sent (serveFonts None
            (λ _, Resolved (JObject [(js "items",
                     JArray [JObject [(js "family", JString (js "Lato"));
                                      (js "files", JNull)]])])))
    = Some (SentJson (JArray elements)) ∧
    length elements = length items ∧
    ∀ i item, items !! i = Some item →
      ∃ fields,
        elements !! i = Some (JObject fields) ∧
        fields.*1 `sublist_of` [js "family"; js "variants"] ∧
        (∀ key, key = "family" ∨ key = "variants" →
           js key ∈ fields.*1 ↔ ¬ reads item key JUndefined) ∧
        (¬ reads item "family" JUndefined →
         ¬ reads item "variants" JUndefined →
         isFontPair (JObject fields)) ∧
        (plainJson item = true →
         ∀ key v, key = "family" ∨ key = "variants" →
                  (js key, v) ∈ fields → reads item key v).
Proof.
  apply (fonts_reply_shape None
           (λ _, Resolved (JObject [(js "items",
                    JArray [JObject [(js "family", JString (js "Lato"));
                                     (js "files", JNull)]])]))).
  reflexivity.
Defined.

(** ** The archive and what the directory already held *)

Section StaleFiles.
Context {rt : Runtime}.
Implicit Types (m : FileSystem) (names : list jsstring).

Lemma withCertificates_children_stale v st template names m f :
  is_Some (withCertificates v st template m names !! (certificatesDir ++ [f]))
  ↔ is_Some (m !! (certificatesDir ++ [f]))
    ∨ ∃ n, n ∈ names ∧ f = certificateFile n.
Proof.
  destruct (decide (Exists (λ n, f = certificateFile n) names)) as [Hex|Hno].
  - apply Exists_exists in Hex as (n & Hn & ->).
    rewrite lookup_withCertificates_in by done. split; [|done].
    intros _. right. by exists n.
  - rewrite lookup_withCertificates_other.
    + split; [by left|]. intros [?|(n & Hn & ->)]; [done|].
      exfalso. apply Hno, Exists_exists. by exists n.
    + intros n Hn [=]%app_inv_head. apply Hno, Exists_exists. by exists n.
Qed.

Lemma buildArchive_stale_run v st template names w :
  serverDirOk (fs w) →
  holdsOnlyFiles (fs w) certificatesDir →
  lookupNode (fs w) zipPath ≠ Some Dir →
  Forall (λ n, safeName (normalizeName n)) names →
  ∃ entries m',
    buildArchive v st template names w
    = (Ok true, {| fs := <[zipPath := File (Zip entries)]> m';
                   fonts := fonts w; res := res w |}) ∧
    NoDup (entries.*1) ∧
    (∀ f, f ∈ entries.*1
          ↔ is_Some (fs w !! (certificatesDir ++ [f]))
            ∨ ∃ n, n ∈ names ∧ f = certificateFile n) ∧
    (∀ n, n ∈ names →
          (certificateFile n,
           Png (drawCertificate v st template (normalizeName n))) ∈ entries) ∧
    (∀ f data, fs w !! (certificatesDir ++ [f]) = Some (File data) →
               (∀ n, n ∈ names → f ≠ certificateFile n) →
               (f, data) ∈ entries).
Proof.
  intros Hserver [Hdir Hold] Hzip Hsafe.
  set (m2 := withCertificates v st template (fs w) names).
  assert (lookupNode m2 certificatesDir = Some Dir) as Hdir2.
  { rewrite lookupNode_certificatesDir. unfold m2.
    rewrite lookup_withCertificates_other.
    - by rewrite <- lookupNode_certificatesDir.
    - intros n _. symmetry. apply certificatesDir_snoc_ne. }
  assert (serverDirOk m2) as Hserver2.
  { apply (serverDirOk_ext (fs w)); [done|]. intros p Hp.
    apply lookup_withCertificates_other. intros n _.
    rewrite certificatesDir_eq, <- app_assoc.
    by apply prefix_dirname_ne_below. }
  assert (lookupNode m2 zipPath ≠ Some Dir) as Hzip2.
  { rewrite zipPath_eq, lookupNode_snoc, <- zipPath_eq. unfold m2.
    rewrite lookup_withCertificates_other
      by (intros n _; apply zipPath_ne_certificate).
    by rewrite zipPath_eq, <- lookupNode_snoc, <- zipPath_eq. }
  assert (∀ f, f ∈ children m2 certificatesDir
               ↔ is_Some (fs w !! (certificatesDir ++ [f]))
                 ∨ ∃ n, n ∈ names ∧ f = certificateFile n) as Hfiles.
  { intros f. rewrite elem_of_children.
    apply withCertificates_children_stale. }
  assert (∀ f, f ∈ children m2 certificatesDir →
            ∃ data, m2 !! (certificatesDir ++ [f]) = Some (File data))
    as Hdata2.
  { intros f Hf.
    destruct (decide (Exists (λ n, f = certificateFile n) names)) as [Hex|Hno].
    - apply Exists_exists in Hex as (n & Hn & ->).
      eexists. by apply lookup_withCertificates_in.
    - apply Hfiles in Hf as [Hf|(n & Hn & ->)].
      + destruct (Hold f Hf) as (_ & _ & data & Hdata). exists data.
        unfold m2. rewrite lookup_withCertificates_other; [done|].
        intros n Hn [=]%app_inv_head. apply Hno, Exists_exists. by exists n.
      + exfalso. apply Hno, Exists_exists. by exists n. }
  destruct (addLocalFiles_run certificatesDir (children m2 certificatesDir) []
              {| fs := m2; fonts := fonts w; res := res w |})
    as (entries & Hadd & Hnames & Hdatas).
  { apply NoDup_children. }
  { intros f _. apply not_elem_of_nil. }
  { intros f Hf.
    assert (plainSegment f ∧ BACKSLASH ∉ f) as [Hplain Hback].
    { apply Hfiles in Hf as [Hf|(n & Hn & ->)].
      - destruct (Hold f Hf) as (? & ? & _). by split.
      - destruct (proj1 (Forall_forall _ _) Hsafe n Hn)
          as (Hsep & _ & Hback & _).
        split; [by apply certificateFile_plain
               |by apply certificateFile_no_backslash]. }
    split; [by apply path_join_plain|].
    split; [by apply win32Basename_plain|by apply Hdata2]. }
  assert (∀ f data, m2 !! (certificatesDir ++ [f]) = Some (File data) →
            (f, data) ∈ entries) as Hentry.
  { intros f data Hf.
    assert (f ∈ entries.*1) as Hin
      by (rewrite Hnames; apply elem_of_children; by rewrite Hf).
    apply list_elem_of_fmap in Hin as ([f' data'] & Hf' & Hin).
    simpl in Hf'. subst f'.
    pose proof (Hdatas _ _ Hin) as Hdata. simpl in Hdata.
    rewrite Hf in Hdata. by injection Hdata as <-. }
  exists entries, m2. split; [|split; [|split; [|split]]].
  - unfold buildArchive.
    rewrite bind_run, existsSync_run. unfold fs_existsSync. rewrite Hdir.
    simpl. rewrite bind_run. simpl.
    rewrite bind_run, forEach_generateOne_run; simpl;
      [|apply Hserver|done|done|].
    + fold m2. rewrite bind_run. unfold readdirSync, readFs, fs_readdirSync.
      simpl. rewrite Hdir2. rewrite bind_run, Hadd.
      rewrite bind_run, writeZip_run by done. done.
    + intros f Hf.
      destruct (Hold f) as (_ & _ & data & Hdata); [by rewrite Hf|]. congruence.
  - rewrite Hnames. apply NoDup_children.
  - intros f. rewrite Hnames. apply Hfiles.
  - intros n Hn. apply Hentry. by apply lookup_withCertificates_in.
  - intros f data Hf Hfresh. apply Hentry. unfold m2.
    rewrite lookup_withCertificates_other; [done|].
    intros n Hn [=]%app_inv_head. by apply (Hfresh n).
Qed.

(** X26.  The archive is the certificates directory as it stands when the
    loop is done.  For a request in order whose certificates directory
    already exists and holds only files, under names without a backslash,
    and whose normalized names are fit for file names as in C4: the
    download succeeds, and the
    archive has, without repetition, one entry for each file that was there
    and one for each distinct normalized name.  A file that was there under
    another name than the new certificates is in the archive with the
    content it had; a file with the name of a new certificate has been
    overwritten by it. *)
Theorem archive_holds_the_directory v req m registered tp pp tdata img pdata :
  files_template req = Some tp →
  files_participants req = Some pp →
  lookupNode m tp = Some (File tdata) →
  imageOf tdata = Some img →
  lookupNode m pp = Some (File pdata) →
  fontsDirOk m →
  serverDirOk m →
  holdsOnlyFiles m certificatesDir →
  lookupNode m zipPath ≠ Some Dir →
  let names := participantNamesOf (textOf pdata) in
  names ≠ [] →
  Forall (λ n, safeName (normalizeName n)) names →
  let w := serve v req Delivered m registered in
  ∃ entries,
    statusCode (res w) = 200%Z ∧
    archiveOf (res w) = Some entries ∧
    NoDup (entries.*1) ∧
    (∀ f, f ∈ entries.*1
          ↔ is_Some (m !! (certificatesDir ++ [f]))
            ∨ ∃ n, n ∈ names ∧ f = certificateFile n) ∧
    (∀ n, n ∈ names →
          (certificateFile n,
           Png (drawCertificate v (styleOf req) img (normalizeName n)))
          ∈ entries) ∧
    (∀ f data, m !! (certificatesDir ++ [f]) = Some (File data) →
               (∀ n, n ∈ names → f ≠ certificateFile n) →
               (f, data) ∈ entries).
Proof.
  intros Ht Hp Htp Himg Hpp Hfonts Hserver Hold Hzip names Hne Hsafe w.
  subst w. unfold serve, generateCertificates. rewrite bind_run.
  unfold generateTry, tryCatch.
  edestruct (generateBody_run v req
               {| fs := m; fonts := registered; res := freshResponse |})
    as [fonts' ->]; [done..|].
  cbv zeta. fold names. cbn [fs res].
  rewrite bool_decide_eq_false_2 by (by destruct names).
  edestruct (buildArchive_stale_run v (styleOf req) img names
               {| fs := m; fonts := fonts'; res := freshResponse |})
    as (entries & m' & -> & Hnodup & Hall & Hnew & Hstale); [done..|].
  exists entries. unfold download. cbn [fs].
  unfold fs_readFile. rewrite zipPath_eq, lookupNode_snoc, <- zipPath_eq.
  rewrite lookup_insert_eq. unfold downloadCallback. rewrite bind_run.
  cbn [mret M_ret]. rewrite cleanup_res. done.
Qed.

End StaleFiles.

Lemma sampleStaleFs_serverDirOk participants :
  serverDirOk (rt := sampleRuntime) (sampleStaleFs participants).
Proof.
  split; [vm_compute; reflexivity|].
  intros p [k Hk]. change (dirname (Runtime := sampleRuntime))
    with [js "srv"; js "app"] in Hk.
  destruct p as [|a [|b [|c p]]]; simpl in Hk; simplify_eq;
    vm_compute; reflexivity.
Qed.

Lemma sampleStaleFs_holdsOnlyFiles participants :
  holdsOnlyFiles (sampleStaleFs participants)
    (certificatesDir (rt := sampleRuntime)).
Proof.
  split; [vm_compute; reflexivity|]. intros f Hf.
  change (certificatesDir (rt := sampleRuntime))
    with [js "srv"; js "app"; js "certificates"] in *.
  destruct (decide (f = js "Old.png")) as [->|Hne].
  - split; [|split; [|by eexists; vm_compute]].
    + repeat split; try discriminate. intros H. vm_compute in H.
      repeat (apply elem_of_cons in H as [H|H]; [discriminate|]).
      by apply elem_of_nil in H.
    + intros H. vm_compute in H.
      repeat (apply elem_of_cons in H as [H|H]; [discriminate|]).
      by apply elem_of_nil in H.
  - exfalso. unfold sampleStaleFs in Hf.
    rewrite lookup_insert_ne in Hf by (intros [=]; congruence).
    rewrite lookup_insert_ne in Hf by discriminate.
    apply sampleFs_lookup in Hf.
    repeat (apply elem_of_cons in Hf as [Hf|Hf];
            [vm_compute in Hf; discriminate|]).
    by apply elem_of_nil in Hf.
Qed.

Lemma archive_holds_the_directory_witness :
  let m := sampleStaleFs (lines ["carol"]) in
  let w := serve (rt := sampleRuntime) V1 sampleRequest Delivered m [] in
  ∃ entries,
    archiveOf (res w) = Some entries ∧
    (js "Old.png", Raw (js "old") None) ∈ entries ∧
    (js "Carol.png",
     Png (drawCertificate (rt := sampleRuntime) V1 (styleOf sampleRequest)
            sampleTemplate (js "Carol"))) ∈ entries.
Proof.
  intros m w.
  destruct (archive_holds_the_directory (rt := sampleRuntime) V1 sampleRequest
              m [] (sampleUploads ++ [js "t1"]) (sampleUploads ++ [js "p1"])
              (Raw [] (Some sampleTemplate)) sampleTemplate
              (Raw (lines ["carol"]) None))
    as (entries & _ & Harchive & _ & _ & Hnew & Hstale).
  - reflexivity.
  - reflexivity.
  - vm_compute. reflexivity.
  - reflexivity.
  - vm_compute. reflexivity.
  - intros data. vm_compute. discriminate.
  - apply sampleStaleFs_serverDirOk.
  - apply sampleStaleFs_holdsOnlyFiles.
  - vm_compute. discriminate.
  - discriminate.
  - repeat constructor; intros H; vm_compute in H;
      repeat (apply elem_of_cons in H as [H|H]; [discriminate|]);
      by apply elem_of_nil in H.
  - exists entries. split; [exact Harchive|]. split.
    + apply Hstale; [vm_compute; reflexivity|].
      intros n Hn%list_elem_of_singleton Heq. subst n.
      vm_compute in Heq. discriminate.
    + apply (Hnew (js "carol")). by apply list_elem_of_singleton.
Defined.
